(** * Solar data cleaning and cross-country synthesis: a shallow embedding

    The development follows [src/data_cleaner.py] (class [SolarDataCleaner])
    and [scripts/cross_country_synthesis.py] (class
    [CrossCountrySynthesizer]), and then [src/data_exporter.py] (class
    [SolarDataExporter]), [src/data_loader.py] (class [SolarDataLoader]) and
    the helpers of the dashboard in [app/utils.py].

    Numbers.  A pandas float64 cell is modelled as [option R]: [Some x] is the
    number [x], [None] is NaN (pandas' null of a float column).  Arithmetic is
    that of the real numbers; rounding of the machine floats is not modelled.
    Every place where the Python code divides by zero or takes a statistic of
    an empty series is written out and yields NaN, as numpy and pandas do.

    Frames.  A [pd.DataFrame] is its number of rows and its columns in order,
    each column with its dtype.  The statistics of pandas, numpy and scipy are
    modelled on float columns; what they do on a column of another dtype is
    outside the model (see [as_floats]).

    Objects.  A method is a function from the state of its object to an
    outcome (a value or an exception) and a new state.  The cleaner is
    modelled twice: with its frames as values, where the content of the
    tables is what matters, and with its frames as references into a store
    (module [Heap]), where it matters which frame object a statement changes;
    the second model is shown to compute what the first computes. *)

From Stdlib Require Import Reals Lra Lia.
From stdpp Require Import base option list sorting strings gmap.

Local Open Scope R_scope.

(** ** Decisions on real numbers *)

#[global] Instance R_eq_dec : EqDecision R := Req_dec_T.
#[global] Instance Rle_rel_dec : RelDecision Rle := Rle_dec.
#[global] Instance Rlt_rel_dec : RelDecision Rlt := Rlt_dec.

#[global] Instance Rle_total : Total Rle.
Proof. intros x y. destruct (Rle_lt_dec x y); [left | right]; lra. Qed.
#[global] Instance Rle_trans' : Transitive Rle.
Proof. intros x y z; lra. Qed.
#[global] Instance Rle_antisym' : AntiSymm (=) Rle.
Proof. intros x y; lra. Qed.

(** [x > y] of two floats. *)
Definition Rgtb (x y : R) : bool := bool_decide (y < x).
(** [x < y] of two floats. *)
Definition Rltb (x y : R) : bool := bool_decide (x < y).

(** ** Series of floats *)

(** A float64 series: one optional number per row. *)
Abbreviation fseries := (list (option R)).

(** [Series.dropna()]: the non-null values, in row order. *)
Definition dropna (xs : fseries) : list R := omap (λ o : option R, o) xs.

(** [Series.isna().sum()]. *)
Definition count_na (xs : fseries) : nat :=
  length (filter (λ o : option R, o = None) xs).

Definition Rsum (v : list R) : R := foldr Rplus 0 v.

(** The sum of squared deviations from [m]. *)
Definition sq_dev (m : R) (v : list R) : R :=
  Rsum ((λ x, (x - m) * (x - m)) <$> v).

(** *** pandas reductions (nulls skipped) *)

(** [Series.mean()]: NaN on a series without a non-null value. *)
Definition mean (xs : fseries) : option R :=
  match dropna xs with
  | [] => None
  | v => Some (Rsum v / INR (length v))
  end.

(** [Series.std()], the sample standard deviation ([ddof=1]): NaN when fewer
    than two non-null values are present. *)
Definition std (xs : fseries) : option R :=
  let v := dropna xs in
  match mean xs with
  | Some m =>
      if decide (length v ≤ 1)%nat then None
      else Some (sqrt (sq_dev m v / INR (length v - 1)))
  | None => None
  end.

(** [Series.min()] and [Series.max()]. *)
Definition min (xs : fseries) : option R :=
  match dropna xs with
  | [] => None
  | x :: v => Some (foldr Rmin x v)
  end.
Definition max (xs : fseries) : option R :=
  match dropna xs with
  | [] => None
  | x :: v => Some (foldr Rmax x v)
  end.

(** [Series.sort_values()] of the non-null values. *)
Definition sort_values (v : list R) : list R := merge_sort Rle v.

(** [Series.median()]: the middle value of the sorted non-null values, the
    mean of the two middle values when their number is even, NaN when there
    is none. *)
Definition median (xs : fseries) : option R :=
  let s := sort_values (dropna xs) in
  let n := length s in
  if decide (n = 0)%nat then None
  else if Nat.even n then
    match s !! (n / 2 - 1)%nat, s !! (n / 2)%nat with
    | Some a, Some b => Some ((a + b) / 2)
    | _, _ => None
    end
  else s !! (n / 2)%nat.

(** The number of occurrences of [x] among the values [v]. *)
Definition occurrences (x : R) (v : list R) : nat :=
  length (filter (λ y, y = x) v).

(** The largest number of occurrences of a value of [v]. *)
Definition max_occurrences (v : list R) : nat :=
  foldr Nat.max 0%nat ((λ x, occurrences x v) <$> v).

(** [Series.mode()] ([dropna=True]): the most frequent non-null values,
    each once, in ascending order. *)
Definition mode (xs : fseries) : list R :=
  let v := dropna xs in
  sort_values
    (remove_dups (filter (λ x, occurrences x v = max_occurrences v) v)).

(** [Series.fillna(value)]: a NaN fill value leaves the nulls in place. *)
Definition fillna (value : option R) (xs : fseries) : fseries :=
  match value with
  | Some x => (λ o : option R, Some (default x o)) <$> xs
  | None => xs
  end.

(** [Series.clip(lower, upper)] with scalar bounds.  pandas drops a NaN
    bound, orders the two bounds when both are given, and leaves null cells
    null. *)
Definition clip_value (lower upper : option R) (x : R) : R :=
  match lower, upper with
  | Some lo, Some hi =>
      let lo' := Rmin lo hi in
      let hi' := Rmax lo hi in
      if Rltb x lo' then lo' else if Rgtb x hi' then hi' else x
  | Some lo, None => if Rltb x lo then lo else x
  | None, Some hi => if Rgtb x hi then hi else x
  | None, None => x
  end.
Definition clip (lower upper : option R) (xs : fseries) : fseries :=
  (λ o : option R, clip_value lower upper <$> o) <$> xs.

(** *** numpy and scipy on the raw array (NaN propagates) *)

(** [np.asanyarray(series)] as a list of numbers when no cell is NaN. *)
Definition all_values (xs : fseries) : option (list R) :=
  mapM (λ o : option R, o) xs.

(** [a.mean()] of scipy's [zscore]: NaN when a cell is NaN or the array is
    empty. *)
Definition np_mean (xs : fseries) : option R :=
  match all_values xs with
  | Some (x :: v) => Some (Rsum (x :: v) / INR (length (x :: v)))
  | _ => None
  end.

(** [a.std()] of scipy's [zscore], the population standard deviation
    ([ddof=0]). *)
Definition np_std (xs : fseries) : option R :=
  match all_values xs, np_mean xs with
  | Some v, Some m => Some (sqrt (sq_dev m v / INR (length v)))
  | _, _ => None
  end.

(** [scipy.stats.zscore(series)] with its defaults ([ddof=0],
    [nan_policy='propagate']): [(x - mean) / std] for every row; every score
    is NaN when the series holds a NaN, and when the standard deviation is
    zero (the division [0 / 0]). *)
Definition zscore (xs : fseries) : fseries :=
  match np_mean xs, np_std xs with
  | Some m, Some s =>
      if decide (s = 0) then (λ _ : option R, None) <$> xs
      else (λ o : option R, (λ x, (x - m) / s) <$> o) <$> xs
  | _, _ => (λ _ : option R, None) <$> xs
  end.

(** [np.abs]. *)
Definition np_abs (xs : fseries) : fseries :=
  (λ o : option R, Rabs <$> o) <$> xs.

(** [array > threshold]: a comparison with NaN is [False]. *)
Definition gt_scalar (threshold : R) (xs : fseries) : list bool :=
  (λ o : option R, match o with Some z => Rgtb z threshold | None => false end)
    <$> xs.

(** ** Data frames *)

(** A Python value held by a column of dtype [object]. *)
Inductive value :=
| VFloat (x : R)
| VBool (b : bool)
| VStr (s : string)
| VTime (t : Z).

(** A column with its dtype: float64 (NaN as [None]), bool, datetime64 (NaT
    as [None]) and object (a missing cell as [None]). *)
Inductive column :=
| Floats (xs : list (option R))
| Bools (bs : list bool)
| Datetimes (ts : list (option Z))
| Objects (vs : list (option value)).

(** A [pd.DataFrame]: the length of the index and the columns in order. *)
Record DataFrame := mkDataFrame {
  nrows : nat;
  columns : list (string * column)
}.

(** A dictionary with string keys that keeps the order of insertion, as
    the columns of a frame and a Python [dict] do. *)
Fixpoint assoc_get {V} (key : string) (l : list (string * V)) : option V :=
  match l with
  | [] => None
  | (k, v) :: rest => if String.eqb k key then Some v else assoc_get key rest
  end.

(** [d[key] = v]: replaces the value of a present key, appends a new key. *)
Fixpoint assoc_set {V} (key : string) (v : V) (l : list (string * V))
  : list (string * V) :=
  match l with
  | [] => [(key, v)]
  | (k, v0) :: rest =>
      if String.eqb k key then (k, v) :: rest
      else (k, v0) :: assoc_set key v rest
  end.

(** [df[name]] when [name in df.columns]. *)
Definition df_get (name : string) (d : DataFrame) : option column :=
  assoc_get name (columns d).

(** [df[name] = c]: replaces the column, or appends it as the last one. *)
Definition df_set (name : string) (c : column) (d : DataFrame) : DataFrame :=
  mkDataFrame (nrows d) (assoc_set name c (columns d)).

(** [list(df.select_dtypes(include=[np.number]).columns)]. *)
Definition numeric_columns (d : DataFrame) : list string :=
  omap (λ nc : string * column,
          match nc.2 with Floats _ => Some nc.1 | _ => None end) (columns d).

(** [series.isna().sum()] for a column of any dtype. *)
Definition col_count_na (c : column) : nat :=
  match c with
  | Floats xs => count_na xs
  | Bools _ => 0
  | Datetimes ts => length (filter (λ o : option Z, o = None) ts)
  | Objects vs => length (filter (λ o : option value, o = None) vs)
  end.

(** ** Exceptions and the state of an object *)

Inductive exn := ValueError | TypeError | KeyError | FileNotFoundError.

Inductive result (A : Type) :=
| Ok (a : A)
| Raise (e : exn).
Arguments Ok {A} a.
Arguments Raise {A} e.

(** A method of an object with state [S]: it returns or raises, and leaves
    the object in a new state in both cases. *)
Definition M (S A : Type) : Type := S → result A * S.

Definition ret {S A} (a : A) : M S A := λ s, (Ok a, s).
Definition raise {S A} (e : exn) : M S A := λ s, (Raise e, s).
Definition bind {S A B} (m : M S A) (k : A → M S B) : M S B :=
  λ s, match m s with
       | (Ok a, s') => k a s'
       | (Raise e, s') => (Raise e, s')
       end.
Definition get {S} : M S S := λ s, (Ok s, s).
Definition modify {S} (f : S → S) : M S unit := λ s, (Ok tt, f s).
Definition lift {S A} (r : result A) : M S A := λ s, (r, s).

Declare Scope M_scope.
Delimit Scope M_scope with M.
Notation "x ←' m ;; k" := (bind m (λ x, k))
  (at level 100, m at next level, right associativity) : M_scope.
Notation "m ;;' k" := (bind m (λ _, k))
  (at level 100, right associativity) : M_scope.

(** [for a in l: b = body(a, b)], where [b] stands for the local variables
    the loop updates. *)
Fixpoint for_each {S A B} (body : A → B → M S B) (l : list A) (b : B) : M S B :=
  match l with
  | [] => ret b
  | a :: l' => bind (body a b) (for_each body l')
  end.

(** The same loop when its body touches no attribute of the object. *)
Fixpoint iterate {A B} (f : A → B → result B) (l : list A) (b : B) : result B :=
  match l with
  | [] => Ok b
  | a :: l' => match f a b with
               | Ok b' => iterate f l' b'
               | Raise e => Raise e
               end
  end.

(** ** [SolarDataCleaner] *)

(** An entry of [self.outlier_flags]. *)
Record outlier_stat := mkOutlierStat {
  count : nat;
  percentage : option R
}.

(** The dictionary [detect_missing_values] returns. *)
Record missing_stats := mkMissingStats {
  total_missing : nat;
  missing_by_column : list (string * nat);
  missing_percentage : list (string * option R);
  high_missing_columns : list (string * option R)
}.

(** [self.cleaning_stats].  The value under ['outliers'] is the dictionary
    [self.outlier_flags] itself, so only the presence of the key is kept. *)
Record cleaning_report := mkReport {
  missing_values : option missing_stats;
  outliers : bool;
  total_outliers : option nat
}.

Record SolarDataCleaner := mkCleaner {
  df : DataFrame;
  df_cleaned : option DataFrame;
  outlier_flags : gmap string outlier_stat;
  cleaning_stats : cleaning_report
}.

Definition set_df (d : DataFrame) (self : SolarDataCleaner) : SolarDataCleaner :=
  mkCleaner d (df_cleaned self) (outlier_flags self) (cleaning_stats self).
Definition set_df_cleaned (d : DataFrame) (self : SolarDataCleaner) : SolarDataCleaner :=
  mkCleaner (df self) (Some d) (outlier_flags self) (cleaning_stats self).
Definition set_outlier_flag (col : string) (st : outlier_stat)
    (self : SolarDataCleaner) : SolarDataCleaner :=
  mkCleaner (df self) (df_cleaned self) (<[col := st]> (outlier_flags self))
    (cleaning_stats self).
Definition set_cleaning_stats (r : cleaning_report) (self : SolarDataCleaner)
  : SolarDataCleaner :=
  mkCleaner (df self) (df_cleaned self) (outlier_flags self) r.

(** [SolarDataCleaner(df)]: the cleaner works on its own copy. *)
Definition init (d : DataFrame) : SolarDataCleaner :=
  mkCleaner d None ∅ (mkReport None false None).

(** [count / total * 100], NaN when [total] is zero. *)
Definition percent (n total : nat) : option R :=
  if decide (total = 0)%nat then None else Some (INR n / INR total * 100).

(** [pct > bound] on a float: a comparison with NaN is [False]. *)
Definition exceeds (bound : R) (pct : option R) : bool :=
  match pct with
  | Some p => Rgtb p bound
  | None => false
  end.

(** The body of [detect_missing_values] on the frame [self.df]. *)
Definition missing_statistics (threshold : R) (d : DataFrame) : missing_stats :=
  let missing := (λ nc : string * column, (nc.1, col_count_na nc.2))
                   <$> columns d in
  let missing_pct := (λ nm : string * nat, (nm.1, percent nm.2 (nrows d)))
                       <$> missing in
  let high_missing :=
    filter (λ np : string * option R, exceeds (threshold * 100) np.2 = true)
      missing_pct in
  mkMissingStats (foldr Nat.add 0%nat (snd <$> missing))
    missing missing_pct high_missing.

Definition detect_missing_values (threshold : R) : M SolarDataCleaner missing_stats :=
  (self ←' get ;; ret (missing_statistics threshold (df self)))%M.

(** The statistics below are those of float columns; a column of another
    dtype given to them is outside the model and is rendered as [TypeError]. *)
Definition as_floats (c : column) : result (list (option R)) :=
  match c with
  | Floats xs => Ok xs
  | _ => Raise TypeError
  end.

(** The branch on [method] of [impute_missing_values]. *)
Definition fill_value (method : string) (c : column) : result (option R) :=
  if String.eqb method "median" then
    match as_floats c with Ok xs => Ok (median xs) | Raise e => Raise e end
  else if String.eqb method "mean" then
    match as_floats c with Ok xs => Ok (mean xs) | Raise e => Raise e end
  else if String.eqb method "mode" then
    match as_floats c with
    | Ok xs => Ok (Some (match mode xs with x :: _ => x | [] => 0 end))
    | Raise e => Raise e
    end
  else Raise ValueError.

(** [df_imputed[col].fillna(fill_value, inplace=True)]: the column of the
    frame is changed in place, as the repository's test of the imputation
    expects (pandas without copy-on-write). *)
Definition fillna_column (v : option R) (c : column) : column :=
  match c with
  | Floats xs => Floats (fillna v xs)
  | _ => c
  end.

(** One turn of the loop of [impute_missing_values] on [df_imputed]. *)
Definition impute_column (method col : string) (df_imputed : DataFrame)
  : result DataFrame :=
  match df_get col df_imputed with
  | None => Ok df_imputed
  | Some c =>
      match fill_value method c with
      | Raise e => Raise e
      | Ok v => Ok (df_set col (fillna_column v c) df_imputed)
      end
  end.

Definition impute_missing_values (cols : option (list string)) (method : string)
  : M SolarDataCleaner DataFrame :=
  (self ←' get ;;
   let cols := match cols with
               | None => numeric_columns (df self)
               | Some cs => cs
               end in
   df_imputed ←' for_each (λ col d, lift (impute_column method col d)) cols (df self) ;;
   modify (set_df df_imputed) ;;'
   ret df_imputed)%M.

(** [df.loc[mask, name] = True] on a boolean column. *)
Fixpoint or_mask (bs mask : list bool) : list bool :=
  match bs, mask with
  | b :: bs', m :: mask' => (b || m) :: or_mask bs' mask'
  | _, _ => bs
  end.
Definition loc_set_true (mask : list bool) (name : string) (d : DataFrame) : DataFrame :=
  match df_get name d with
  | Some (Bools bs) => df_set name (Bools (or_mask bs mask)) d
  | _ => d
  end.

(** The mask [np.abs(stats.zscore(series)) > z_threshold]. *)
Definition outlier_mask (z_threshold : R) (xs : list (option R)) : list bool :=
  gt_scalar z_threshold (np_abs (zscore xs)).

(** [mask.sum()]. *)
Definition mask_sum (mask : list bool) : nat := length (filter (λ b : bool, b = true) mask).

(** One turn of the loop of [detect_outliers] on [df_with_flags].  The
    scores [z_scores] of the non-null values are computed and not used, as in
    the source; the mask comes from the scores of the whole column. *)
Definition detect_column (z_threshold : R) (col : string) (df_with_flags : DataFrame)
  : M SolarDataCleaner DataFrame :=
  match df_get col df_with_flags with
  | None => ret df_with_flags
  | Some c =>
      (xs ←' lift (as_floats c) ;;
       let z_scores := np_abs (zscore (Some <$> dropna xs)) in
       let mask := outlier_mask z_threshold xs in
       let df_with_flags := loc_set_true mask "Outlier_Flag" df_with_flags in
       let num_outliers := mask_sum mask in
       modify (set_outlier_flag col
                 (mkOutlierStat num_outliers
                    (percent num_outliers (nrows df_with_flags)))) ;;'
       ret df_with_flags)%M
  end.

Definition detect_outliers (cols : list string) (z_threshold : R)
  : M SolarDataCleaner DataFrame :=
  (self ←' get ;;
   let df_with_flags :=
     df_set "Outlier_Flag" (Bools (replicate (nrows (df self)) false)) (df self) in
   df_with_flags ←' for_each (detect_column z_threshold) cols df_with_flags ;;
   modify (set_df df_with_flags) ;;'
   ret df_with_flags)%M.

(** [mean - z_threshold * std] and [mean + z_threshold * std]; NaN when the
    mean or the standard deviation is. *)
Definition lower_bound (z_threshold : R) (xs : list (option R)) : option R :=
  match mean xs, std xs with
  | Some m, Some s => Some (m - z_threshold * s)
  | _, _ => None
  end.
Definition upper_bound (z_threshold : R) (xs : list (option R)) : option R :=
  match mean xs, std xs with
  | Some m, Some s => Some (m + z_threshold * s)
  | _, _ => None
  end.

(** One turn of the loop of [cap_outliers] on [df_capped]. *)
Definition cap_column (z_threshold : R) (col : string) (df_capped : DataFrame)
  : result DataFrame :=
  match df_get col df_capped with
  | None => Ok df_capped
  | Some c =>
      match as_floats c with
      | Raise e => Raise e
      | Ok xs =>
          Ok (df_set col
                (Floats (clip (lower_bound z_threshold xs)
                           (upper_bound z_threshold xs) xs)) df_capped)
      end
  end.

Definition cap_outliers (cols : list string) (z_threshold : R)
  : M SolarDataCleaner DataFrame :=
  (self ←' get ;;
   df_capped ←' for_each (λ col d, lift (cap_column z_threshold col d)) cols (df self) ;;
   modify (set_df_cleaned df_capped) ;;'
   ret df_capped)%M.

(** [int(self.df['Outlier_Flag'].sum()) if 'Outlier_Flag' in self.df.columns
    else 0]. *)
Definition flag_total (d : DataFrame) : result nat :=
  match df_get "Outlier_Flag" d with
  | None => Ok 0%nat
  | Some (Bools bs) => Ok (mask_sum bs)
  | Some _ => Raise TypeError
  end.

Definition clean (numeric_cols outlier_cols : option (list string))
    (imputation_method : string) (z_threshold : R)
  : M SolarDataCleaner DataFrame :=
  (missing ←' detect_missing_values (5 / 100) ;;
   modify (λ self, set_cleaning_stats
             (mkReport (Some missing) (outliers (cleaning_stats self))
                (total_outliers (cleaning_stats self))) self) ;;'
   self ←' get ;;
   let numeric_cols := match numeric_cols with
                       | None => numeric_columns (df self)
                       | Some cs => cs
                       end in
   impute_missing_values (Some numeric_cols) imputation_method ;;'
   let outlier_cols := match outlier_cols with
                       | None => numeric_cols
                       | Some cs => cs
                       end in
   detect_outliers outlier_cols z_threshold ;;'
   cap_outliers outlier_cols z_threshold ;;'
   self ←' get ;;
   total ←' lift (flag_total (df self)) ;;
   modify (λ self, set_cleaning_stats
             (mkReport (missing_values (cleaning_stats self)) true (Some total)) self) ;;'
   self ←' get ;;
   ret (match df_cleaned self with Some d => d | None => df self end))%M.

Definition get_cleaning_report : M SolarDataCleaner cleaning_report :=
  (self ←' get ;; ret (cleaning_stats self))%M.

(** [clean_solar_data(df, ...)]: the cleaned frame and the report. *)
Definition clean_solar_data (d : DataFrame) (numeric_cols outlier_cols : option (list string))
    (imputation_method : string) (z_threshold : R)
  : result (DataFrame * cleaning_report) :=
  fst ((df_cleaned ←' clean numeric_cols outlier_cols imputation_method z_threshold ;;
        report ←' get_cleaning_report ;;
        ret (df_cleaned, report))%M (init d)).

(** ** [CrossCountrySynthesizer] *)

#[global] Instance value_eq_dec : EqDecision value.
Proof. solve_decision. Defined.

(** [pd.unique]: each element once, in order of first appearance. *)
Fixpoint unique {A} `{EqDecision A} (l : list A) : list A :=
  match l with
  | [] => []
  | x :: l' => x :: filter (λ y, y ≠ x) (unique l')
  end.

(** The cells of a column as Python objects. *)
Definition to_object_cells (c : column) : list (option value) :=
  match c with
  | Floats xs => (λ o : option R, VFloat <$> o) <$> xs
  | Bools bs => (λ b : bool, Some (VBool b)) <$> bs
  | Datetimes ts => (λ o : option Z, VTime <$> o) <$> ts
  | Objects vs => vs
  end.

(** The part a frame of [n] rows contributes to a concatenated column: its
    own column, or [n] missing cells. *)
Definition floats_piece (p : nat * option column) : option (list (option R)) :=
  match p with
  | (n, None) => Some (replicate n None)
  | (_, Some (Floats xs)) => Some xs
  | _ => None
  end.
Definition bools_piece (p : nat * option column) : option (list bool) :=
  match p with
  | (_, Some (Bools bs)) => Some bs
  | _ => None
  end.
Definition datetimes_piece (p : nat * option column) : option (list (option Z)) :=
  match p with
  | (n, None) => Some (replicate n None)
  | (_, Some (Datetimes ts)) => Some ts
  | _ => None
  end.
Definition objects_piece (p : nat * option column) : list (option value) :=
  match p with
  | (n, None) => replicate n None
  | (_, Some c) => to_object_cells c
  end.

(** The column of a concatenation: the common dtype of the parts when there
    is one, dtype [object] otherwise. *)
Definition concat_column (pieces : list (nat * option column)) : column :=
  match mapM floats_piece pieces with
  | Some l => Floats (mjoin l)
  | None =>
      match mapM bools_piece pieces with
      | Some l => Bools (mjoin l)
      | None =>
          match mapM datetimes_piece pieces with
          | Some l => Datetimes (mjoin l)
          | None => Objects (mjoin (objects_piece <$> pieces))
          end
      end
  end.

(** [pd.concat(dataframes, ignore_index=True)]: the rows of the frames one
    after the other under the union of their columns; [ValueError] when there
    is no frame. *)
Definition concat (dataframes : list DataFrame) : result DataFrame :=
  match dataframes with
  | [] => Raise ValueError
  | _ =>
      let names := unique (mjoin ((λ d, fst <$> columns d) <$> dataframes)) in
      Ok (mkDataFrame
            (foldr Nat.add 0%nat (nrows <$> dataframes))
            ((λ name, (name, concat_column
                               ((λ d, (nrows d, df_get name d)) <$> dataframes)))
               <$> names))
  end.

(** [series[mask]]: the cells of the rows where the mask holds. *)
Fixpoint select {A} (mask : list bool) (l : list A) : list A :=
  match mask, l with
  | m :: mask', x :: l' => if m then x :: select mask' l' else select mask' l'
  | _, _ => []
  end.
Definition select_column (mask : list bool) (c : column) : column :=
  match c with
  | Floats xs => Floats (select mask xs)
  | Bools bs => Bools (select mask bs)
  | Datetimes ts => Datetimes (select mask ts)
  | Objects vs => Objects (select mask vs)
  end.

(** [df[mask]]. *)
Definition select_rows (mask : list bool) (d : DataFrame) : DataFrame :=
  mkDataFrame (mask_sum (take (nrows d) mask))
    ((λ nc : string * column, (nc.1, select_column mask nc.2)) <$> columns d).

(** [series == country]: a missing cell equals nothing. *)
Definition eq_scalar (country : option value) (vs : list (option value)) : list bool :=
  (λ o : option value,
     match o, country with
     | Some a, Some b => bool_decide (a = b)
     | _, _ => false
     end) <$> vs.

(** A dictionary of [summary_stats]: the country and the statistics under
    their keys. *)
Record summary_row := mkSummaryRow {
  Country : option value;
  stats : list (string * option R)
}.

Record CrossCountrySynthesizer := mkSynthesizer {
  data_dir : string;
  countries_data : gmap string DataFrame;
  combined_data : option DataFrame
}.

Definition new_synthesizer (dir : string) : CrossCountrySynthesizer :=
  mkSynthesizer dir ∅ None.

(** The inner loop of [get_summary_statistics] for one column. *)
Definition summarize_column (country_df : DataFrame) (col : string)
    (st : list (string * option R)) : result (list (string * option R)) :=
  match df_get col country_df with
  | None => Ok st
  | Some c =>
      match as_floats c with
      | Raise e => Raise e
      | Ok xs =>
          Ok (assoc_set (col +:+ "_max") (max xs)
             (assoc_set (col +:+ "_min") (min xs)
             (assoc_set (col +:+ "_std") (std xs)
             (assoc_set (col +:+ "_median") (median xs)
             (assoc_set (col +:+ "_mean") (mean xs) st)))))
      end
  end.

(** The body of the loop over the countries. *)
Definition summarize_country (combined : DataFrame) (tags : list (option value))
    (cols : list string) (country : option value)
    (summary_stats : list summary_row)
  : M CrossCountrySynthesizer (list summary_row) :=
  let country_df := select_rows (eq_scalar country tags) combined in
  (st ←' for_each (λ col st, lift (summarize_column country_df col st)) cols [] ;;
   ret (summary_stats ++ [mkSummaryRow country st]))%M.

(** [get_summary_statistics(columns)]: the rows of the returned frame, one
    per dictionary of [summary_stats] and in its order. *)
Definition get_summary_statistics (cols : list string)
  : M CrossCountrySynthesizer (list summary_row) :=
  (self ←' get ;;
   match combined_data self with
   | None => raise ValueError
   | Some combined =>
       match df_get "Country" combined with
       | None => raise KeyError
       | Some c =>
           let tags := to_object_cells c in
           for_each (summarize_country combined tags cols) (unique tags) []
       end
   end)%M.

Section Files.

(** The file system as [pd.read_csv] sees it: the frame a path parses to,
    [None] for a path that does not exist. *)
Variable read_csv : string → option DataFrame.

(** [pd.to_datetime(series)]: the parsed column, [None] when a cell does
    not parse ([ValueError]). *)
Variable to_datetime : column → option column.

Definition load_country_data (country_name file_path : string)
  : M CrossCountrySynthesizer DataFrame :=
  match read_csv file_path with
  | None => raise FileNotFoundError
  | Some d =>
      let d := df_set "Country"
                 (Objects (replicate (nrows d) (Some (VStr country_name)))) d in
      (d ←' match df_get "Timestamp" d with
            | None => ret d
            | Some c =>
                match to_datetime c with
                | None => raise ValueError
                | Some c' => ret (df_set "Timestamp" c' d)
                end
            end ;;
       modify (λ self, mkSynthesizer (data_dir self)
                         (<[country_name := d]> (countries_data self))
                         (combined_data self)) ;;'
       ret d)%M
  end.

(** [file_mapping] is a [dict]; its items come in insertion order. *)
Definition aggregate_all_countries (file_mapping : list (string * string))
  : M CrossCountrySynthesizer DataFrame :=
  (dataframes ←' for_each
                   (λ (item : string * string) dataframes,
                      d ←' load_country_data item.1 item.2 ;;
                      ret (dataframes ++ [d]))
                   file_mapping [] ;;
   combined ←' lift (concat dataframes) ;;
   modify (λ self, mkSynthesizer (data_dir self) (countries_data self)
                     (Some combined)) ;;'
   ret combined)%M.

End Files.

(** ** The cleaner with its frames held by reference

    A [pd.DataFrame] is a mutable object: [df.copy()] makes a new one, while
    [fillna(inplace=True)], [df.loc[...] = ...] and [df[col] = ...] change the
    object they are applied to.  Here the frames live in a store and the
    cleaner's attributes [df] and [df_cleaned] are references into it; the
    methods are those of [SolarDataCleaner] above, statement by statement. *)
Module Heap.

Definition loc := positive.

#[global] Instance DataFrame_inhabited : Inhabited DataFrame :=
  populate (mkDataFrame 0 []).

(** The attributes of a [SolarDataCleaner] instance. *)
Record object := mkObject {
  df_ref : loc;
  df_cleaned_ref : option loc;
  flags : gmap string outlier_stat;
  report : cleaning_report
}.

(** The frames that exist, and the cleaner [self]. *)
Record state := mkState {
  frames : gmap loc DataFrame;
  this : object
}.

(** [df.copy()]: a new frame with the same content. *)
Definition copy (l : loc) : M state loc :=
  λ s, let l' := fresh (dom (frames s)) in
       (Ok l', mkState (<[l' := frames s !!! l]> (frames s)) (this s)).

(** The content of the frame [l]. *)
Definition read (l : loc) : M state DataFrame :=
  λ s, (Ok (frames s !!! l), s).

(** A statement that changes the frame [l] in place, or raises before
    changing it. *)
Definition update (l : loc) (f : DataFrame → result DataFrame) : M state unit :=
  λ s, match f (frames s !!! l) with
       | Ok d => (Ok tt, mkState (<[l := d]> (frames s)) (this s))
       | Raise e => (Raise e, s)
       end.

Definition set_this (f : object → object) : M state unit :=
  λ s, (Ok tt, mkState (frames s) (f (this s))).

(** [SolarDataCleaner(df)] for the caller's frame [d]. *)
Definition init (d : loc) (σ : gmap loc DataFrame) : state :=
  let l := fresh (dom σ) in
  mkState (<[l := σ !!! d]> σ) (mkObject l None ∅ (mkReport None false None)).

Definition detect_missing_values (threshold : R) : M state missing_stats :=
  (s ←' get ;;
   d ←' read (df_ref (this s)) ;;
   ret (missing_statistics threshold d))%M.

Definition impute_missing_values (cols : option (list string)) (method : string)
  : M state loc :=
  (s ←' get ;;
   d ←' read (df_ref (this s)) ;;
   let cols := match cols with
               | None => numeric_columns d
               | Some cs => cs
               end in
   df_imputed ←' copy (df_ref (this s)) ;;
   for_each (λ col _, update df_imputed (impute_column method col)) cols tt ;;'
   set_this (λ o, mkObject df_imputed (df_cleaned_ref o) (flags o) (report o)) ;;'
   ret df_imputed)%M.

(** One turn of the loop of [detect_outliers] on the frame [df_with_flags]. *)
Definition detect_column (z_threshold : R) (df_with_flags : loc) (col : string)
  : M state unit :=
  (d ←' read df_with_flags ;;
   match df_get col d with
   | None => ret tt
   | Some c =>
       xs ←' lift (as_floats c) ;;
       let z_scores := np_abs (zscore (Some <$> dropna xs)) in
       let mask := outlier_mask z_threshold xs in
       update df_with_flags (λ d, Ok (loc_set_true mask "Outlier_Flag" d)) ;;'
       let num_outliers := mask_sum mask in
       set_this (λ o, mkObject (df_ref o) (df_cleaned_ref o)
                        (<[col := mkOutlierStat num_outliers
                                    (percent num_outliers (nrows d))]> (flags o))
                        (report o))
   end)%M.

Definition detect_outliers (cols : list string) (z_threshold : R) : M state loc :=
  (s ←' get ;;
   df_with_flags ←' copy (df_ref (this s)) ;;
   update df_with_flags
     (λ d, Ok (df_set "Outlier_Flag" (Bools (replicate (nrows d) false)) d)) ;;'
   for_each (λ col _, detect_column z_threshold df_with_flags col) cols tt ;;'
   set_this (λ o, mkObject df_with_flags (df_cleaned_ref o) (flags o) (report o)) ;;'
   ret df_with_flags)%M.

Definition cap_outliers (cols : list string) (z_threshold : R) : M state loc :=
  (s ←' get ;;
   df_capped ←' copy (df_ref (this s)) ;;
   for_each (λ col _, update df_capped (cap_column z_threshold col)) cols tt ;;'
   set_this (λ o, mkObject (df_ref o) (Some df_capped) (flags o) (report o)) ;;'
   ret df_capped)%M.

Definition clean (numeric_cols outlier_cols : option (list string))
    (imputation_method : string) (z_threshold : R) : M state loc :=
  (missing ←' detect_missing_values (5 / 100) ;;
   set_this (λ o, mkObject (df_ref o) (df_cleaned_ref o) (flags o)
                    (mkReport (Some missing) (outliers (report o))
                       (total_outliers (report o)))) ;;'
   s ←' get ;;
   d ←' read (df_ref (this s)) ;;
   let numeric_cols := match numeric_cols with
                       | None => numeric_columns d
                       | Some cs => cs
                       end in
   impute_missing_values (Some numeric_cols) imputation_method ;;'
   let outlier_cols := match outlier_cols with
                       | None => numeric_cols
                       | Some cs => cs
                       end in
   detect_outliers outlier_cols z_threshold ;;'
   cap_outliers outlier_cols z_threshold ;;'
   s ←' get ;;
   d ←' read (df_ref (this s)) ;;
   total ←' lift (flag_total d) ;;
   set_this (λ o, mkObject (df_ref o) (df_cleaned_ref o) (flags o)
                    (mkReport (missing_values (report o)) true (Some total))) ;;'
   s ←' get ;;
   ret (match df_cleaned_ref (this s) with
        | Some l => l
        | None => df_ref (this s)
        end))%M.

(** A call of a method of the cleaner by its user. *)
Inductive call :=
| DetectMissingValues (threshold : R)
| ImputeMissingValues (cols : option (list string)) (method : string)
| DetectOutliers (cols : list string) (z_threshold : R)
| CapOutliers (cols : list string) (z_threshold : R)
| Clean (numeric_cols outlier_cols : option (list string))
    (imputation_method : string) (z_threshold : R).

(** The state a call leaves, whether it returns or raises. *)
Definition run_call (c : call) (s : state) : state :=
  match c with
  | DetectMissingValues threshold => (detect_missing_values threshold s).2
  | ImputeMissingValues cols method => (impute_missing_values cols method s).2
  | DetectOutliers cols z => (detect_outliers cols z s).2
  | CapOutliers cols z => (cap_outliers cols z s).2
  | Clean ncols ocols method z => (clean ncols ocols method z s).2
  end.

(** A sequence of calls; a caller that stops at the first exception has run
    a prefix of it. *)
Definition run_calls (cs : list call) (s : state) : state :=
  foldl (λ s c, run_call c s) s cs.

End Heap.

(** ** The specification's reading, for comparison with the code *)

(** The specification's mode: among the most frequent non-null values, the
    one met first in row order. *)
Definition first_encountered_mode (xs : list (option R)) : option R :=
  let v := dropna xs in
  head (filter (λ x, occurrences x v = max_occurrences v) v).

(** The specification's outlier mask: the population Z-score of a row is
    taken with the mean and the standard deviation of the non-null values of
    the column; a row is flagged when the absolute score exceeds the
    threshold. *)
Definition spec_outlier_mask (z_threshold : R) (xs : list (option R)) : list bool :=
  let v : list (option R) := Some <$> dropna xs in
  match np_mean v, np_std v with
  | Some m, Some s =>
      (λ o : option R,
         match o with
         | Some x => bool_decide (s ≠ 0 ∧ z_threshold < Rabs ((x - m) / s))
         | None => false
         end) <$> xs
  | _, _ => (λ _ : option R, false) <$> xs
  end.

(** An aggregated table of two sites with one row each: site A with GHI 1,
    then site B with GHI 2. *)
Definition two_sites : DataFrame :=
  mkDataFrame 2
    [("Country"%string, Objects [Some (VStr "A"); Some (VStr "B")]);
     ("GHI"%string, Floats [Some 1; Some 2])].

(** ** What the loops of the cleaner compute *)

(** The named columns are float columns of the frame (or absent from it),
    and none of them is the flag column. *)
Definition float_columns (cols : list string) (d : DataFrame) : Prop :=
  Forall (λ col : string,
            col ≠ "Outlier_Flag"%string ∧
            ∀ c, df_get col d = Some c → ∃ xs, c = Floats xs) cols.

(** The named columns are float columns of the frame, or absent from it. *)
Definition all_floats (cols : list string) (d : DataFrame) : Prop :=
  Forall (λ col : string, ∀ c, df_get col d = Some c → ∃ xs, c = Floats xs) cols.

(** The imputation methods the cleaner knows. *)
Definition valid_method (method : string) : Prop :=
  method = "median"%string ∨ method = "mean"%string ∨ method = "mode"%string.

(** Every column of [d'] is a float column or a column of [d]. *)
Definition floats_or_same (d d' : DataFrame) : Prop :=
  nrows d' = nrows d ∧
  ∀ name c', df_get name d' = Some c' →
             (∃ ys, c' = Floats ys) ∨ df_get name d = Some c'.

(** The mask a column contributes in [detect_outliers]. *)
Definition column_mask (z_threshold : R) (d : DataFrame) (col : string)
  : option (list bool) :=
  match df_get col d with
  | Some (Floats xs) => Some (outlier_mask z_threshold xs)
  | _ => None
  end.

(** The entries [detect_outliers] writes to [self.outlier_flags]. *)
Definition record_flags (z_threshold : R) (d : DataFrame) (cols : list string)
    (fl : gmap string outlier_stat) : gmap string outlier_stat :=
  foldl (λ fl col,
           match column_mask z_threshold d col with
           | Some mask =>
               <[col := mkOutlierStat (mask_sum mask)
                          (percent (mask_sum mask) (nrows d))]> fl
           | None => fl
           end) fl cols.

(** ** Inputs used in the evaluations below *)

(** A column of sixteen zeros, one value of 17, and one null. *)
Definition dni_with_null : list (option R) :=
  replicate 16 (Some 0) ++ [Some 17; None].

(** ** What the loops of the synthesizer compute *)

(** The file parses and its [Timestamp] column, when it has one, converts. *)
Definition loads (to_datetime : column → option column) (d : DataFrame) : Prop :=
  ∀ c, df_get "Timestamp" d = Some c → is_Some (to_datetime c).

(** The frame [load_country_data] returns for the parsed file [d]. *)
Definition loaded_frame (to_datetime : column → option column)
    (country_name : string) (d : DataFrame) : DataFrame :=
  let d := df_set "Country"
             (Objects (replicate (nrows d) (Some (VStr country_name)))) d in
  match df_get "Timestamp" d with
  | None => d
  | Some c =>
      match to_datetime c with
      | Some c' => df_set "Timestamp" c' d
      | None => d
      end
  end.

(** The frames of the files of a mapping that exist. *)
Definition loaded_frames (read_csv : string → option DataFrame)
    (to_datetime : column → option column) (file_mapping : list (string * string))
  : list DataFrame :=
  omap (λ item : string * string,
          loaded_frame to_datetime item.1 <$> read_csv item.2) file_mapping.

(** The number of rows of the file at a path. *)
Definition file_rows (read_csv : string → option DataFrame) (path : string) : nat :=
  match read_csv path with
  | Some d => nrows d
  | None => 0
  end.

(** The site tags of an aggregation: for each file in turn, its site name
    once per row. *)
Definition site_tags (read_csv : string → option DataFrame)
    (file_mapping : list (string * string)) : list (option value) :=
  mjoin ((λ item : string * string,
            replicate (file_rows read_csv item.2) (Some (VStr item.1)))
           <$> file_mapping).

(** The loop of [aggregate_all_countries], from the list [dataframes]
    gathered so far. *)
Definition load_loop (read_csv : string → option DataFrame)
    (to_datetime : column → option column)
    (file_mapping : list (string * string)) (dataframes : list DataFrame)
  : M CrossCountrySynthesizer (list DataFrame) :=
  for_each
    (λ (item : string * string) dataframes,
       bind (load_country_data read_csv to_datetime item.1 item.2)
         (λ d, ret (dataframes ++ [d])))
    file_mapping dataframes.

(** The cells of the column [Country] of a frame. *)
Definition country_cells (d : DataFrame) : list (option value) :=
  match df_get "Country" d with
  | Some c => to_object_cells c
  | None => []
  end.

(** The suffixes of the keys of a summary row, with the statistic stored
    under each. *)
Definition summary_statistics : list (string * (list (option R) → option R)) :=
  [("_mean"%string, mean); ("_median"%string, median); ("_std"%string, std);
   ("_min"%string, min); ("_max"%string, max)].

(** Every entry of a summary dictionary under a key [col ++ suffix] holds
    the statistic of that suffix of the column [col] of the frame. *)
Definition stats_sound (country_df : DataFrame) (st : list (string * option R)) : Prop :=
  ∀ col sfx f v,
    (sfx, f) ∈ summary_statistics →
    assoc_get (col +:+ sfx) st = Some v →
    ∃ xs, df_get col country_df = Some (Floats xs) ∧ v = f xs.

(** The specification's order of the summary rows: descending mean under
    [key], and alphabetical site name among equal means. *)
Definition ordered_by_mean (key : string) (rows : list summary_row) : Prop :=
  ∀ i j r1 r2 m1 m2,
    (i < j)%nat → rows !! i = Some r1 → rows !! j = Some r2 →
    assoc_get key (stats r1) = Some (Some m1) →
    assoc_get key (stats r2) = Some (Some m2) →
    m2 < m1 ∨
    (m2 = m1 ∧
     ∀ a b, Country r1 = Some (VStr a) → Country r2 = Some (VStr b) →
            String.leb a b = true).

(** ** Which frames a method of the cleaner changes *)

(** The run of a method changes no frame other than [l]. *)
Definition touches_only {A} (l : Heap.loc) (m : M Heap.state A) : Prop :=
  ∀ s l0, l0 ≠ l → Heap.frames (m s).2 !! l0 = Heap.frames s !! l0.

(** The run of a method leaves every frame that exists as it is; it may add
    frames. *)
Definition growing {A} (m : M Heap.state A) : Prop :=
  ∀ s, Heap.frames s ⊆ Heap.frames (m s).2.

(** When the method returns, it returns [c]. *)
Definition returns {S A} (c : A) (m : M S A) : Prop :=
  ∀ s r, (m s).1 = Ok r → r = c.

(** ** The cleaner on values and the cleaner on the store *)

(** The cleaner a state of the store stands for: its references replaced by
    the frames they point to. *)
Definition view (s : Heap.state) : SolarDataCleaner :=
  mkCleaner (Heap.frames s !!! Heap.df_ref (Heap.this s))
    ((λ l, Heap.frames s !!! l) <$> Heap.df_cleaned_ref (Heap.this s))
    (Heap.flags (Heap.this s)) (Heap.report (Heap.this s)).

(** The references of the cleaner point to frames that exist. *)
Definition valid (s : Heap.state) : Prop :=
  Heap.df_ref (Heap.this s) ∈ dom (Heap.frames s) ∧
  ∀ l, Heap.df_cleaned_ref (Heap.this s) = Some l → l ∈ dom (Heap.frames s).

(** The result of a method on the store, with a returned reference replaced
    by the frame it points to. *)
Definition deref (out : result Heap.loc * Heap.state) : result DataFrame :=
  match out.1 with
  | Ok l => Ok (Heap.frames out.2 !!! l)
  | Raise e => Raise e
  end.

(** The local variable of a loop when the loop ends or raises. *)
Fixpoint iterate_last {A B} (f : A → B → result B) (l : list A) (b : B) : B :=
  match l with
  | [] => b
  | a :: l' => match f a b with
               | Ok b' => iterate_last f l' b'
               | Raise _ => b
               end
  end.

(** ** [SolarDataExporter] *)

(** [name in df.columns]. *)
Definition has_column (name : string) (d : DataFrame) : bool :=
  match df_get name d with
  | Some _ => true
  | None => false
  end.

(** [df.drop(columns=labels)]: the frame without the columns of a listed
    name; [KeyError] when a label is not the name of a column. *)
Definition drop (labels : list string) (d : DataFrame) : result DataFrame :=
  if forallb (λ label, has_column label d) labels then
    Ok (mkDataFrame (nrows d)
          (filter (λ nc : string * column, nc.1 ∉ labels) (columns d)))
  else Raise KeyError.

(** What [df.to_csv(path, index=index)] writes: the table, with or without
    its row index.  The text of the file is not modelled. *)
Record csv_file := mkCsv {
  with_index : bool;
  table : DataFrame
}.

Module Exporter.

Record SolarDataExporter := mkExporter {
  df : DataFrame
}.

(** The exporter [self] and the files written so far.  Directories are not
    modelled: creating the parents of a path and writing a file succeed. *)
Record state := mkState {
  this : SolarDataExporter;
  files : gmap string csv_file
}.

(** [SolarDataExporter(df)]: the exporter holds its own copy of the frame. *)
Definition init (d : DataFrame) (fs : gmap string csv_file) : state :=
  mkState (mkExporter d) fs.

(** The default of [temp_columns]. *)
Definition default_temp_columns : list string :=
  ["Hour"; "Month"; "Day"; "WD_bin"; "Outlier_Flag"]%string.

Definition remove_temp_columns (temp_columns : option (list string))
  : M state DataFrame :=
  (let temp_columns := match temp_columns with
                       | None => default_temp_columns
                       | Some cs => cs
                       end in
   s ←' get ;;
   let columns_to_remove :=
     filter (λ col, has_column col (df (this s)) = true) temp_columns in
   d ←' lift (drop columns_to_remove (df (this s))) ;;
   modify (λ s, mkState (mkExporter d) (files s)) ;;'
   ret d)%M.

Definition export (output_path : string) (remove_temp : bool)
    (temp_columns : option (list string)) (index : bool) : M state string :=
  ((if remove_temp then (remove_temp_columns temp_columns ;;' ret tt)
    else ret tt) ;;'
   s ←' get ;;
   modify (λ s, mkState (this s)
                  (<[output_path := mkCsv index (df (this s))]> (files s))) ;;'
   ret output_path)%M.

(** [export_cleaned_data(df, output_path, ...)]: the returned path and the
    files after the call. *)
Definition export_cleaned_data (d : DataFrame) (output_path : string)
    (remove_temp : bool) (temp_columns : option (list string)) (index : bool)
    (fs : gmap string csv_file) : result string * gmap string csv_file :=
  let out := export output_path remove_temp temp_columns index (init d fs) in
  (out.1, files out.2).

End Exporter.

(** ** [SolarDataLoader] *)

(** A frame with one of its columns as its index. *)
Record IndexedFrame := mkIndexed {
  index_name : string;
  index : column;
  data : DataFrame
}.

(** [df.set_index(name)]: the column becomes the index and is no column of
    the frame any more; [KeyError] when there is no such column. *)
Definition set_index (name : string) (d : DataFrame) : result IndexedFrame :=
  match df_get name d with
  | None => Raise KeyError
  | Some c =>
      Ok (mkIndexed name c
            (mkDataFrame (nrows d)
               (filter (λ nc : string * column, nc.1 ≠ name) (columns d))))
  end.

Module Loader.

Record SolarDataLoader := mkLoader {
  data_path : string;
  df : option DataFrame;
  df_indexed : option IndexedFrame
}.

(** [SolarDataLoader(data_path)]. *)
Definition init (path : string) : SolarDataLoader := mkLoader path None None.

Definition set_df (d : DataFrame) (self : SolarDataLoader) : SolarDataLoader :=
  mkLoader (data_path self) (Some d) (df_indexed self).

Section Files.

(** The file system and the parser of timestamps, as for the synthesizer:
    [read_csv path] is [None] for a path that does not exist, [to_datetime c]
    is [None] when a cell of [c] does not parse. *)
Variable read_csv : string → option DataFrame.
Variable to_datetime : column → option column.

(** [load]: the frame read is stored in [self.df] before the timestamp
    column is looked for, and the conversion changes that frame in place. *)
Definition load (timestamp_col : string) : M SolarDataLoader DataFrame :=
  (self ←' get ;;
   match read_csv (data_path self) with
   | None => raise FileNotFoundError
   | Some d =>
       modify (set_df d) ;;'
       match df_get timestamp_col d with
       | Some c =>
           match to_datetime c with
           | None => raise ValueError
           | Some c' =>
               modify (set_df (df_set timestamp_col c' d)) ;;'
               ret (df_set timestamp_col c' d)
           end
       | None => raise ValueError
       end
   end)%M.

(** [load_solar_data(file_path, timestamp_col)]. *)
Definition load_solar_data (file_path timestamp_col : string) : result DataFrame :=
  (load timestamp_col (init file_path)).1.

End Files.

Definition set_time_index (timestamp_col : string) : M SolarDataLoader IndexedFrame :=
  (self ←' get ;;
   match df self with
   | None => raise ValueError
   | Some d =>
       df_indexed ←' lift (set_index timestamp_col d) ;;
       modify (λ self, mkLoader (data_path self) (df self) (Some df_indexed)) ;;'
       ret df_indexed
   end)%M.

End Loader.

(** ** The dashboard's helpers ([app/utils.py]) *)

(** [cell in values] for a list of strings: a cell that is missing or no
    string is in no such list. *)
Definition is_in (values : list string) (o : option value) : bool :=
  match o with
  | Some (VStr s) => bool_decide (s ∈ values)
  | _ => false
  end.

(** [series.isin(values)]. *)
Definition isin (values : list string) (c : column) : list bool :=
  is_in values <$> to_object_cells c.

Definition filter_data_by_countries (d : DataFrame) (selected_countries : list string)
  : result DataFrame :=
  match selected_countries with
  | [] => Ok d
  | _ =>
      match df_get "Country" d with
      | None => Raise KeyError
      | Some c => Ok (select_rows (isin selected_countries c) d)
      end
  end.

(** [df['Country'] = country_name]. *)
Definition tag_country (country_name : string) (d : DataFrame) : DataFrame :=
  df_set "Country" (Objects (replicate (nrows d) (Some (VStr country_name)))) d.

(** [try: body except Exception as e: handler(e)]. *)
Definition try_except {A} (body : result A) (handler : exn → result A) : result A :=
  match body with
  | Ok a => Ok a
  | Raise e => handler e
  end.

Section Uploads.

(** The parser of dates of [pd.read_csv(..., parse_dates=['Timestamp'])]: a
    column that does not parse is left as it is. *)
Variable parse_dates : column → column.

(** [pd.read_csv(file, parse_dates=['Timestamp'])] for a file whose text
    parses to the frame [d]: [ValueError] when [d] has no column
    [Timestamp]. *)
Definition read_csv_parse_dates (d : DataFrame) : result DataFrame :=
  match df_get "Timestamp" d with
  | None => Raise ValueError
  | Some c => Ok (df_set "Timestamp" (parse_dates c) d)
  end.




(** [Path.exists], the path [data_path / file], and [pd.read_csv] on a path
    ([None] when it raises). *)
Variable path_exists : string → bool.
Variable joinpath : string → string → string.
Variable read_csv : string → option DataFrame.

Definition required_files : list string :=
  ["benin_clean.csv"; "sierra_leone_clean.csv"; "togo_clean.csv"]%string.

(** [pd.read_csv(data_path / file, parse_dates=['Timestamp'])]; what is
    raised for a file that cannot be read is rendered as [ValueError]. *)
Definition read_clean_csv (data_dir file : string) : result DataFrame :=
  match read_csv (joinpath data_dir file) with
  | None => Raise ValueError
  | Some d => read_csv_parse_dates d
  end.

Definition load_all_countries_data (data_dir : string) : result DataFrame :=
  if negb (path_exists data_dir) then Raise FileNotFoundError
  else
    let missing_files :=
      filter (λ file, path_exists (joinpath data_dir file) = false) required_files in
    match missing_files with
    | _ :: _ => Raise FileNotFoundError
    | [] =>
        match
          try_except
            (match read_clean_csv data_dir "benin_clean.csv" with
             | Raise e => Raise e
             | Ok benin_df =>
                 match read_clean_csv data_dir "sierra_leone_clean.csv" with
                 | Raise e => Raise e
                 | Ok sierra_leone_df =>
                     match read_clean_csv data_dir "togo_clean.csv" with
                     | Raise e => Raise e
                     | Ok togo_df => Ok (benin_df, sierra_leone_df, togo_df)
                     end
                 end
             end)
            (λ _, Raise FileNotFoundError)
        with
        | Raise e => Raise e
        | Ok (benin_df, sierra_leone_df, togo_df) =>
            concat [tag_country "Benin" benin_df;
                    tag_country "Sierra Leone" sierra_leone_df;
                    tag_country "Togo" togo_df]
        end
    end.

End Uploads.

(** ** What a run of the imputation loop leaves in a column *)

(** The fill value of a float column under a known method. *)
Definition fill_of (method : string) (xs : list (option R)) : option R :=
  match fill_value method (Floats xs) with
  | Ok v => v
  | Raise _ => None
  end.

(** A float column with its nulls filled; a column of another dtype as it
    is. *)
Definition imputed_column (method : string) (c : column) : column :=
  match c with
  | Floats xs => Floats (fillna (fill_of method xs) xs)
  | _ => c
  end.

(** ** What the loop over the uploads gathers *)




(** ** What the loop over the files leaves in [countries_data] *)

(** The dictionary [self.countries_data] after the files of a mapping that
    exist are loaded, in the order of the mapping. *)
Definition recorded (read_csv : string → option DataFrame)
    (to_datetime : column → option column) (file_mapping : list (string * string))
    (data : gmap string DataFrame) : gmap string DataFrame :=
  foldl (λ data (item : string * string),
           match read_csv item.2 with
           | Some d => <[item.1 := loaded_frame to_datetime item.1 d]> data
           | None => data
           end) data file_mapping.

(** ** The part of a file in an aggregated column *)

(** The cells a frame contributes to the float column [col] of a
    concatenation: its column, or one null per row. *)
Definition col_piece (col : string) (d : DataFrame) : list (option R) :=
  match df_get col d with
  | Some (Floats xs) => xs
  | _ => replicate (nrows d) None
  end.

(** Every file of the mapping exists, and its column [col], when it has
    one, is a float column with one cell per row. *)
Definition float_in_files (read_csv : string → option DataFrame) (col : string)
    (file_mapping : list (string * string)) : Prop :=
  Forall (λ item : string * string,
            ∃ d, read_csv item.2 = Some d ∧
                 ∀ c, df_get col d = Some c →
                      ∃ xs, c = Floats xs ∧ length xs = nrows d) file_mapping.

(** ** Sequences of calls on the cleaner *)




(** * Properties *)

(** ** Dictionaries and frames *)

Lemma assoc_get_set_eq {V} (k : string) (v : V) (l : list (string * V)) :
  assoc_get k (assoc_set k v l) = Some v.
Proof.
  induction l as [|[k0 v0] l IH]; simpl.
  - by rewrite String.eqb_refl.
  - destruct (String.eqb k0 k) eqn:E; simpl; rewrite E; done.
Qed.

Lemma assoc_get_set_ne {V} (k k' : string) (v : V) (l : list (string * V)) :
  k ≠ k' → assoc_get k' (assoc_set k v l) = assoc_get k' l.
Proof.
  intros Hne. induction l as [|[k0 v0] l IH]; simpl.
  - destruct (String.eqb_spec k k'); done.
  - destruct (String.eqb_spec k0 k) as [->|]; simpl.
    + destruct (String.eqb_spec k k'); done.
    + destruct (String.eqb_spec k0 k'); done.
Qed.

Lemma assoc_set_id {V} (k : string) (v : V) (l : list (string * V)) :
  assoc_get k l = Some v → assoc_set k v l = l.
Proof.
  induction l as [|[k0 v0] l IH]; simpl; [done|].
  destruct (String.eqb k0 k); [by intros [= ->] | intros H; by rewrite IH].
Qed.

Lemma assoc_set_set {V} (k : string) (v v' : V) (l : list (string * V)) :
  assoc_set k v (assoc_set k v' l) = assoc_set k v l.
Proof.
  induction l as [|[k0 v0] l IH]; simpl.
  - by rewrite String.eqb_refl.
  - destruct (String.eqb k0 k) eqn:E; simpl; rewrite E; [done | by rewrite IH].
Qed.

Lemma assoc_set_inj {V} (k : string) (v v' : V) (l : list (string * V)) :
  assoc_set k v l = assoc_set k v' l → v = v'.
Proof.
  intros H. apply (f_equal (assoc_get k)) in H.
  rewrite !assoc_get_set_eq in H. by injection H.
Qed.

Lemma df_get_set_eq (name : string) (c : column) (d : DataFrame) :
  df_get name (df_set name c d) = Some c.
Proof. apply assoc_get_set_eq. Qed.

Lemma df_get_set_ne (name name' : string) (c : column) (d : DataFrame) :
  name ≠ name' → df_get name' (df_set name c d) = df_get name' d.
Proof. apply assoc_get_set_ne. Qed.

Lemma df_set_id (name : string) (c : column) (d : DataFrame) :
  df_get name d = Some c → df_set name c d = d.
Proof.
  intros H. destruct d as [n cols]. unfold df_set; simpl.
  f_equal. by apply assoc_set_id.
Qed.

Lemma df_set_set (name : string) (c c' : column) (d : DataFrame) :
  df_set name c (df_set name c' d) = df_set name c d.
Proof. unfold df_set; simpl. by rewrite assoc_set_set. Qed.

Lemma nrows_df_set (name : string) (c : column) (d : DataFrame) :
  nrows (df_set name c d) = nrows d.
Proof. done. Qed.

(** ** Loops *)

Lemma for_each_lift {S A B} (f : A → B → result B) (l : list A) (b : B) (s : S) :
  for_each (λ a b, lift (f a b)) l b s = (iterate f l b, s).
Proof.
  revert b. induction l as [|a l IH]; intros b; simpl; [done|].
  unfold bind, lift at 1. destruct (f a b); [apply IH | done].
Qed.

Lemma iterate_app {A B} (f : A → B → result B) (l1 l2 : list A) (b : B) :
  iterate f (l1 ++ l2) b =
  match iterate f l1 b with
  | Ok b' => iterate f l2 b'
  | Raise e => Raise e
  end.
Proof.
  revert b. induction l1 as [|a l1 IH]; intros b; simpl; [done|].
  destruct (f a b); [apply IH | done].
Qed.

(** ** Statistics of a series *)

Lemma Rgtb_true (x y : R) : Rgtb x y = true ↔ y < x.
Proof. unfold Rgtb. apply bool_decide_eq_true. Qed.
Lemma Rgtb_false (x y : R) : Rgtb x y = false ↔ x <= y.
Proof. unfold Rgtb. rewrite bool_decide_eq_false. lra. Qed.
Lemma Rltb_true (x y : R) : Rltb x y = true ↔ x < y.
Proof. unfold Rltb. apply bool_decide_eq_true. Qed.
Lemma Rltb_false (x y : R) : Rltb x y = false ↔ y <= x.
Proof. unfold Rltb. rewrite bool_decide_eq_false. lra. Qed.

Lemma length_sort_values (v : list R) : length (sort_values v) = length v.
Proof. unfold sort_values. by rewrite merge_sort_Permutation. Qed.

Lemma sort_values_unique (v s : list R) :
  Sorted Rle s → s ≡ₚ v → sort_values v = s.
Proof.
  intros Hs Hp. unfold sort_values.
  apply (Sorted_unique Rle); [apply Sorted_merge_sort; apply _ | done |].
  by rewrite merge_sort_Permutation.
Qed.

(** A series with a non-null value has a median. *)
Lemma median_is_Some (xs : list (option R)) :
  dropna xs ≠ [] → is_Some (median xs).
Proof.
  intros Hne. unfold median.
  pose proof (length_sort_values (dropna xs)) as Hlen.
  set (s := sort_values (dropna xs)) in *.
  assert (length s ≠ 0)%nat as Hn.
  { rewrite Hlen. by destruct (dropna xs). }
  destruct (decide (length s = 0)%nat); [done|].
  pose proof (Nat.div_lt (length s) 2 ltac:(lia) ltac:(lia)) as Hhalf.
  destruct (Nat.even (length s)).
  - destruct (lookup_lt_is_Some_2 s (length s / 2 - 1)%nat ltac:(lia)) as [a ->].
    destruct (lookup_lt_is_Some_2 s (length s / 2)%nat ltac:(lia)) as [b ->].
    by eexists.
  - by apply lookup_lt_is_Some_2.
Qed.

Lemma count_na_fillna (x : R) (xs : list (option R)) :
  count_na (fillna (Some x) xs) = 0%nat.
Proof.
  unfold count_na, fillna. induction xs as [|o xs IH]; simpl; [done|].
  rewrite filter_cons_False; [done | by intros ?].
Qed.



(** ** Imputation *)

Lemma impute_missing_values_run (cols : list string) (method : string)
    (self : SolarDataCleaner) :
  impute_missing_values (Some cols) method self =
  match iterate (impute_column method) cols (df self) with
  | Ok d => (Ok d, set_df d self)
  | Raise e => (Raise e, self)
  end.
Proof.
  unfold impute_missing_values, bind, get. simpl.
  rewrite for_each_lift. by destruct (iterate _ _ _).
Qed.



(** ** The mode *)

Lemma max_fold_upper {A} (f : A → nat) (l : list A) (x : A) :
  x ∈ l → (f x ≤ foldr Nat.max 0 (f <$> l))%nat.
Proof.
  induction l as [|y l IH]; [by intros ?%elem_of_nil|].
  intros [->|Hx]%elem_of_cons; simpl; [clear IH; lia|].
  etrans; [apply (IH Hx) | apply Nat.le_max_r].
Qed.

Lemma max_fold_attained {A} (f : A → nat) (l : list A) :
  l ≠ [] → ∃ x, x ∈ l ∧ f x = foldr Nat.max 0%nat (f <$> l).
Proof.
  induction l as [|y l IH]; [done|]. intros _.
  destruct l as [|z l].
  - exists y. split; [left|]. simpl. lia.
  - destruct IH as (x & Hx & Hfx); [done|].
    destruct (Nat.max_spec (f y) (foldr Nat.max 0%nat (f <$> z :: l))) as [[_ E]|[_ E]].
    + exists x. split; [by right|]. change (f x = Nat.max (f y) (foldr Nat.max 0%nat (f <$> z :: l))).
      by rewrite E.
    + exists y. split; [left|]. change (f y = Nat.max (f y) (foldr Nat.max 0%nat (f <$> z :: l))).
      by rewrite E.
Qed.

Lemma elem_of_mode (x : R) (xs : list (option R)) :
  x ∈ mode xs ↔
  x ∈ dropna xs ∧ occurrences x (dropna xs) = max_occurrences (dropna xs).
Proof.
  unfold mode, sort_values. rewrite merge_sort_Permutation.
  rewrite elem_of_remove_dups, list_elem_of_filter. tauto.
Qed.

Lemma mode_sorted (xs : list (option R)) : Sorted Rle (mode xs).
Proof. unfold mode, sort_values. apply Sorted_merge_sort. apply _. Qed.

Lemma mode_nonempty (xs : list (option R)) : dropna xs ≠ [] → mode xs ≠ [].
Proof.
  intros Hne.
  destruct (max_fold_attained (λ x, occurrences x (dropna xs)) (dropna xs) Hne)
    as (x & Hx & Hmax).
  assert (x ∈ mode xs) as Hin by (apply elem_of_mode; done).
  intros E. rewrite E in Hin. by apply elem_of_nil in Hin.
Qed.

Lemma mode_empty (xs : list (option R)) : dropna xs = [] → mode xs = [].
Proof.
  intros E. destruct (mode xs) as [|x l] eqn:Hm; [done|].
  assert (x ∈ mode xs) as Hin by (rewrite Hm; left).
  apply elem_of_mode in Hin as [Hin _]. rewrite E in Hin.
  by apply elem_of_nil in Hin.
Qed.

Lemma sorted_head_least (x : R) (l : list R) (y : R) :
  Sorted Rle (x :: l) → y ∈ x :: l → x <= y.
Proof.
  intros Hs%(Sorted_StronglySorted Rle) Hy.
  apply StronglySorted_inv in Hs as [_ Hall].
  apply elem_of_cons in Hy as [->|Hy]; [lra|].
  by apply (proj1 (Forall_forall _ _) Hall).
Qed.

(** The value [mode()[0] if len(mode()) > 0 else 0] is the least of the most
    frequent non-null values. *)
Lemma mode_head_spec (xs : list (option R)) (v : R) :
  dropna xs ≠ [] →
  match mode xs with x :: _ => x | [] => 0 end = v →
  v ∈ dropna xs ∧
  occurrences v (dropna xs) = max_occurrences (dropna xs) ∧
  ∀ y, y ∈ dropna xs →
       occurrences y (dropna xs) = max_occurrences (dropna xs) → v <= y.
Proof.
  intros Hne Hv. pose proof (mode_nonempty xs Hne) as Hm.
  pose proof (mode_sorted xs) as Hs.
  destruct (mode xs) as [|x l] eqn:E; [done|]. subst v.
  assert (x ∈ mode xs) as Hx by (rewrite E; left).
  apply elem_of_mode in Hx as [Hx1 Hx2].
  split; [done|]. split; [done|].
  intros y Hy1 Hy2. apply (sorted_head_least x l); [done|].
  rewrite <- E. by apply elem_of_mode.
Qed.

(** C9 (as the code has it): with method ['mode'] the fill value of a float
    column is the smallest of its most frequent non-null values, and 0 when
    the column has no non-null value. *)
Theorem mode_fill_is_smallest_mode (xs : list (option R)) :
  ∃ v : R,
    fill_value "mode" (Floats xs) = Ok (Some v) ∧
    (dropna xs = [] → v = 0) ∧
    (dropna xs ≠ [] →
     v ∈ dropna xs ∧
     (∀ y, y ∈ dropna xs →
           (occurrences y (dropna xs) ≤ occurrences v (dropna xs))%nat) ∧
     (∀ y, y ∈ dropna xs →
           occurrences y (dropna xs) = occurrences v (dropna xs) → v <= y)).
Proof.
  exists (match mode xs with x :: _ => x | [] => 0 end).
  split; [done|]. split.
  - intros E. by rewrite (mode_empty xs E).
  - intros Hne.
    destruct (mode_head_spec xs _ Hne eq_refl) as (H1 & H2 & H3).
    split; [done|]. split.
    + intros y Hy. rewrite H2.
      apply (max_fold_upper (λ x, occurrences x (dropna xs))). done.
    + intros y Hy Hocc. apply H3; [done|]. by rewrite Hocc.
Qed.

(** Evaluation of [filter] on a list of numbers. *)
Ltac filter_R :=
  repeat first
    [ rewrite filter_nil
    | rewrite filter_cons_True by (simpl; first [lra | lia | done])
    | rewrite filter_cons_False by (simpl; first [lra | lia | done]) ].

(** C9, counterexample: on the column [2, 1] both values occur once; the
    value met first is 2, and the code fills with 1. *)
Lemma mode_fill_not_first_encountered :
  fill_value "mode" (Floats [Some 2; Some 1]) = Ok (Some 1) ∧
  first_encountered_mode [Some 2; Some 1] = Some 2 ∧
  fill_value "mode" (Floats [Some 2; Some 1])
    ≠ Ok (first_encountered_mode [Some 2; Some 1]).
Proof.
  assert (occurrences 2 [2; 1] = 1%nat) as O2 by (unfold occurrences; by filter_R).
  assert (occurrences 1 [2; 1] = 1%nat) as O1 by (unfold occurrences; by filter_R).
  assert (max_occurrences [2; 1] = 1%nat) as Om.
  { unfold max_occurrences. simpl. rewrite O1, O2. done. }
  assert (fill_value "mode" (Floats [Some 2; Some 1]) = Ok (Some 1)) as Hfill.
  { unfold fill_value; simpl. do 2 f_equal.
    destruct (mode_head_spec [Some 2; Some 1] _ ltac:(done) eq_refl) as (Hin & _ & Hleast).
    set (v := match mode [Some 2; Some 1] with x :: _ => x | [] => 0 end) in *.
    simpl in Hin, Hleast.
    assert (1 ∈ [2; 1]) as H1 by (apply elem_of_cons; right; left).
    specialize (Hleast 1 H1 ltac:(by rewrite O1, Om)). clearbody v.
    apply elem_of_cons in Hin as [Hin|Hin]; [lra|].
    apply elem_of_cons in Hin as [Hin|Hin]; [lra|]. by apply elem_of_nil in Hin. }
  assert (first_encountered_mode [Some 2; Some 1] = Some 2) as Hfirst.
  { unfold first_encountered_mode. simpl. rewrite Om.
    rewrite filter_cons_True by done. done. }
  split; [done|]. split; [done|].
  rewrite Hfill, Hfirst. intros [= H]. lra.
Qed.

(** ** Outlier detection *)

Lemma length_or_mask (bs mask : list bool) : length (or_mask bs mask) = length bs.
Proof.
  revert mask. induction bs as [|b bs IH]; intros [|m mask]; simpl; try done.
  by rewrite IH.
Qed.

Lemma or_mask_lookup (bs mask : list bool) (i : nat) :
  or_mask bs mask !! i = Some true ↔
  bs !! i = Some true ∨ ((i < length bs)%nat ∧ mask !! i = Some true).
Proof.
  revert mask i. induction bs as [|b bs IH]; intros mask i.
  - destruct mask; simpl; split; try (intros [H|[H _]]; [done | lia]); done.
  - destruct mask as [|m mask]; simpl.
    + split; [by left | intros [H|[_ H]]; done].
    + destruct i as [|i]; simpl.
      * destruct b, m; simpl; split; try (intros [H|[_ H]]); try done;
          first [by left | right; split; [lia | done]].
      * rewrite IH. split; (intros [H|[H1 H2]]; [by left | right; split; [lia | done]]).
Qed.

Lemma length_foldl_or_mask (bs : list bool) (masks : list (list bool)) :
  length (foldl or_mask bs masks) = length bs.
Proof.
  revert bs. induction masks as [|m masks IH]; intros bs; simpl; [done|].
  by rewrite IH, length_or_mask.
Qed.

Lemma foldl_or_mask_lookup (bs : list bool) (masks : list (list bool)) (i : nat) :
  foldl or_mask bs masks !! i = Some true ↔
  bs !! i = Some true ∨
  ((i < length bs)%nat ∧ ∃ mask, mask ∈ masks ∧ mask !! i = Some true).
Proof.
  revert bs. induction masks as [|m masks IH]; intros bs; simpl.
  - split; [by left | intros [H|(_ & mask & Hin & _)]; [done|]].
    by apply elem_of_nil in Hin.
  - rewrite IH, or_mask_lookup, length_or_mask. split.
    + intros [[H|[H1 H2]]|(H1 & mask & Hin & H2)].
      * by left.
      * right. split; [done|]. exists m. split; [left | done].
      * right. split; [done|]. exists mask. split; [by right | done].
    + intros [H|(H1 & mask & Hin & H2)]; [by left; left|].
      apply elem_of_cons in Hin as [->|Hin].
      * left. right. done.
      * right. split; [done|]. by exists mask.
Qed.


Lemma all_values_Some (xs : list (option R)) (v : list R) :
  all_values xs = Some v ↔ xs = Some <$> v.
Proof.
  unfold all_values. revert v. induction xs as [|o xs IH]; intros v; simpl.
  - split; [intros [= <-]; done | by destruct v].
  - destruct o as [x|]; simpl.
    + destruct (mapM (λ o : option R, o) xs) as [w|] eqn:E; simpl.
      * split.
        -- intros [= <-]. simpl. f_equal. by apply IH.
        -- destruct v as [|y v]; [done|]. simpl. intros [= -> Hxs].
           apply IH in Hxs. by injection Hxs as ->.
      * split; [done|]. destruct v as [|y v]; [done|]. simpl. intros [= -> Hxs].
        by apply IH in Hxs.
    + split; [done|]. by destruct v.
Qed.

Lemma all_values_fmap_Some (v : list R) : all_values (Some <$> v) = Some v.
Proof. by apply all_values_Some. Qed.

Lemma dropna_fmap_Some (v : list R) : dropna (Some <$> v) = v.
Proof. unfold dropna. induction v as [|x v IH]; simpl; [done | by f_equal]. Qed.

Lemma all_values_None (xs : list (option R)) :
  None ∈ xs → all_values xs = None.
Proof.
  intros Hin. destruct (all_values xs) as [v|] eqn:E; [|done].
  apply all_values_Some in E. subst xs.
  apply list_elem_of_fmap in Hin as (x & Hx & _). done.
Qed.

Lemma length_outlier_mask (t : R) (xs : list (option R)) :
  length (outlier_mask t xs) = length xs.
Proof.
  unfold outlier_mask, gt_scalar, np_abs, zscore.
  destruct (np_mean xs), (np_std xs); try case_decide;
    by rewrite !length_fmap.
Qed.

Lemma gt_scalar_all_nan (t : R) (xs : list (option R)) :
  gt_scalar t (np_abs ((λ _ : option R, None) <$> xs)) = replicate (length xs) false.
Proof.
  unfold gt_scalar, np_abs. induction xs as [|o xs IH]; simpl; [done|].
  f_equal. apply IH.
Qed.

(** A null in the column makes every score NaN: no row is flagged. *)
Lemma outlier_mask_null (t : R) (xs : list (option R)) :
  None ∈ xs → outlier_mask t xs = replicate (length xs) false.
Proof.
  intros Hin. unfold outlier_mask, zscore, np_mean.
  rewrite (all_values_None xs Hin). apply gt_scalar_all_nan.
Qed.

(** A column of standard deviation zero flags no row. *)
Lemma outlier_mask_zero_std (t : R) (xs : list (option R)) :
  np_std xs = Some 0 → outlier_mask t xs = replicate (length xs) false.
Proof.
  intros Hs. unfold outlier_mask, zscore. rewrite Hs.
  destruct (np_mean xs); [|apply gt_scalar_all_nan].
  rewrite decide_True by done. apply gt_scalar_all_nan.
Qed.

(** On a column without null and of nonzero standard deviation the mask is
    [|x - mean| / std > z_threshold], row by row. *)
Lemma outlier_mask_scores (t : R) (xs : list (option R)) (m s : R) :
  np_mean xs = Some m → np_std xs = Some s → s ≠ 0 →
  outlier_mask t xs =
  (λ o : option R,
     match o with
     | Some x => bool_decide (t < Rabs ((x - m) / s))
     | None => false
     end) <$> xs.
Proof.
  intros Hm Hs Hne. unfold outlier_mask, zscore. rewrite Hm, Hs.
  rewrite decide_False by done.
  unfold gt_scalar, np_abs. rewrite <- !list_fmap_compose.
  apply list_fmap_ext. intros i [x|] _; done.
Qed.

(** Without a null in the column, the code's mask is the specification's. *)
Lemma outlier_mask_no_nulls (t : R) (xs : list (option R)) (v : list R) :
  all_values xs = Some v → outlier_mask t xs = spec_outlier_mask t xs.
Proof.
  intros Hv. pose proof Hv as Hxs. apply all_values_Some in Hxs. subst xs.
  unfold spec_outlier_mask. rewrite dropna_fmap_Some.
  destruct (np_mean (Some <$> v)) as [m|] eqn:Hm.
  - destruct (np_std (Some <$> v)) as [s|] eqn:Hs.
    + destruct (decide (s = 0)) as [->|Hne].
      * rewrite (outlier_mask_zero_std _ _ Hs). rewrite length_fmap.
        clear. induction v as [|x v IH]; simpl; [done|]. f_equal; [|done].
        symmetry. apply bool_decide_eq_false. tauto.
      * rewrite (outlier_mask_scores t _ m s Hm Hs Hne).
        apply list_fmap_ext. intros i [x|] _; [|done].
        apply bool_decide_ext. tauto.
    + unfold np_std in Hs. by rewrite Hv, Hm in Hs.
  - unfold outlier_mask, zscore. rewrite Hm.
    rewrite gt_scalar_all_nan. rewrite length_fmap.
    clear. induction v as [|x v IH]; simpl; [done|]. by f_equal.
Qed.

Lemma column_mask_df_set (t : R) (d : DataFrame) (c : column) (col : string) :
  col ≠ "Outlier_Flag"%string →
  column_mask t (df_set "Outlier_Flag" c d) col = column_mask t d col.
Proof. intros Hne. unfold column_mask. by rewrite df_get_set_ne. Qed.

Lemma float_columns_df_set (cols : list string) (d : DataFrame) (c : column) :
  float_columns cols d → float_columns cols (df_set "Outlier_Flag" c d).
Proof.
  unfold float_columns. intros H. eapply Forall_impl; [exact H|].
  simpl. intros col [Hne Hfl]. split; [done|].
  intros c'. rewrite df_get_set_ne by done. apply Hfl.
Qed.

Lemma masks_df_set (t : R) (cols : list string) (d : DataFrame) (c : column) :
  float_columns cols d →
  omap (column_mask t (df_set "Outlier_Flag" c d)) cols = omap (column_mask t d) cols.
Proof.
  induction 1 as [|col cols [Hne _] _ IH]; simpl; [done|].
  rewrite column_mask_df_set by done.
  destruct (column_mask t d col); [f_equal|]; apply IH.
Qed.

Lemma record_flags_df_set (t : R) (cols : list string) (d : DataFrame) (c : column)
    (fl : gmap string outlier_stat) :
  float_columns cols d →
  record_flags t (df_set "Outlier_Flag" c d) cols fl = record_flags t d cols fl.
Proof.
  intros H. revert fl. induction H as [|col cols [Hne _] _ IH]; intros fl; simpl; [done|].
  rewrite column_mask_df_set by done. apply IH.
Qed.

Lemma record_flags_cons (t : R) (d : DataFrame) (col : string) (cols : list string)
    (fl : gmap string outlier_stat) :
  record_flags t d (col :: cols) fl =
  record_flags t d cols
    match column_mask t d col with
    | Some mask =>
        <[col := mkOutlierStat (mask_sum mask) (percent (mask_sum mask) (nrows d))]> fl
    | None => fl
    end.
Proof. done. Qed.

Lemma masks_cons (t : R) (d : DataFrame) (col : string) (cols : list string) :
  omap (column_mask t d) (col :: cols) =
  match column_mask t d col with
  | Some mask => mask :: omap (column_mask t d) cols
  | None => omap (column_mask t d) cols
  end.
Proof. done. Qed.

(** The loop of [detect_outliers]: the flag column becomes the disjunction
    of its initial value and the masks of the processed columns, one entry
    per processed column is written to [self.outlier_flags], and nothing
    else changes. *)
Lemma detect_columns_run (t : R) (cols : list string) (d : DataFrame)
    (bs : list bool) (s : SolarDataCleaner) :
  float_columns cols d →
  df_get "Outlier_Flag" d = Some (Bools bs) →
  for_each (detect_column t) cols d s =
  (Ok (df_set "Outlier_Flag"
         (Bools (foldl or_mask bs (omap (column_mask t d) cols))) d),
   mkCleaner (df s) (df_cleaned s) (record_flags t d cols (outlier_flags s))
     (cleaning_stats s)).
Proof.
  intros Hcols. revert d bs s Hcols.
  induction cols as [|col cols IH]; intros d bs s Hcols Hflag.
  - simpl. rewrite (df_set_id _ _ _ Hflag). by destruct s.
  - apply Forall_cons in Hcols as [[Hne Hfl] Hcols].
    rewrite record_flags_cons, masks_cons.
    change (for_each (detect_column t) (col :: cols) d s)
      with (bind (detect_column t col d) (for_each (detect_column t) cols) s).
    unfold bind, detect_column.
    destruct (df_get col d) as [c|] eqn:Hget.
    + destruct (Hfl c eq_refl) as [xs ->].
      assert (column_mask t d col = Some (outlier_mask t xs)) as ->
        by (unfold column_mask; by rewrite Hget).
      simpl. unfold bind, lift, modify, ret. simpl.
      unfold loc_set_true. rewrite Hflag.
      rewrite (IH _ (or_mask bs (outlier_mask t xs)));
        [|by apply float_columns_df_set | apply df_get_set_eq].
      rewrite masks_df_set, record_flags_df_set, df_set_set by done. done.
    + assert (column_mask t d col = None) as ->
        by (unfold column_mask; by rewrite Hget).
      simpl. unfold ret. by rewrite (IH d bs).
Qed.


(** [detect_outliers] on float columns. *)
Lemma detect_outliers_run (cols : list string) (t : R) (self : SolarDataCleaner) :
  float_columns cols (df self) →
  let d0 := df_set "Outlier_Flag" (Bools (replicate (nrows (df self)) false)) (df self) in
  let flagged :=
    df_set "Outlier_Flag"
      (Bools (foldl or_mask (replicate (nrows (df self)) false)
                (omap (column_mask t (df self)) cols))) (df self) in
  detect_outliers cols t self =
  (Ok flagged,
   mkCleaner flagged (df_cleaned self)
     (record_flags t (df self) cols (outlier_flags self)) (cleaning_stats self)).
Proof.
  intros Hcols d0 flagged. unfold detect_outliers, bind, get. simpl.
  rewrite (detect_columns_run t cols _ (replicate (nrows (df self)) false));
    [|by apply float_columns_df_set | apply df_get_set_eq].
  unfold modify, ret, set_df. simpl.
  rewrite masks_df_set, record_flags_df_set, df_set_set by done. done.
Qed.

Lemma elem_of_masks (t : R) (d : DataFrame) (cols : list string) (mask : list bool) :
  mask ∈ omap (column_mask t d) cols ↔
  ∃ col xs, col ∈ cols ∧ df_get col d = Some (Floats xs) ∧ mask = outlier_mask t xs.
Proof.
  rewrite list_elem_of_omap. unfold column_mask. split.
  - intros (col & Hin & Hm).
    destruct (df_get col d) as [[xs| | |]|] eqn:Hget; try done.
    exists col, xs. injection Hm as <-. by repeat split.
  - intros (col & xs & Hin & Hget & ->). exists col. by rewrite Hget.
Qed.



(** *** Evaluation of the statistics on given numbers *)

Lemma np_mean_values (v : list R) (m : R) :
  v ≠ [] → Rsum v = m * INR (length v) → np_mean (Some <$> v) = Some m.
Proof.
  intros Hne Hsum. unfold np_mean. rewrite all_values_fmap_Some.
  destruct v as [|x v]; [done|]. f_equal. rewrite Hsum.
  field. apply not_0_INR. simpl; lia.
Qed.

Lemma np_std_values (v : list R) (m s : R) :
  np_mean (Some <$> v) = Some m → 0 <= s →
  sq_dev m v = s * s * INR (length v) →
  np_std (Some <$> v) = Some s.
Proof.
  intros Hm Hs Hsq. unfold np_std. rewrite all_values_fmap_Some, Hm. f_equal.
  assert (v ≠ []) as Hne.
  { intros ->. unfold np_mean in Hm. by rewrite all_values_fmap_Some in Hm. }
  rewrite Hsq. apply sqrt_lem_1; [|done|].
  - unfold Rdiv. rewrite Rmult_assoc, Rinv_r; [nra|].
    apply not_0_INR. by destruct v.
  - field. apply not_0_INR. by destruct v.
Qed.

Lemma mean_values (v : list R) (m : R) :
  v ≠ [] → Rsum v = m * INR (length v) → mean (Some <$> v) = Some m.
Proof.
  intros Hne Hsum. unfold mean. rewrite dropna_fmap_Some.
  destruct v as [|x v]; [done|]. f_equal. rewrite Hsum.
  field. apply not_0_INR. simpl; lia.
Qed.


(** Decides a comparison of two given numbers, absolute values included. *)
Ltac R_decide :=
  first
    [ apply bool_decide_eq_true_2 | apply bool_decide_eq_false_2
    | apply Rgtb_true | apply Rgtb_false | apply Rltb_true | apply Rltb_false ];
  unfold Rabs; repeat destruct (Rcase_abs _); lra.

(** C1, at a column with a null: the column holds sixteen zeros, 17 and one
    null.  The non-null values have mean 1 and population standard deviation
    4, so the row of 17 has score 4 and the specification flags it at
    threshold 3; [zscore] of the column with its null is NaN on every row, so
    [detect_outliers] flags no row and records a count of zero. *)
Theorem detect_outliers_misses_outlier_beside_null :
  outlier_mask 3 dni_with_null = replicate 18 false ∧
  spec_outlier_mask 3 dni_with_null = replicate 16 false ++ [true; false] ∧
  ∃ T' self',
    detect_outliers ["DNI"%string] 3
      (init (mkDataFrame 18 [("DNI"%string, Floats dni_with_null)])) = (Ok T', self') ∧
    df_get "Outlier_Flag" T' = Some (Bools (replicate 18 false)) ∧
    outlier_flags self' !! "DNI"%string = Some (mkOutlierStat 0 (Some 0)).
Proof.
  assert (outlier_mask 3 dni_with_null = replicate 18 false) as Hmask.
  { rewrite outlier_mask_null; [done|]. unfold dni_with_null.
    apply elem_of_app. right. apply elem_of_cons. right. left. }
  split; [done|]. split.
  - unfold spec_outlier_mask.
    assert (dropna dni_with_null = replicate 16 0 ++ [17]) as -> by done.
    assert (np_mean (Some <$> replicate 16 0 ++ [17]) = Some 1) as Hm.
    { apply np_mean_values; [done|]. simpl. lra. }
    rewrite Hm.
    rewrite (np_std_values _ 1 4 Hm); [|lra|unfold sq_dev; simpl; lra].
    unfold dni_with_null. simpl.
    repeat match goal with |- _ :: _ = _ :: _ => f_equal end; try done; R_decide.
  - set (F := mkDataFrame 18 [("DNI"%string, Floats dni_with_null)]).
    assert (column_mask 3 F "DNI" = Some (replicate 18 false)) as Hcm.
    { change (column_mask 3 F "DNI") with (Some (outlier_mask 3 dni_with_null)).
      by rewrite Hmask. }
    assert (float_columns ["DNI"%string] (df (init F))) as Hfc.
    { repeat constructor; [done|]. intros c [= <-]. by eexists. }
    pose proof (detect_outliers_run ["DNI"%string] 3 (init F) Hfc) as Hrun.
    cbv zeta in Hrun. change (df (init F)) with F in Hrun.
    rewrite record_flags_cons, masks_cons, Hcm in Hrun.
    eexists _, _. split; [exact Hrun|]. split.
    + by rewrite df_get_set_eq.
    + simpl. rewrite lookup_insert_eq. f_equal. unfold mask_sum, percent. simpl.
      do 2 f_equal. lra.
Qed.

(** ** Capping *)

Lemma cap_outliers_run (cols : list string) (t : R) (self : SolarDataCleaner) :
  cap_outliers cols t self =
  match iterate (cap_column t) cols (df self) with
  | Ok d => (Ok d, set_df_cleaned d self)
  | Raise e => (Raise e, self)
  end.
Proof.
  unfold cap_outliers, bind, get. simpl.
  rewrite for_each_lift. by destruct (iterate _ _ _).
Qed.



Lemma clip_value_below (lo hi x : R) :
  lo <= hi → x < lo → clip_value (Some lo) (Some hi) x = lo.
Proof.
  intros H1 H2. unfold clip_value, Rmin, Rmax.
  destruct (Rle_dec lo hi); [|lra].
  by rewrite (proj2 (Rltb_true _ _)) by lra.
Qed.




Lemma df_set_inj (name : string) (c c' : column) (d : DataFrame) :
  df_set name c d = df_set name c' d → c = c'.
Proof. intros [= H]. by apply assoc_set_inj in H. Qed.


Arguments clip_value : simpl never.



(** ** The pipeline [clean] *)

(** [clean], when imputation gives [d1] and capping of the flagged frame
    gives [capped]. *)
Lemma clean_run (self : SolarDataCleaner) (ncols ocols : option (list string))
    (method : string) (t : R) (d1 capped : DataFrame) :
  let numeric := match ncols with
                 | None => numeric_columns (df self)
                 | Some cs => cs
                 end in
  let outlier := match ocols with None => numeric | Some cs => cs end in
  let flags := foldl or_mask (replicate (nrows d1) false)
                 (omap (column_mask t d1) outlier) in
  let flagged := df_set "Outlier_Flag" (Bools flags) d1 in
  iterate (impute_column method) numeric (df self) = Ok d1 →
  float_columns outlier d1 →
  iterate (cap_column t) outlier flagged = Ok capped →
  clean ncols ocols method t self =
  (Ok capped,
   mkCleaner flagged (Some capped)
     (record_flags t d1 outlier (outlier_flags self))
     (mkReport (Some (missing_statistics (5 / 100) (df self))) true
        (Some (mask_sum flags)))).
Proof.
  intros numeric outlier flags flagged Himp Hfl Hcap.
  unfold clean.
  unfold bind at 1. unfold detect_missing_values at 1, bind at 1, get at 1, ret at 1.
  unfold bind at 1, modify at 1. unfold bind at 1, get at 1.
  cbn [df set_cleaning_stats].
  fold numeric. unfold bind at 1.
  rewrite impute_missing_values_run. cbn [df set_cleaning_stats].
  rewrite Himp. fold outlier. unfold bind at 1.
  rewrite detect_outliers_run by done. cbn [df set_df].
  fold flags. fold flagged. unfold bind at 1.
  rewrite cap_outliers_run. cbn [df]. rewrite Hcap.
  unfold bind, get, lift, modify, ret. cbn.
  unfold flag_total. subst flagged. rewrite df_get_set_eq. done.
Qed.



Lemma floats_or_same_set (d : DataFrame) (col : string) (ys : list (option R)) :
  floats_or_same d (df_set col (Floats ys) d).
Proof.
  split; [done|]. intros name c'.
  destruct (decide (col = name)) as [->|Hne].
  - rewrite df_get_set_eq. intros [= <-]. left. by eexists.
  - rewrite df_get_set_ne by done. by right.
Qed.

Lemma all_floats_mono (cols : list string) (d d' : DataFrame) :
  floats_or_same d d' → all_floats cols d → all_floats cols d'.
Proof.
  intros [_ H] Hall. eapply Forall_impl; [exact Hall|]. simpl.
  intros col Hcol c' Hget. destruct (H col c' Hget) as [?|Hd]; [done|].
  by apply Hcol.
Qed.

Lemma float_columns_mono (cols : list string) (d d' : DataFrame) :
  floats_or_same d d' → float_columns cols d → float_columns cols d'.
Proof.
  intros [_ H] Hall. eapply Forall_impl; [exact Hall|]. simpl.
  intros col [Hne Hcol]. split; [done|].
  intros c' Hget. destruct (H col c' Hget) as [?|Hd]; [done|].
  by apply Hcol.
Qed.



(** Capping of distinct float columns returns, and clips each named column
    with the bounds taken from that column. *)
Lemma cap_columns_total (t : R) (cols : list string) (d : DataFrame) :
  float_columns cols d → NoDup cols →
  ∃ capped,
    iterate (cap_column t) cols d = Ok capped ∧
    (∀ c, c ∉ cols → df_get c capped = df_get c d) ∧
    (∀ c xs, c ∈ cols → df_get c d = Some (Floats xs) →
             df_get c capped =
             Some (Floats (clip (lower_bound t xs) (upper_bound t xs) xs))).
Proof.
  revert d. induction cols as [|col cols IH]; intros d Hfl Hnd.
  - exists d. split; [done|]. split; [done|]. intros c xs Hin. by apply elem_of_nil in Hin.
  - apply Forall_cons in Hfl as [[Hne Hcol] Hfl].
    apply NoDup_cons in Hnd as [Hnotin Hnd]. simpl.
    unfold cap_column. destruct (df_get col d) as [c0|] eqn:Hget.
    + destruct (Hcol c0 eq_refl) as [ys ->]. simpl.
      set (d' := df_set col (Floats (clip (lower_bound t ys) (upper_bound t ys) ys)) d).
      destruct (IH d') as (capped & Hrun & Hout & Hin).
      { eapply float_columns_mono; [apply floats_or_same_set | done]. }
      { done. }
      exists capped. split; [done|]. split.
      * intros c [Hc1 Hc2]%not_elem_of_cons. rewrite Hout by done.
        unfold d'. by rewrite df_get_set_ne.
      * intros c xs [->|Hc]%elem_of_cons Hxs.
        -- rewrite Hout by done. unfold d'. rewrite df_get_set_eq.
           rewrite Hget in Hxs. by injection Hxs as ->.
        -- apply Hin; [done|]. unfold d'. rewrite df_get_set_ne; [done|].
           intros ->. done.
    + destruct (IH d Hfl Hnd) as (capped & Hrun & Hout & Hin).
      exists capped. split; [done|]. split.
      * intros c [Hc1 Hc2]%not_elem_of_cons. by apply Hout.
      * intros c xs [->|Hc]%elem_of_cons Hxs; [congruence|]. by apply Hin.
Qed.







(** ** Aggregation *)

Section Aggregation.

Variable read_csv : string → option DataFrame.
Variable to_datetime : column → option column.

Lemma nrows_loaded_frame (country : string) (d : DataFrame) :
  nrows (loaded_frame to_datetime country d) = nrows d.
Proof.
  unfold loaded_frame. destruct (df_get "Timestamp" _); [|done].
  by destruct (to_datetime _).
Qed.

Lemma country_loaded_frame (country : string) (d : DataFrame) :
  df_get "Country" (loaded_frame to_datetime country d) =
  Some (Objects (replicate (nrows d) (Some (VStr country)))).
Proof.
  unfold loaded_frame. destruct (df_get "Timestamp" _).
  - destruct (to_datetime _).
    + rewrite df_get_set_ne by done. apply df_get_set_eq.
    + apply df_get_set_eq.
  - apply df_get_set_eq.
Qed.

Lemma load_country_data_missing (country path : string) (s : CrossCountrySynthesizer) :
  read_csv path = None →
  load_country_data read_csv to_datetime country path s = (Raise FileNotFoundError, s).
Proof. intros H. unfold load_country_data. by rewrite H. Qed.

Lemma load_country_data_loads (country path : string) (d : DataFrame)
    (s : CrossCountrySynthesizer) :
  read_csv path = Some d → loads to_datetime d →
  load_country_data read_csv to_datetime country path s =
  (Ok (loaded_frame to_datetime country d),
   mkSynthesizer (data_dir s)
     (<[country := loaded_frame to_datetime country d]> (countries_data s))
     (combined_data s)).
Proof.
  intros Hread Hloads. unfold load_country_data, loaded_frame. rewrite Hread.
  rewrite df_get_set_ne by done.
  destruct (df_get "Timestamp" d) as [c|] eqn:Hts.
  - destruct (Hloads c Hts) as [c' Hc]. rewrite Hc. done.
  - done.
Qed.

(** No call of [load_country_data] touches [self.combined_data]. *)
Lemma load_country_data_combined (country path : string) (s s' : CrossCountrySynthesizer)
    (r : result DataFrame) :
  load_country_data read_csv to_datetime country path s = (r, s') →
  combined_data s' = combined_data s.
Proof.
  unfold load_country_data. destruct (read_csv path) as [d|]; [|by intros [= _ <-]].
  unfold bind, raise, ret, modify.
  destruct (df_get "Timestamp" _); [destruct (to_datetime _)|]; by intros [= _ <-].
Qed.

Lemma load_loop_combined (file_mapping : list (string * string))
    (acc : list DataFrame) (s s' : CrossCountrySynthesizer) (r : result (list DataFrame)) :
  load_loop read_csv to_datetime file_mapping acc s = (r, s') → combined_data s' = combined_data s.
Proof.
  revert acc s. induction file_mapping as [|item rest IH]; intros acc s.
  - by intros [= _ <-].
  - unfold load_loop. simpl. unfold bind at 1 2.
    destruct (load_country_data _ _ _ _ s) as [[d|e] s1] eqn:Hload.
    + unfold ret at 1. intros Hrest. apply IH in Hrest.
      apply load_country_data_combined in Hload. congruence.
    + intros [= _ <-]. by apply load_country_data_combined in Hload.
Qed.

Lemma load_loop_ok (file_mapping : list (string * string))
    (acc : list DataFrame) (s : CrossCountrySynthesizer) :
  Forall (λ item : string * string,
            ∃ d, read_csv item.2 = Some d ∧ loads to_datetime d) file_mapping →
  ∃ s', load_loop read_csv to_datetime file_mapping acc s =
        (Ok (acc ++ loaded_frames read_csv to_datetime file_mapping), s').
Proof.
  intros Hall. revert acc s.
  induction Hall as [|item rest (d & Hread & Hloads) _ IH]; intros acc s.
  - exists s. unfold loaded_frames. simpl. by rewrite app_nil_r.
  - unfold load_loop. simpl. unfold bind at 1 2.
    rewrite (load_country_data_loads _ _ d) by done. unfold ret at 1.
    destruct (IH (acc ++ [loaded_frame to_datetime item.1 d])
                (mkSynthesizer (data_dir s)
                   (<[item.1 := loaded_frame to_datetime item.1 d]> (countries_data s))
                   (combined_data s))) as [s' Hs'].
    exists s'. unfold load_loop in Hs'. rewrite Hs'.
    unfold loaded_frames. simpl. rewrite Hread. simpl. by rewrite <- app_assoc.
Qed.


End Aggregation.

Lemma aggregate_all_countries_unfold (read_csv : string → option DataFrame)
    (to_datetime : column → option column) (file_mapping : list (string * string))
    (s : CrossCountrySynthesizer) :
  aggregate_all_countries read_csv to_datetime file_mapping s =
  match load_loop read_csv to_datetime file_mapping [] s with
  | (Ok dataframes, s1) =>
      match concat dataframes with
      | Ok combined =>
          (Ok combined,
           mkSynthesizer (data_dir s1) (countries_data s1) (Some combined))
      | Raise e => (Raise e, s1)
      end
  | (Raise e, s1) => (Raise e, s1)
  end.
Proof.
  unfold aggregate_all_countries, load_loop, bind at 1.
  destruct (for_each _ _ _ _) as [[dfs|e] s1]; [|done].
  unfold bind, lift, modify, ret. by destruct (concat dfs).
Qed.

(** A failed aggregation leaves [self.combined_data] as it was. *)
Lemma aggregate_failure_keeps_combined (read_csv : string → option DataFrame)
    (to_datetime : column → option column) (file_mapping : list (string * string))
    (s s' : CrossCountrySynthesizer) (e : exn) :
  aggregate_all_countries read_csv to_datetime file_mapping s = (Raise e, s') →
  combined_data s' = combined_data s.
Proof.
  rewrite aggregate_all_countries_unfold.
  destruct (load_loop _ _ _ _ s) as [[dfs|e1] s1] eqn:Hloop.
  - apply load_loop_combined in Hloop.
    destruct (concat dfs); [done|]. by intros [= _ <-].
  - apply load_loop_combined in Hloop. by intros [= _ <-].
Qed.



Lemma elem_of_unique {A} `{EqDecision A} (x : A) (l : list A) :
  x ∈ unique l ↔ x ∈ l.
Proof.
  induction l as [|y l IH]; simpl; [done|].
  rewrite !elem_of_cons, list_elem_of_filter, IH.
  destruct (decide (x = y)) as [->|Hne]; [split; by left|].
  split; [intros [?|[_ ?]]; [by left | by right] | intros [?|?]; [by left | by right]].
Qed.

Lemma assoc_get_named {V} (f : string → V) (names : list string) (name : string) :
  assoc_get name ((λ n, (n, f n)) <$> names) =
  if decide (name ∈ names) then Some (f name) else None.
Proof.
  induction names as [|n names IH].
  - simpl. destruct (decide (name ∈ [])) as [H|H]; [by apply elem_of_nil in H | done].
  - rewrite fmap_cons. cbn [assoc_get].
    destruct (String.eqb_spec n name) as [->|Hne].
    + rewrite decide_True; [done | left].
    + rewrite IH. destruct (decide (name ∈ names)).
      * rewrite decide_True; [done | by right].
      * rewrite decide_False; [done|]. intros [?|?]%elem_of_cons; congruence.
Qed.

Lemma mapM_head_None {A B} (f : A → option B) (x : A) (l : list A) :
  f x = None → mapM f (x :: l) = None.
Proof. intros H. simpl. by rewrite H. Qed.

(** The concatenation of object columns is the object column of their
    cells. *)
Lemma concat_column_objects (dfs : list DataFrame) (cells : DataFrame → list (option value)) :
  dfs ≠ [] →
  concat_column ((λ d, (nrows d, Some (Objects (cells d)))) <$> dfs) =
  Objects (mjoin (cells <$> dfs)).
Proof.
  intros Hne. destruct dfs as [|d dfs]; [done|].
  unfold concat_column. rewrite fmap_cons.
  rewrite !mapM_head_None by done. f_equal.
  assert (∀ l : list DataFrame,
            objects_piece <$> ((λ d0, (nrows d0, Some (Objects (cells d0)))) <$> l)
            = cells <$> l) as H.
  { intros l. induction l as [|a l IH]; [done|]. simpl. by f_equal. }
  exact (f_equal mjoin (H (d :: dfs))).
Qed.

Section AggregationResult.

Variable read_csv : string → option DataFrame.
Variable to_datetime : column → option column.

Lemma loaded_frames_rows (file_mapping : list (string * string)) :
  Forall (λ item : string * string, is_Some (read_csv item.2)) file_mapping →
  nrows <$> loaded_frames read_csv to_datetime file_mapping =
  (λ item : string * string, file_rows read_csv item.2) <$> file_mapping.
Proof.
  induction 1 as [|item rest [d Hd] _ IH]; [done|].
  unfold loaded_frames. simpl. unfold file_rows at 1. rewrite Hd. simpl.
  rewrite nrows_loaded_frame. f_equal. apply IH.
Qed.

Lemma loaded_frames_tags (file_mapping : list (string * string)) :
  Forall (λ item : string * string, is_Some (read_csv item.2)) file_mapping →
  (λ d, (nrows d, df_get "Country" d)) <$> loaded_frames read_csv to_datetime file_mapping =
  (λ item : string * string,
     (file_rows read_csv item.2,
      Some (Objects (replicate (file_rows read_csv item.2) (Some (VStr item.1))))))
    <$> file_mapping.
Proof.
  induction 1 as [|item rest [d Hd] _ IH]; [done|].
  unfold loaded_frames. simpl. unfold file_rows at 1 2. rewrite Hd. simpl.
  rewrite nrows_loaded_frame, country_loaded_frame. f_equal. apply IH.
Qed.

Lemma loaded_frames_nonempty (file_mapping : list (string * string)) :
  Forall (λ item : string * string, is_Some (read_csv item.2)) file_mapping →
  file_mapping ≠ [] → loaded_frames read_csv to_datetime file_mapping ≠ [].
Proof.
  intros Hall Hne. destruct Hall as [|item rest [d Hd] _]; [done|].
  unfold loaded_frames. simpl. by rewrite Hd.
Qed.

Lemma site_tags_cons (item : string * string) (rest : list (string * string)) :
  site_tags read_csv (item :: rest) =
  replicate (file_rows read_csv item.2) (Some (VStr item.1)) ++ site_tags read_csv rest.
Proof. done. Qed.

Lemma length_site_tags (file_mapping : list (string * string)) :
  length (site_tags read_csv file_mapping) =
  foldr Nat.add 0%nat ((λ item : string * string, file_rows read_csv item.2) <$> file_mapping).
Proof.
  induction file_mapping as [|item rest IH]; [done|].
  rewrite site_tags_cons, length_app, length_replicate, fmap_cons. simpl. by rewrite IH.
Qed.

Lemma site_tags_lookup (file_mapping : list (string * string)) (i : nat) :
  (i < length (site_tags read_csv file_mapping))%nat →
  ∃ item, item ∈ file_mapping ∧
          site_tags read_csv file_mapping !! i = Some (Some (VStr item.1)).
Proof.
  revert i. induction file_mapping as [|item rest IH]; intros i Hi.
  - simpl in Hi. lia.
  - rewrite site_tags_cons in *. rewrite length_app, length_replicate in Hi.
    destruct (decide (i < file_rows read_csv item.2)%nat) as [Hlt|Hge].
    + exists item. split; [left|].
      rewrite lookup_app_l by (by rewrite length_replicate).
      by apply lookup_replicate.
    + destruct (IH (i - file_rows read_csv item.2)%nat ltac:(lia)) as (item' & Hin & Hl).
      exists item'. split; [by right|].
      rewrite lookup_app_r by (rewrite length_replicate; lia).
      by rewrite length_replicate.
Qed.

End AggregationResult.

Lemma assoc_get_elem_of {V} (name : string) (l : list (string * V)) (v : V) :
  assoc_get name l = Some v → name ∈ l.*1.
Proof.
  induction l as [|[k v0] l IH]; simpl; [done|].
  destruct (String.eqb_spec k name) as [->|Hne]; [intros _; left|].
  intros H. right. by apply IH.
Qed.

(** [pd.concat] of at least one frame: the rows add up, and a column of the
    result is the concatenation of the parts under its name. *)
Lemma concat_spec (dfs : list DataFrame) :
  dfs ≠ [] →
  ∃ T, concat dfs = Ok T ∧
       nrows T = foldr Nat.add 0%nat (nrows <$> dfs) ∧
       ∀ name, df_get name T =
               if decide (name ∈ mjoin ((λ d, (columns d).*1) <$> dfs))
               then Some (concat_column ((λ d, (nrows d, df_get name d)) <$> dfs))
               else None.
Proof.
  intros Hne. destruct dfs as [|d dfs]; [done|].
  eexists. split; [done|]. split; [done|].
  intros name. unfold df_get at 1. cbn [columns].
  rewrite (assoc_get_named
             (λ name, concat_column ((λ d, (nrows d, df_get name d)) <$> d :: dfs))).
  destruct (decide (name ∈ unique _)) as [H|H];
    destruct (decide (name ∈ mjoin _)) as [H'|H']; try done.
  - apply (proj1 (elem_of_unique _ _)) in H. contradiction.
  - apply (proj2 (elem_of_unique _ _)) in H'. contradiction.
Qed.

(** The concatenation of frames that all carry an object column [name]. *)
Lemma concat_object_column (dfs : list DataFrame) (name : string)
    (cells : DataFrame → list (option value)) (T : DataFrame) :
  dfs ≠ [] →
  Forall (λ d, df_get name d = Some (Objects (cells d))) dfs →
  concat dfs = Ok T →
  df_get name T = Some (Objects (mjoin (cells <$> dfs))).
Proof.
  intros Hne Hall Hcat.
  destruct (concat_spec dfs Hne) as (T' & Hcat' & _ & Hcols).
  rewrite Hcat in Hcat'. injection Hcat' as <-. rewrite Hcols.
  rewrite decide_True.
  - f_equal. rewrite <- (concat_column_objects dfs cells Hne). f_equal.
    apply list_fmap_ext. intros i d Hd. f_equal.
    apply (proj1 (Forall_lookup _ _) Hall i d Hd).
  - destruct dfs as [|d dfs]; [done|]. apply Forall_cons in Hall as [Hd _].
    simpl. apply elem_of_app. left. by apply assoc_get_elem_of in Hd.
Qed.

Lemma loaded_frames_country (read_csv : string → option DataFrame)
    (to_datetime : column → option column) (file_mapping : list (string * string)) :
  Forall (λ d, df_get "Country" d = Some (Objects (country_cells d)))
    (loaded_frames read_csv to_datetime file_mapping).
Proof.
  unfold loaded_frames. induction file_mapping as [|item rest IH]; [constructor|].
  simpl. destruct (read_csv item.2) as [d|]; [|done]. simpl.
  constructor; [|done]. unfold country_cells. by rewrite country_loaded_frame.
Qed.

Lemma loaded_frames_site_tags (read_csv : string → option DataFrame)
    (to_datetime : column → option column) (file_mapping : list (string * string)) :
  Forall (λ item : string * string, is_Some (read_csv item.2)) file_mapping →
  mjoin (country_cells <$> loaded_frames read_csv to_datetime file_mapping) =
  site_tags read_csv file_mapping.
Proof.
  induction 1 as [|item rest [d Hd] _ IH]; [done|].
  rewrite site_tags_cons, <- IH. unfold loaded_frames, file_rows. simpl.
  rewrite Hd. simpl. unfold country_cells at 1. by rewrite country_loaded_frame.
Qed.

(** C8: for a mapping of sites to files that exist (and load), the table
    [aggregate_all_countries] returns has as many rows as its input tables
    together, and its column [Country] holds, for each file in turn, the site
    name of that file once per row of the file: every row has a non-null tag,
    the name of the site it came from.  The empty mapping is the one case
    without a table: [pd.concat] of no frame raises [ValueError]. *)
Theorem aggregate_rows_and_tags (read_csv : string → option DataFrame)
    (to_datetime : column → option column) (file_mapping : list (string * string))
    (self : CrossCountrySynthesizer) :
  Forall (λ item : string * string,
            ∃ d, read_csv item.2 = Some d ∧ loads to_datetime d) file_mapping →
  (file_mapping = [] ∧
   ∃ self', aggregate_all_countries read_csv to_datetime file_mapping self
            = (Raise ValueError, self')) ∨
  ∃ (T : DataFrame) (self' : CrossCountrySynthesizer),
    aggregate_all_countries read_csv to_datetime file_mapping self = (Ok T, self') ∧
    combined_data self' = Some T ∧
    nrows T = foldr Nat.add 0%nat
                ((λ item : string * string, file_rows read_csv item.2) <$> file_mapping) ∧
    df_get "Country" T = Some (Objects (site_tags read_csv file_mapping)) ∧
    length (site_tags read_csv file_mapping) = nrows T ∧
    ∀ i, (i < nrows T)%nat →
         ∃ item, item ∈ file_mapping ∧
                 site_tags read_csv file_mapping !! i = Some (Some (VStr item.1)).
Proof.
  intros Hall.
  destruct (load_loop_ok read_csv to_datetime file_mapping [] self Hall) as [s1 Hloop].
  rewrite app_nil_l in Hloop.
  assert (Forall (λ item : string * string, is_Some (read_csv item.2)) file_mapping)
    as Hex.
  { eapply Forall_impl; [exact Hall|]. simpl. intros item (d & Hd & _). by eexists. }
  rewrite aggregate_all_countries_unfold, Hloop.
  destruct (decide (file_mapping = [])) as [->|Hne].
  - left. split; [done|]. by exists s1.
  - right.
    pose proof (loaded_frames_nonempty read_csv to_datetime _ Hex Hne) as Hne'.
    destruct (concat_spec _ Hne') as (T & Hcat & Hrows & _).
    rewrite Hcat. exists T. eexists. split; [done|]. split; [done|].
    assert (nrows T = foldr Nat.add 0%nat
              ((λ item : string * string, file_rows read_csv item.2) <$> file_mapping))
      as HT.
    { rewrite Hrows. by rewrite loaded_frames_rows. }
    split; [done|]. split; [|split].
    + rewrite (concat_object_column _ "Country" country_cells T Hne'
                 (loaded_frames_country _ _ _) Hcat).
      by rewrite loaded_frames_site_tags.
    + by rewrite HT, length_site_tags.
    + intros i Hi. apply site_tags_lookup. by rewrite length_site_tags, <- HT.
Qed.

Lemma aggregate_rows_and_tags_witness :
  ∃ (T : DataFrame) (self' : CrossCountrySynthesizer),
    aggregate_all_countries
      (λ path, if String.eqb path "a.csv"
               then Some (mkDataFrame 1 [("GHI"%string, Floats [Some 1])])
               else Some (mkDataFrame 2 [("GHI"%string, Floats [Some 2; Some 3])]))
      (λ c, Some c)
      [("A"%string, "a.csv"%string); ("B"%string, "b.csv"%string)]
      (new_synthesizer "data") = (Ok T, self') ∧
    nrows T = 3%nat ∧
    df_get "Country" T =
      Some (Objects [Some (VStr "A"); Some (VStr "B"); Some (VStr "B")]).
Proof.
  destruct (aggregate_rows_and_tags
              (λ path, if String.eqb path "a.csv"
                       then Some (mkDataFrame 1 [("GHI"%string, Floats [Some 1])])
                       else Some (mkDataFrame 2 [("GHI"%string, Floats [Some 2; Some 3])]))
              (λ c, Some c)
              [("A"%string, "a.csv"%string); ("B"%string, "b.csv"%string)]
              (new_synthesizer "data"))
    as [[Hnil _]|(T & self' & Hrun & _ & Hrows & Htags & _)].
  - repeat constructor.
    + eexists. split; [reflexivity|]. intros c _. eexists. reflexivity.
    + eexists. split; [reflexivity|]. intros c _. eexists. reflexivity.
  - discriminate Hnil.
  - exists T, self'. split; [exact Hrun|]. split; [exact Hrows | exact Htags].
Defined.

(** ** Summary statistics *)

Lemma list_ascii_of_string_app (a b : string) :
  String.list_ascii_of_string (a +:+ b) = String.list_ascii_of_string a ++ String.list_ascii_of_string b.
Proof.
  induction a as [|ch a IH]; [done|].
  change (String ch a +:+ b) with (String ch (a +:+ b)). simpl. by rewrite IH.
Qed.

Lemma list_ascii_of_string_inj (a b : string) :
  String.list_ascii_of_string a = String.list_ascii_of_string b → a = b.
Proof.
  intros H. apply (f_equal String.string_of_list_ascii) in H.
  by rewrite !String.string_of_list_ascii_of_string in H.
Qed.

(** Two keys [col ++ suffix] of a summary row are equal only when they have
    the same column and the same suffix. *)
Lemma summary_key_inj (c1 c2 s1 s2 : string) (f1 f2 : list (option R) → option R) :
  (s1, f1) ∈ summary_statistics → (s2, f2) ∈ summary_statistics →
  c1 +:+ s1 = c2 +:+ s2 → c1 = c2 ∧ s1 = s2 ∧ f1 = f2.
Proof.
  intros H1 H2 E.
  apply (f_equal String.list_ascii_of_string) in E. rewrite !list_ascii_of_string_app in E.
  apply (f_equal (@List.rev _)) in E. rewrite !List.rev_app_distr in E.
  unfold summary_statistics in H1, H2.
  repeat (apply elem_of_cons in H1 as [H1|H1]; [injection H1 as -> ->|]);
    [..|by apply elem_of_nil in H1];
    (repeat (apply elem_of_cons in H2 as [H2|H2]; [injection H2 as -> ->|]);
     [..|by apply elem_of_nil in H2]);
    first
      [ by (simpl in E; discriminate E)
      | split; [|done]; apply app_inv_head in E;
        apply list_ascii_of_string_inj;
        rewrite <- (List.rev_involutive (String.list_ascii_of_string c1)),
                <- (List.rev_involutive (String.list_ascii_of_string c2));
        by f_equal ].
Qed.

Lemma assoc_get_set {V} (k k' : string) (v : V) (l : list (string * V)) :
  assoc_get k' (assoc_set k v l) = if decide (k = k') then Some v else assoc_get k' l.
Proof.
  destruct (decide (k = k')) as [->|Hne];
    [apply assoc_get_set_eq | by apply assoc_get_set_ne].
Qed.

Lemma assoc_get_fmap {V W} (g : V → W) (k : string) (l : list (string * V)) :
  assoc_get k ((λ kv : string * V, (kv.1, g kv.2)) <$> l) = g <$> assoc_get k l.
Proof.
  induction l as [|[k0 v0] l IH]; [done|].
  rewrite fmap_cons. cbn [assoc_get fst snd]. by destruct (String.eqb k0 k).
Qed.

Lemma df_get_select_rows (mask : list bool) (col : string) (d : DataFrame) :
  df_get col (select_rows mask d) = select_column mask <$> df_get col d.
Proof. unfold df_get, select_rows. cbn [columns]. apply assoc_get_fmap. Qed.

Lemma summarize_column_floats (d : DataFrame) (col : string) (xs : list (option R))
    (st : list (string * option R)) :
  df_get col d = Some (Floats xs) →
  summarize_column d col st =
  Ok (assoc_set (col +:+ "_max") (max xs)
     (assoc_set (col +:+ "_min") (min xs)
     (assoc_set (col +:+ "_std") (std xs)
     (assoc_set (col +:+ "_median") (median xs)
     (assoc_set (col +:+ "_mean") (mean xs) st))))).
Proof. intros H. unfold summarize_column. by rewrite H. Qed.

Lemma summarize_column_absent (d : DataFrame) (col : string)
    (st : list (string * option R)) :
  df_get col d = None → summarize_column d col st = Ok st.
Proof. intros H. unfold summarize_column. by rewrite H. Qed.

Lemma summarize_column_sound (d : DataFrame) (col : string) (xs : list (option R))
    (st : list (string * option R)) :
  df_get col d = Some (Floats xs) → stats_sound d st →
  stats_sound d
    (assoc_set (col +:+ "_max") (max xs)
    (assoc_set (col +:+ "_min") (min xs)
    (assoc_set (col +:+ "_std") (std xs)
    (assoc_set (col +:+ "_median") (median xs)
    (assoc_set (col +:+ "_mean") (mean xs) st))))).
Proof.
  intros Hget Hsound c sfx f v Hsfx. rewrite !assoc_get_set.
  assert (∀ sfx' f', (sfx', f') ∈ summary_statistics →
            col +:+ sfx' = c +:+ sfx → Some (f' xs) = Some v →
            ∃ xs0, df_get c d = Some (Floats xs0) ∧ v = f xs0) as Hkey.
  { intros sfx' f' Hsfx' E [= <-].
    destruct (summary_key_inj _ _ _ _ _ _ Hsfx' Hsfx E) as (-> & -> & ->).
    by exists xs. }
  repeat case_decide;
    try (by apply (Hsound c sfx f v Hsfx));
    eapply Hkey; try eassumption; unfold summary_statistics;
    repeat first [ apply list_elem_of_here | apply list_elem_of_further ].
Qed.

Lemma summarize_column_complete (col : string) (xs : list (option R))
    (st : list (string * option R)) (sfx : string) (f : list (option R) → option R) :
  (sfx, f) ∈ summary_statistics →
  is_Some (assoc_get (col +:+ sfx)
    (assoc_set (col +:+ "_max") (max xs)
    (assoc_set (col +:+ "_min") (min xs)
    (assoc_set (col +:+ "_std") (std xs)
    (assoc_set (col +:+ "_median") (median xs)
    (assoc_set (col +:+ "_mean") (mean xs) st)))))).
Proof.
  intros Hsfx. rewrite !assoc_get_set. unfold summary_statistics in Hsfx.
  repeat (apply elem_of_cons in Hsfx as [Hsfx|Hsfx]; [injection Hsfx as -> ->|]);
    [..|by apply elem_of_nil in Hsfx];
    repeat case_decide; try done; by eexists.
Qed.

Lemma assoc_set_keeps {V} (k k' : string) (v : V) (l : list (string * V)) :
  is_Some (assoc_get k l) → is_Some (assoc_get k (assoc_set k' v l)).
Proof. intros H. rewrite assoc_get_set. by case_decide. Qed.

(** The inner loop of [get_summary_statistics] on float columns returns a
    dictionary that holds, for every requested float column of the frame,
    its five statistics under their keys. *)
Lemma country_stats_spec (d : DataFrame) (cols : list string)
    (st0 : list (string * option R)) :
  all_floats cols d → stats_sound d st0 →
  ∃ st,
    iterate (summarize_column d) cols st0 = Ok st ∧
    stats_sound d st ∧
    (∀ k, is_Some (assoc_get k st0) → is_Some (assoc_get k st)) ∧
    ∀ col xs sfx f,
      col ∈ cols → df_get col d = Some (Floats xs) →
      (sfx, f) ∈ summary_statistics →
      assoc_get (col +:+ sfx) st = Some (f xs).
Proof.
  intros Hall. revert st0.
  induction Hall as [|col cols Hcol _ IH]; intros st0 Hsound.
  - exists st0. split; [done|]. split; [done|]. split; [done|].
    intros col xs sfx f Hin. by apply elem_of_nil in Hin.
  - simpl. destruct (df_get col d) as [c|] eqn:Hget.
    + destruct (Hcol c eq_refl) as [xs ->].
      rewrite (summarize_column_floats d col xs st0 Hget).
      destruct (IH _ (summarize_column_sound d col xs st0 Hget Hsound))
        as (st & Hrun & Hs & Hkeep & Hin).
      exists st. split; [done|]. split; [done|]. split.
      * intros k Hk. apply Hkeep. by do 5 apply assoc_set_keeps.
      * intros col' xs' sfx f [->|Hc]%elem_of_cons Hget' Hsfx; [|by eapply Hin].
        destruct (Hkeep (col +:+ sfx)
                    (summarize_column_complete col xs st0 sfx f Hsfx)) as [v Hv].
        destruct (Hs col sfx f v Hsfx Hv) as (xs0 & Hxs0 & ->).
        rewrite Hv. congruence.
    + rewrite (summarize_column_absent d col st0 Hget).
      destruct (IH st0 Hsound) as (st & Hrun & Hs & Hkeep & Hin).
      exists st. split; [done|]. split; [done|]. split; [done|].
      intros col' xs' sfx f [->|Hc]%elem_of_cons Hget' Hsfx; [congruence|].
      by eapply Hin.
Qed.

Lemma stats_sound_nil (d : DataFrame) : stats_sound d [].
Proof. intros col sfx f v _ H. done. Qed.

Lemma all_floats_select_rows (cols : list string) (mask : list bool) (d : DataFrame) :
  all_floats cols d → all_floats cols (select_rows mask d).
Proof.
  intros H. eapply Forall_impl; [exact H|]. simpl. intros col Hcol c.
  rewrite df_get_select_rows. destruct (df_get col d) as [c0|]; [|done].
  destruct (Hcol c0 eq_refl) as [xs ->]. intros [= <-]. by eexists.
Qed.

(** The loop over the countries, on float columns: one row per country, in
    the order of the list, each with the statistics of the rows of that
    country. *)
Lemma summarize_countries_spec (T : DataFrame) (tags : list (option value))
    (cols : list string) (countries : list (option value))
    (acc : list summary_row) (s : CrossCountrySynthesizer) :
  all_floats cols T →
  ∃ rows,
    for_each (summarize_country T tags cols) countries acc s = (Ok (acc ++ rows), s) ∧
    Country <$> rows = countries ∧
    ∀ row, row ∈ rows →
      ∀ col xs sfx f,
        col ∈ cols → df_get col T = Some (Floats xs) →
        (sfx, f) ∈ summary_statistics →
        assoc_get (col +:+ sfx) (stats row) =
        Some (f (select (eq_scalar (Country row) tags) xs)).
Proof.
  intros Hall. revert acc.
  induction countries as [|country countries IH]; intros acc.
  - exists []. rewrite app_nil_r. split; [done|]. split; [done|].
    intros row Hrow. by apply elem_of_nil in Hrow.
  - simpl. unfold bind at 1, summarize_country at 1, bind at 1.
    rewrite for_each_lift.
    destruct (country_stats_spec (select_rows (eq_scalar country tags) T) cols []
                (all_floats_select_rows _ _ _ Hall) (stats_sound_nil _))
      as (st & Hrun & _ & _ & Hst).
    rewrite Hrun. unfold ret at 1.
    destruct (IH (acc ++ [mkSummaryRow country st])) as (rows & Hloop & Hc & Hrows).
    exists (mkSummaryRow country st :: rows). split.
    { rewrite Hloop. by rewrite <- app_assoc. }
    split; [rewrite fmap_cons; by rewrite Hc|].
    intros row [->|Hrow]%elem_of_cons; [|by apply Hrows].
    intros col xs sfx f Hcol Hget Hsfx. simpl. apply Hst; [done| |done].
    rewrite df_get_select_rows, Hget. done.
Qed.

(** [get_summary_statistics] once the countries are aggregated. *)
Lemma get_summary_statistics_run (self : CrossCountrySynthesizer) (cols : list string)
    (T : DataFrame) (c : column) :
  combined_data self = Some T → df_get "Country" T = Some c → all_floats cols T →
  ∃ rows,
    get_summary_statistics cols self = (Ok rows, self) ∧
    Country <$> rows = unique (to_object_cells c) ∧
    ∀ row, row ∈ rows →
      ∀ col xs sfx f,
        col ∈ cols → df_get col T = Some (Floats xs) →
        (sfx, f) ∈ summary_statistics →
        assoc_get (col +:+ sfx) (stats row) =
        Some (f (select (eq_scalar (Country row) (to_object_cells c)) xs)).
Proof.
  intros HT Hc Hall. unfold get_summary_statistics, bind, get. rewrite HT, Hc.
  destruct (summarize_countries_spec T (to_object_cells c) cols
              (unique (to_object_cells c)) [] self Hall) as (rows & Hrun & H1 & H2).
  exists rows. by rewrite Hrun.
Qed.

(** C6 (as the code has it): [get_summary_statistics] raises [ValueError]
    before aggregation; after it, on float columns, it returns one row per
    site tag, in the order in which the tags first appear in the aggregated
    table, and the row of a site holds under the keys [col_mean],
    [col_median], [col_std], [col_min] and [col_max] the statistics of each
    requested column over the rows of that site. *)
Theorem summary_statistics_by_first_appearance (self : CrossCountrySynthesizer)
    (cols : list string) :
  (combined_data self = None →
   get_summary_statistics cols self = (Raise ValueError, self)) ∧
  ∀ (T : DataFrame) (c : column),
    combined_data self = Some T → df_get "Country" T = Some c → all_floats cols T →
    ∃ rows,
      get_summary_statistics cols self = (Ok rows, self) ∧
      Country <$> rows = unique (to_object_cells c) ∧
      ∀ row, row ∈ rows →
        ∀ col xs sfx f,
          col ∈ cols → df_get col T = Some (Floats xs) →
          (sfx, f) ∈ summary_statistics →
          assoc_get (col +:+ sfx) (stats row) =
          Some (f (select (eq_scalar (Country row) (to_object_cells c)) xs)).
Proof.
  split.
  - intros H. unfold get_summary_statistics, bind, get. by rewrite H.
  - apply get_summary_statistics_run.
Qed.

(** C6, counterexample: site A (mean GHI 1) precedes site B (mean GHI 2) in
    the aggregated table, and so it does in the summary: the rows are not in
    descending order of the mean. *)
Lemma summary_statistics_not_ordered :
  ∃ rows,
    (get_summary_statistics ["GHI"%string]
       (mkSynthesizer "data" ∅ (Some two_sites))).1 = Ok rows ∧
    Country <$> rows = [Some (VStr "A"); Some (VStr "B")] ∧
    ¬ ordered_by_mean "GHI_mean" rows.
Proof.
  destruct (get_summary_statistics_run (mkSynthesizer "data" ∅ (Some two_sites))
              ["GHI"%string] two_sites
              (Objects [Some (VStr "A"); Some (VStr "B")]) eq_refl eq_refl)
    as (rows & Hrun & Hc & Hst).
  { repeat constructor. intros c [= <-]. by eexists. }
  assert (unique [Some (VStr "A"); Some (VStr "B")] = [Some (VStr "A"); Some (VStr "B")])
    as Hu.
  { simpl. rewrite filter_cons_True by done. done. }
  change (to_object_cells (Objects [Some (VStr "A"); Some (VStr "B")]))
    with [Some (VStr "A"); Some (VStr "B")] in Hc.
  rewrite Hu in Hc.
  exists rows. rewrite Hrun. split; [done|]. split; [done|].
  destruct rows as [|r1 [|r2 [|r3 rows]]]; try done.
  injection Hc as Hc1 Hc2.
  assert (mean (Some <$> [1]) = Some 1) as Hm1 by (apply mean_values; [done | simpl; lra]).
  assert (mean (Some <$> [2]) = Some 2) as Hm2 by (apply mean_values; [done | simpl; lra]).
  pose proof (Hst r1 ltac:(left) "GHI"%string [Some 1; Some 2] "_mean"%string mean
                ltac:(left) eq_refl ltac:(left)) as H1.
  pose proof (Hst r2 ltac:(right; left) "GHI"%string [Some 1; Some 2] "_mean"%string mean
                ltac:(left) eq_refl ltac:(left)) as H2.
  rewrite Hc1 in H1. rewrite Hc2 in H2.
  change (to_object_cells (Objects [Some (VStr "A"); Some (VStr "B")]))
    with [Some (VStr "A"); Some (VStr "B")] in H1, H2.
  assert (eq_scalar (Some (VStr "A")) [Some (VStr "A"); Some (VStr "B")] = [true; false])
    as EA.
  { reflexivity. }
  assert (eq_scalar (Some (VStr "B")) [Some (VStr "A"); Some (VStr "B")] = [false; true])
    as EB.
  { reflexivity. }
  rewrite EA in H1. rewrite EB in H2.
  change (select [true; false] [Some 1; Some 2]) with (Some <$> [1]) in H1.
  change (select [false; true] [Some 1; Some 2]) with (Some <$> [2]) in H2.
  rewrite Hm1 in H1. rewrite Hm2 in H2.
  intros Hord.
  destruct (Hord 0%nat 1%nat r1 r2 1 2 ltac:(lia) eq_refl eq_refl H1 H2) as [H|[H _]]; lra.
Qed.

(** ** The caller's frames *)

Lemma touches_only_ret {A} (l : Heap.loc) (a : A) : touches_only l (ret a).
Proof. by intros s l0 _. Qed.

Lemma touches_only_lift {A} (l : Heap.loc) (r : result A) : touches_only l (lift r).
Proof. by intros s l0 _. Qed.

Lemma touches_only_read (l l' : Heap.loc) : touches_only l (Heap.read l').
Proof. by intros s l0 _. Qed.

Lemma touches_only_set_this (l : Heap.loc) (f : Heap.object → Heap.object) :
  touches_only l (Heap.set_this f).
Proof. by intros s l0 _. Qed.

Lemma touches_only_update (l : Heap.loc) (f : DataFrame → result DataFrame) :
  touches_only l (Heap.update l f).
Proof.
  intros s l0 Hne. unfold Heap.update.
  destruct (f _); simpl; [by rewrite lookup_insert_ne | done].
Qed.

Lemma touches_only_bind {A B} (l : Heap.loc) (m : M Heap.state A) (k : A → M Heap.state B) :
  touches_only l m → (∀ a, touches_only l (k a)) → touches_only l (bind m k).
Proof.
  intros Hm Hk s l0 Hne. unfold bind.
  specialize (Hm s l0 Hne). destruct (m s) as [[a|e] s1]; simpl in *; [|done].
  by rewrite (Hk a s1 l0 Hne).
Qed.

Lemma touches_only_for_each {A B} (l : Heap.loc) (body : A → B → M Heap.state B)
    (xs : list A) (b : B) :
  (∀ a b, touches_only l (body a b)) → touches_only l (for_each body xs b).
Proof.
  intros Hbody. revert b. induction xs as [|a xs IH]; intros b; simpl.
  - apply touches_only_ret.
  - apply touches_only_bind; [apply Hbody | apply IH].
Qed.

Lemma touches_only_detect_column (z : R) (l : Heap.loc) (col : string) :
  touches_only l (Heap.detect_column z l col).
Proof.
  unfold Heap.detect_column. apply touches_only_bind; [apply touches_only_read|].
  intros d. destruct (df_get col d); [|apply touches_only_ret].
  apply touches_only_bind; [apply touches_only_lift|]. intros xs.
  apply touches_only_bind; [apply touches_only_update|]. intros _.
  apply touches_only_set_this.
Qed.

Lemma growing_ret {A} (a : A) : growing (ret (S:=Heap.state) a).
Proof. by intros s. Qed.

Lemma growing_lift {A} (r : result A) : growing (lift (S:=Heap.state) r).
Proof. by intros s. Qed.

Lemma growing_get : growing (get (S:=Heap.state)).
Proof. by intros s. Qed.

Lemma growing_read (l : Heap.loc) : growing (Heap.read l).
Proof. by intros s. Qed.

Lemma growing_set_this (f : Heap.object → Heap.object) : growing (Heap.set_this f).
Proof. by intros s. Qed.

Lemma growing_bind {A B} (m : M Heap.state A) (k : A → M Heap.state B) :
  growing m → (∀ a, growing (k a)) → growing (bind m k).
Proof.
  intros Hm Hk s. unfold bind.
  specialize (Hm s). destruct (m s) as [[a|e] s1]; simpl in *; [|done].
  etrans; [exact Hm | apply Hk].
Qed.

(** A method that copies a frame and then changes the copy only. *)
Lemma growing_copy_then {A} (l : Heap.loc) (body : Heap.loc → M Heap.state A) :
  (∀ l', touches_only l' (body l')) → growing (bind (Heap.copy l) body).
Proof.
  intros Hbody s. unfold bind, Heap.copy. cbv zeta.
  set (l' := fresh (dom (Heap.frames s))).
  apply map_subseteq_spec. intros l0 d Hl0.
  assert (l0 ≠ l') as Hne.
  { intros ->. pose proof (is_fresh (dom (Heap.frames s))) as Hfresh.
    apply Hfresh. apply elem_of_dom. by eexists. }
  rewrite (Hbody l' _ l0 Hne). simpl. by rewrite lookup_insert_ne.
Qed.

Lemma growing_detect_missing_values (threshold : R) :
  growing (Heap.detect_missing_values threshold).
Proof.
  unfold Heap.detect_missing_values.
  apply growing_bind; [apply growing_get|]. intros s.
  apply growing_bind; [apply growing_read|]. intros d. apply growing_ret.
Qed.

Lemma growing_impute_missing_values (cols : option (list string)) (method : string) :
  growing (Heap.impute_missing_values cols method).
Proof.
  unfold Heap.impute_missing_values.
  apply growing_bind; [apply growing_get|]. intros s.
  apply growing_bind; [apply growing_read|]. intros d.
  apply growing_copy_then. intros l'.
  apply touches_only_bind.
  { apply touches_only_for_each. intros col _. apply touches_only_update. }
  intros _. apply touches_only_bind; [apply touches_only_set_this|].
  intros _. apply touches_only_ret.
Qed.

Lemma growing_detect_outliers (cols : list string) (z : R) :
  growing (Heap.detect_outliers cols z).
Proof.
  unfold Heap.detect_outliers.
  apply growing_bind; [apply growing_get|]. intros s.
  apply growing_copy_then. intros l'.
  apply touches_only_bind; [apply touches_only_update|]. intros _.
  apply touches_only_bind.
  { apply touches_only_for_each. intros col _. apply touches_only_detect_column. }
  intros _. apply touches_only_bind; [apply touches_only_set_this|].
  intros _. apply touches_only_ret.
Qed.

Lemma growing_cap_outliers (cols : list string) (z : R) :
  growing (Heap.cap_outliers cols z).
Proof.
  unfold Heap.cap_outliers.
  apply growing_bind; [apply growing_get|]. intros s.
  apply growing_copy_then. intros l'.
  apply touches_only_bind.
  { apply touches_only_for_each. intros col _. apply touches_only_update. }
  intros _. apply touches_only_bind; [apply touches_only_set_this|].
  intros _. apply touches_only_ret.
Qed.

Lemma growing_clean (ncols ocols : option (list string)) (method : string) (z : R) :
  growing (Heap.clean ncols ocols method z).
Proof.
  unfold Heap.clean.
  apply growing_bind; [apply growing_detect_missing_values|]. intros missing.
  apply growing_bind; [apply growing_set_this|]. intros _.
  apply growing_bind; [apply growing_get|]. intros s.
  apply growing_bind; [apply growing_read|]. intros d.
  apply growing_bind; [apply growing_impute_missing_values|]. intros _.
  apply growing_bind; [apply growing_detect_outliers|]. intros _.
  apply growing_bind; [apply growing_cap_outliers|]. intros _.
  apply growing_bind; [apply growing_get|]. intros s'.
  apply growing_bind; [apply growing_read|]. intros d'.
  apply growing_bind; [apply growing_lift|]. intros total.
  apply growing_bind; [apply growing_set_this|]. intros _.
  apply growing_bind; [apply growing_get|]. intros s''.
  apply growing_ret.
Qed.

Lemma run_call_grows (c : Heap.call) (s : Heap.state) :
  Heap.frames s ⊆ Heap.frames (Heap.run_call c s).
Proof.
  destruct c as [t|cols m|cols z|cols z|ncols ocols m z].
  - exact (growing_detect_missing_values t s).
  - exact (growing_impute_missing_values cols m s).
  - exact (growing_detect_outliers cols z s).
  - exact (growing_cap_outliers cols z s).
  - exact (growing_clean ncols ocols m z s).
Qed.

Lemma run_calls_grows (cs : list Heap.call) (s : Heap.state) :
  Heap.frames s ⊆ Heap.frames (Heap.run_calls cs s).
Proof.
  revert s. induction cs as [|c cs IH]; intros s; [done|].
  unfold Heap.run_calls. simpl. etrans; [apply (run_call_grows c) | apply IH].
Qed.

Lemma returns_ret {S A} (c : A) : returns (S:=S) c (ret c).
Proof. by intros s r [= <-]. Qed.

Lemma returns_bind {S A B} (c : B) (m : M S A) (k : A → M S B) :
  (∀ a, returns c (k a)) → returns c (bind m k).
Proof.
  intros Hk s r. unfold bind. destruct (m s) as [[a|e] s1]; [apply Hk | done].
Qed.

(** The location a method returns after [df.copy()] is the one of the copy
    when the rest of the method returns that location. *)
Lemma copy_then_returns_fresh (l : Heap.loc) (k : Heap.loc → M Heap.state Heap.loc)
    (s : Heap.state) (l' : Heap.loc) :
  (∀ c, returns c (k c)) →
  (bind (Heap.copy l) k s).1 = Ok l' → l' ∉ dom (Heap.frames s).
Proof.
  intros Hk. unfold bind, Heap.copy. cbv zeta. intros H.
  apply Hk in H. subst l'. apply is_fresh.
Qed.

Lemma impute_missing_values_fresh (cols : option (list string)) (method : string)
    (s : Heap.state) (l' : Heap.loc) :
  (Heap.impute_missing_values cols method s).1 = Ok l' → l' ∉ dom (Heap.frames s).
Proof.
  unfold Heap.impute_missing_values, bind at 1 2, get, Heap.read. cbv zeta.
  apply copy_then_returns_fresh. intros c.
  do 2 (apply returns_bind; intros _). apply returns_ret.
Qed.

Lemma detect_outliers_fresh (cols : list string) (z : R) (s : Heap.state) (l' : Heap.loc) :
  (Heap.detect_outliers cols z s).1 = Ok l' → l' ∉ dom (Heap.frames s).
Proof.
  unfold Heap.detect_outliers, bind at 1, get.
  apply copy_then_returns_fresh. intros c.
  do 3 (apply returns_bind; intros _). apply returns_ret.
Qed.

Lemma cap_outliers_fresh (cols : list string) (z : R) (s : Heap.state) (l' : Heap.loc) :
  (Heap.cap_outliers cols z s).1 = Ok l' → l' ∉ dom (Heap.frames s).
Proof.
  unfold Heap.cap_outliers, bind at 1, get.
  apply copy_then_returns_fresh. intros c.
  do 2 (apply returns_bind; intros _). apply returns_ret.
Qed.

(** C10: the cleaner never changes a frame of its caller.  The constructor
    works on a copy of the input frame; whatever methods are called
    afterwards, in any number and order and whether they return or raise,
    every frame that existed before the cleaner was built, the input among
    them, holds what it held; the frames [impute_missing_values],
    [detect_outliers] and [cap_outliers] return are new ones; and
    [detect_missing_values] leaves the cleaner and its working table as they
    are. *)
Theorem cleaner_leaves_caller_frames (σ : gmap Heap.loc DataFrame) (l : Heap.loc)
    (calls : list Heap.call) :
  let s0 := Heap.init l σ in
  let s := Heap.run_calls calls s0 in
  (Heap.df_ref (Heap.this s0) ∉ dom σ) ∧
  Heap.frames s0 !!! (Heap.df_ref (Heap.this s0)) = σ !!! l ∧
  (∀ l0 d, σ !! l0 = Some d → Heap.frames s !! l0 = Some d) ∧
  (∀ s1 cols method l',
     (Heap.impute_missing_values cols method s1).1 = Ok l' →
     l' ∉ dom (Heap.frames s1)) ∧
  (∀ s1 cols z l',
     (Heap.detect_outliers cols z s1).1 = Ok l' → l' ∉ dom (Heap.frames s1)) ∧
  (∀ s1 cols z l',
     (Heap.cap_outliers cols z s1).1 = Ok l' → l' ∉ dom (Heap.frames s1)) ∧
  (∀ s1 threshold, (Heap.detect_missing_values threshold s1).2 = s1).
Proof.
  intros s0 s. split; [apply is_fresh|]. split.
  { unfold s0, Heap.init. simpl. apply lookup_total_insert_eq. }
  split.
  { intros l0 d Hl0.
    pose proof (run_calls_grows calls s0) as Hgrow.
    apply (proj1 (map_subseteq_spec _ _) Hgrow).
    unfold s0, Heap.init. simpl. rewrite lookup_insert_ne; [done|].
    intros <-. pose proof (is_fresh (dom σ)) as Hf. apply Hf.
    apply elem_of_dom. by eexists. }
  split; [intros; by eapply impute_missing_values_fresh|].
  split; [intros; by eapply detect_outliers_fresh|].
  split; [intros; by eapply cap_outliers_fresh|].
  done.
Qed.

(** ** The store model computes what the value model computes *)

Lemma insert_lookup_total_id (σ : gmap Heap.loc DataFrame) (l : Heap.loc) :
  l ∈ dom σ → <[l := σ !!! l]> σ = σ.
Proof.
  intros [d Hd]%elem_of_dom. apply insert_id.
  by rewrite (lookup_total_correct _ _ _ Hd).
Qed.

(** A loop of in-place changes of the frame [l]. *)
Lemma for_each_update (f : string → DataFrame → result DataFrame)
    (cols : list string) (l : Heap.loc) (s : Heap.state) :
  l ∈ dom (Heap.frames s) →
  for_each (λ col _, Heap.update l (f col)) cols tt s =
  (match iterate f cols (Heap.frames s !!! l) with
   | Ok _ => Ok tt
   | Raise e => Raise e
   end,
   Heap.mkState (<[l := iterate_last f cols (Heap.frames s !!! l)]> (Heap.frames s))
     (Heap.this s)).
Proof.
  revert s. induction cols as [|col cols IH]; intros s Hl.
  - simpl. unfold ret. rewrite insert_lookup_total_id by done. by destruct s.
  - simpl. unfold bind, Heap.update at 1.
    destruct (f col (Heap.frames s !!! l)) as [d|e] eqn:Hf.
    + rewrite IH by (simpl; set_solver). simpl.
      rewrite lookup_total_insert_eq, insert_insert_eq. done.
    + rewrite insert_lookup_total_id by done. by destruct s.
Qed.

Lemma iterate_last_Ok {A B} (f : A → B → result B) (l : list A) (b b' : B) :
  iterate f l b = Ok b' → iterate_last f l b = b'.
Proof.
  revert b. induction l as [|a l IH]; intros b; simpl; [by intros [= ->]|].
  destruct (f a b); [apply IH | done].
Qed.

Lemma impute_missing_values_unfold (cols : option (list string)) (method : string)
    (self : SolarDataCleaner) :
  impute_missing_values cols method self =
  match iterate (impute_column method)
          (match cols with None => numeric_columns (df self) | Some cs => cs end)
          (df self) with
  | Ok d => (Ok d, set_df d self)
  | Raise e => (Raise e, self)
  end.
Proof.
  unfold impute_missing_values, bind, get. simpl.
  rewrite for_each_lift. by destruct (iterate _ _ _).
Qed.

(** A new frame does not change what the cleaner's references point to. *)
Lemma view_insert_fresh (s : Heap.state) (l' : Heap.loc) (d : DataFrame) :
  valid s → l' ∉ dom (Heap.frames s) →
  view (Heap.mkState (<[l' := d]> (Heap.frames s)) (Heap.this s)) = view s.
Proof.
  intros [Hdf Hcl] Hfresh. unfold view. simpl. f_equal.
  - apply lookup_total_insert_ne. intros ->. done.
  - destruct (Heap.df_cleaned_ref (Heap.this s)) as [l0|]; [|done]. simpl. f_equal.
    apply lookup_total_insert_ne. intros ->. by apply Hfresh, Hcl.
Qed.

Lemma valid_insert (s : Heap.state) (l' : Heap.loc) (d : DataFrame) :
  valid s → valid (Heap.mkState (<[l' := d]> (Heap.frames s)) (Heap.this s)).
Proof.
  intros [Hdf Hcl]. split; simpl.
  - set_solver.
  - intros l Hl. specialize (Hcl l Hl). set_solver.
Qed.

(** What [impute_missing_values] does to the store. *)
Lemma heap_impute_missing_values_run (cols : option (list string)) (method : string)
    (s : Heap.state) :
  let l' := fresh (dom (Heap.frames s)) in
  let d := Heap.frames s !!! Heap.df_ref (Heap.this s) in
  let cs := match cols with None => numeric_columns d | Some cs => cs end in
  Heap.impute_missing_values cols method s =
  match iterate (impute_column method) cs d with
  | Ok d1 =>
      (Ok l',
       Heap.mkState (<[l' := d1]> (Heap.frames s))
         (Heap.mkObject l' (Heap.df_cleaned_ref (Heap.this s))
            (Heap.flags (Heap.this s)) (Heap.report (Heap.this s))))
  | Raise e =>
      (Raise e,
       Heap.mkState (<[l' := iterate_last (impute_column method) cs d]> (Heap.frames s))
         (Heap.this s))
  end.
Proof.
  intros l' d cs.
  unfold Heap.impute_missing_values, bind at 1 2 3, get, Heap.read, Heap.copy.
  cbv zeta. fold l' d cs.
  unfold bind at 1. rewrite for_each_update by (simpl; set_solver).
  cbn [Heap.frames Heap.this]. rewrite lookup_total_insert_eq, insert_insert_eq.
  destruct (iterate (impute_column method) cs d) as [d1|e] eqn:Hit; [|done].
  by rewrite (iterate_last_Ok _ _ _ _ Hit).
Qed.

(** [impute_missing_values] on the store and on values. *)
Lemma impute_missing_values_refines (cols : option (list string)) (method : string)
    (s : Heap.state) :
  valid s →
  valid (Heap.impute_missing_values cols method s).2 ∧
  impute_missing_values cols method (view s) =
  (deref (Heap.impute_missing_values cols method s),
   view (Heap.impute_missing_values cols method s).2).
Proof.
  intros Hv. pose proof Hv as [Hdf Hcl].
  pose proof (is_fresh (dom (Heap.frames s))) as Hfresh.
  rewrite impute_missing_values_unfold, heap_impute_missing_values_run.
  cbv zeta. set (l' := fresh (dom (Heap.frames s))) in *.
  change (df (view s)) with (Heap.frames s !!! Heap.df_ref (Heap.this s)).
  set (d := Heap.frames s !!! Heap.df_ref (Heap.this s)).
  set (cs := match cols with None => numeric_columns d | Some cs => cs end).
  destruct (iterate (impute_column method) cs d) as [d1|e] eqn:Hit.
  - unfold deref. simpl. split.
    + split; simpl; [set_solver|]. intros l Hl. specialize (Hcl l Hl). set_solver.
    + rewrite lookup_total_insert_eq. f_equal. unfold view, set_df. simpl.
      rewrite lookup_total_insert_eq. f_equal.
      destruct (Heap.df_cleaned_ref (Heap.this s)) as [l0|] eqn:E; [|done]. simpl.
      f_equal. symmetry. apply lookup_total_insert_ne. intros ->.
      by apply Hfresh, Hcl.
  - unfold deref. simpl. split; [by apply valid_insert|].
    by rewrite view_insert_fresh.
Qed.

Lemma nrows_loc_set_true (mask : list bool) (name : string) (d : DataFrame) :
  nrows (loc_set_true mask name d) = nrows d.
Proof. unfold loc_set_true. by destruct (df_get name d) as [[]|]. Qed.

(** The loop of [detect_outliers] on the store and on values: the same
    outcome, the same entries of [outlier_flags], and on the store no frame
    but [l] changes. *)
Lemma detect_loop_refines (z : R) (l : Heap.loc) (cols : list string)
    (s s' : Heap.state) (sv sv' : SolarDataCleaner)
    (rh : result unit) (rv : result DataFrame) :
  l ∈ dom (Heap.frames s) →
  Heap.flags (Heap.this s) = outlier_flags sv →
  for_each (λ col _, Heap.detect_column z l col) cols tt s = (rh, s') →
  for_each (detect_column z) cols (Heap.frames s !!! l) sv = (rv, sv') →
  ∃ d' fl,
    s' = Heap.mkState (<[l := d']> (Heap.frames s))
           (Heap.mkObject (Heap.df_ref (Heap.this s)) (Heap.df_cleaned_ref (Heap.this s))
              fl (Heap.report (Heap.this s))) ∧
    sv' = mkCleaner (df sv) (df_cleaned sv) fl (cleaning_stats sv) ∧
    match rh, rv with
    | Ok _, Ok dv => dv = d'
    | Raise e, Raise e' => e = e'
    | _, _ => False
    end.
Proof.
  revert s sv. induction cols as [|col cols IH]; intros s sv Hl Hfl Hh Hv.
  - simpl in Hh, Hv. injection Hh as <- <-. injection Hv as <- <-.
    exists (Heap.frames s !!! l), (outlier_flags sv).
    rewrite insert_lookup_total_id by done. rewrite <- Hfl.
    split; [by destruct s as [? []]|]. split; [by rewrite Hfl; destruct sv|done].
  - simpl in Hh, Hv. unfold bind at 1 in Hh. unfold bind at 1 in Hv.
    unfold Heap.detect_column at 1 in Hh. unfold detect_column at 1 in Hv.
    unfold bind at 1, Heap.read in Hh.
    destruct (df_get col (Heap.frames s !!! l)) as [c|] eqn:Hget.
    + destruct (as_floats c) as [xs|e] eqn:Hc.
      * unfold bind at 1 2, lift, Heap.update, Heap.set_this in Hh.
        unfold bind at 1 2, lift, modify, ret at 1 in Hv.
        cbn -[for_each] in Hh, Hv.
        rewrite nrows_loc_set_true in Hv.
        set (mask := outlier_mask z xs) in *.
        set (d1 := loc_set_true mask "Outlier_Flag" (Heap.frames s !!! l)) in *.
        set (st := mkOutlierStat (mask_sum mask)
                     (percent (mask_sum mask) (nrows (Heap.frames s !!! l)))) in *.
        destruct (IH (Heap.mkState (<[l := d1]> (Heap.frames s))
                        (Heap.mkObject (Heap.df_ref (Heap.this s))
                           (Heap.df_cleaned_ref (Heap.this s))
                           (<[col := st]> (Heap.flags (Heap.this s)))
                           (Heap.report (Heap.this s))))
                    (set_outlier_flag col st sv))
          as (d' & fl & H1 & H2 & H3).
        { simpl. set_solver. }
        { simpl. by rewrite Hfl. }
        { exact Hh. }
        { simpl. rewrite lookup_total_insert_eq. exact Hv. }
        simpl in H1, H2. rewrite insert_insert_eq in H1.
        exists d', fl. done.
      * unfold bind, lift in Hh, Hv. simpl in Hh, Hv.
        injection Hh as <- <-. injection Hv as <- <-.
        exists (Heap.frames s !!! l), (outlier_flags sv).
        rewrite insert_lookup_total_id by done. rewrite <- Hfl.
        split; [by destruct s as [? []]|]. split; [by rewrite Hfl; destruct sv|done].
    + unfold ret at 1 in Hh. unfold ret at 1 in Hv. by apply (IH s sv).
Qed.

Lemma dom_insert_here (σ : gmap Heap.loc DataFrame) (l : Heap.loc) (d : DataFrame) :
  l ∈ dom (<[l := d]> σ).
Proof. rewrite dom_insert_L. apply elem_of_union. left. by apply elem_of_singleton. Qed.

Lemma dom_insert_there (σ : gmap Heap.loc DataFrame) (l l' : Heap.loc) (d : DataFrame) :
  l ∈ dom σ → l ∈ dom (<[l' := d]> σ).
Proof. intros H. rewrite dom_insert_L. apply elem_of_union. by right. Qed.

Lemma view_insert_other (s : Heap.state) (l' : Heap.loc) (d : DataFrame)
    (fl : gmap string outlier_stat) (rep : cleaning_report) :
  valid s → l' ∉ dom (Heap.frames s) →
  view (Heap.mkState (<[l' := d]> (Heap.frames s))
          (Heap.mkObject (Heap.df_ref (Heap.this s)) (Heap.df_cleaned_ref (Heap.this s))
             fl rep)) =
  mkCleaner (df (view s)) (df_cleaned (view s)) fl rep.
Proof.
  intros [Hdf Hcl] Hfresh. unfold view. simpl. f_equal.
  - apply lookup_total_insert_ne. intros ->. done.
  - destruct (Heap.df_cleaned_ref (Heap.this s)) as [l0|]; [|done]. simpl. f_equal.
    apply lookup_total_insert_ne. intros ->. by apply Hfresh, Hcl.
Qed.

Lemma view_insert_df (s : Heap.state) (l' : Heap.loc) (d : DataFrame)
    (fl : gmap string outlier_stat) (rep : cleaning_report) :
  valid s → l' ∉ dom (Heap.frames s) →
  view (Heap.mkState (<[l' := d]> (Heap.frames s))
          (Heap.mkObject l' (Heap.df_cleaned_ref (Heap.this s)) fl rep)) =
  mkCleaner d (df_cleaned (view s)) fl rep.
Proof.
  intros [Hdf Hcl] Hfresh. unfold view. simpl. f_equal.
  - apply lookup_total_insert_eq.
  - destruct (Heap.df_cleaned_ref (Heap.this s)) as [l0|]; [|done]. simpl. f_equal.
    apply lookup_total_insert_ne. intros ->. by apply Hfresh, Hcl.
Qed.

Lemma view_insert_df_cleaned (s : Heap.state) (l' : Heap.loc) (d : DataFrame)
    (fl : gmap string outlier_stat) (rep : cleaning_report) :
  valid s → l' ∉ dom (Heap.frames s) →
  view (Heap.mkState (<[l' := d]> (Heap.frames s))
          (Heap.mkObject (Heap.df_ref (Heap.this s)) (Some l') fl rep)) =
  mkCleaner (df (view s)) (Some d) fl rep.
Proof.
  intros [Hdf Hcl] Hfresh. unfold view. simpl. f_equal.
  - apply lookup_total_insert_ne. intros ->. done.
  - f_equal. apply lookup_total_insert_eq.
Qed.

Lemma valid_insert_refs (s : Heap.state) (l' : Heap.loc) (d : DataFrame)
    (o : Heap.object) :
  valid s →
  Heap.df_ref o = Heap.df_ref (Heap.this s) ∨ Heap.df_ref o = l' →
  (∀ l, Heap.df_cleaned_ref o = Some l →
        Heap.df_cleaned_ref (Heap.this s) = Some l ∨ l = l') →
  valid (Heap.mkState (<[l' := d]> (Heap.frames s)) o).
Proof.
  intros [Hdf Hcl] Ho1 Ho2. split; simpl.
  - destruct Ho1 as [-> | ->]; [by apply dom_insert_there | apply dom_insert_here].
  - intros l Hl. destruct (Ho2 l Hl) as [H | ->]; [|apply dom_insert_here].
    apply dom_insert_there. by apply Hcl.
Qed.

(** [detect_outliers] on the store and on values. *)
Lemma detect_outliers_refines (cols : list string) (z : R) (s : Heap.state) :
  valid s →
  valid (Heap.detect_outliers cols z s).2 ∧
  detect_outliers cols z (view s) =
  (deref (Heap.detect_outliers cols z s), view (Heap.detect_outliers cols z s).2).
Proof.
  intros Hv. pose proof (is_fresh (dom (Heap.frames s))) as Hfresh.
  destruct (Heap.detect_outliers cols z s) as [rh s'] eqn:Hh.
  destruct (detect_outliers cols z (view s)) as [rv sv'] eqn:Hval.
  unfold Heap.detect_outliers, bind at 1 2 3, get, Heap.copy, Heap.update in Hh.
  cbv zeta in Hh. cbn [Heap.frames Heap.this] in Hh.
  rewrite lookup_total_insert_eq, insert_insert_eq in Hh.
  unfold detect_outliers, bind at 1 2, get in Hval. cbv zeta in Hval.
  set (l' := fresh (dom (Heap.frames s))) in *.
  set (d0 := df_set "Outlier_Flag" _ _) in Hh.
  unfold bind at 1 in Hh.
  destruct (for_each _ cols tt _) as [r1 s1] eqn:Hloop in Hh.
  destruct (for_each (detect_column z) cols _ (view s)) as [r2 s2] eqn:Hloopv in Hval.
  destruct (detect_loop_refines z l' cols
              (Heap.mkState (<[l' := d0]> (Heap.frames s)) (Heap.this s))
              s1 (view s) s2 r1 r2
              (dom_insert_here _ _ _) eq_refl Hloop) as (d' & fl & -> & -> & Hres).
  { simpl. rewrite lookup_total_insert_eq. exact Hloopv. }
  simpl in *. rewrite insert_insert_eq in Hh.
  destruct r1 as [[]|e1], r2 as [dv|e2]; try done.
  - subst dv. unfold bind, Heap.set_this, modify, ret in Hh, Hval. simpl in Hh, Hval.
    injection Hh as <- <-. injection Hval as <- <-.
    split; [apply valid_insert_refs; [exact Hv|..]; simpl; [by right | intros l H; by left]|].
    unfold deref. simpl. rewrite lookup_total_insert_eq.
    by rewrite view_insert_df.
  - subst e2. injection Hh as <- <-. injection Hval as <- <-.
    split; [apply valid_insert_refs; [exact Hv|..]; simpl; [by left | intros l H; by left]|].
    unfold deref. simpl. by rewrite view_insert_other.
Qed.

(** What [cap_outliers] does to the store. *)
Lemma heap_cap_outliers_run (cols : list string) (z : R) (s : Heap.state) :
  let l' := fresh (dom (Heap.frames s)) in
  let d := Heap.frames s !!! Heap.df_ref (Heap.this s) in
  Heap.cap_outliers cols z s =
  match iterate (cap_column z) cols d with
  | Ok d1 =>
      (Ok l',
       Heap.mkState (<[l' := d1]> (Heap.frames s))
         (Heap.mkObject (Heap.df_ref (Heap.this s)) (Some l')
            (Heap.flags (Heap.this s)) (Heap.report (Heap.this s))))
  | Raise e =>
      (Raise e,
       Heap.mkState (<[l' := iterate_last (cap_column z) cols d]> (Heap.frames s))
         (Heap.this s))
  end.
Proof.
  intros l' d.
  unfold Heap.cap_outliers, bind at 1 2, get, Heap.copy.
  cbv zeta. fold l' d.
  unfold bind at 1. rewrite for_each_update by apply dom_insert_here.
  cbn [Heap.frames Heap.this]. rewrite lookup_total_insert_eq, insert_insert_eq.
  destruct (iterate (cap_column z) cols d) as [d1|e] eqn:Hit; [|done].
  by rewrite (iterate_last_Ok _ _ _ _ Hit).
Qed.

(** [cap_outliers] on the store and on values. *)
Lemma cap_outliers_refines (cols : list string) (z : R) (s : Heap.state) :
  valid s →
  valid (Heap.cap_outliers cols z s).2 ∧
  cap_outliers cols z (view s) =
  (deref (Heap.cap_outliers cols z s), view (Heap.cap_outliers cols z s).2).
Proof.
  intros Hv. pose proof (is_fresh (dom (Heap.frames s))) as Hfresh.
  rewrite cap_outliers_run, heap_cap_outliers_run. cbv zeta.
  change (df (view s)) with (Heap.frames s !!! Heap.df_ref (Heap.this s)).
  destruct (iterate (cap_column z) cols _) as [d1|e] eqn:Hit.
  - split; [apply valid_insert_refs; [exact Hv|..]; simpl; [by left | intros l [= <-]; by right]|].
    unfold deref. simpl. rewrite lookup_total_insert_eq.
    by rewrite view_insert_df_cleaned.
  - split; [by apply valid_insert|].
    unfold deref. simpl. by rewrite view_insert_fresh.
Qed.

Lemma valid_set_report (s : Heap.state) (rep : cleaning_report) :
  valid s →
  valid (Heap.mkState (Heap.frames s)
           (Heap.mkObject (Heap.df_ref (Heap.this s)) (Heap.df_cleaned_ref (Heap.this s))
              (Heap.flags (Heap.this s)) rep)).
Proof. by intros [? ?]. Qed.

(** [clean] on the store and on values. *)
Lemma clean_refines (ncols ocols : option (list string)) (method : string) (z : R)
    (s : Heap.state) :
  valid s →
  valid (Heap.clean ncols ocols method z s).2 ∧
  clean ncols ocols method z (view s) =
  (deref (Heap.clean ncols ocols method z s),
   view (Heap.clean ncols ocols method z s).2).
Proof.
  intros Hv.
  destruct (Heap.clean ncols ocols method z s) as [rh s'] eqn:Hh.
  destruct (clean ncols ocols method z (view s)) as [rv sv'] eqn:Hval.
  unfold Heap.clean in Hh. unfold clean in Hval.
  unfold bind at 1, Heap.detect_missing_values, bind at 1 2, get, Heap.read, ret at 1 in Hh.
  unfold bind at 1, Heap.set_this at 1 in Hh.
  unfold bind at 1 2 in Hh. cbn [Heap.frames Heap.this Heap.df_ref] in Hh.
  unfold bind at 1, detect_missing_values, bind at 1, get, ret at 1 in Hval.
  unfold bind at 1, modify at 1 in Hval. unfold bind at 1 in Hval.
  cbn [df set_cleaning_stats] in Hval.
  change (df (view s)) with (Heap.frames s !!! Heap.df_ref (Heap.this s)) in Hval.
  set (d := Heap.frames s !!! Heap.df_ref (Heap.this s)) in *.
  set (numeric := match ncols with None => numeric_columns d | Some cs => cs end) in *.
  set (outlier := match ocols with None => numeric | Some cs => cs end) in *.
  set (rep := mkReport (Some (missing_statistics (5 / 100) d))
                (outliers (Heap.report (Heap.this s)))
                (total_outliers (Heap.report (Heap.this s)))) in *.
  set (sa := Heap.mkState (Heap.frames s)
               (Heap.mkObject (Heap.df_ref (Heap.this s))
                  (Heap.df_cleaned_ref (Heap.this s)) (Heap.flags (Heap.this s)) rep)) in *.
  change (set_cleaning_stats _ (view s)) with (view sa) in Hval.
  assert (valid sa) as Hva by (by apply valid_set_report).
  unfold bind at 1 in Hh. unfold bind at 1 in Hval.
  destruct (impute_missing_values_refines (Some numeric) method sa Hva) as [Hvb Eb].
  rewrite Eb in Hval.
  destruct (Heap.impute_missing_values (Some numeric) method sa) as [r1 sb].
  unfold deref in Hval. cbn [fst snd] in *.
  destruct r1 as [l1|e1].
  2:{ injection Hh as <- <-. injection Hval as <- <-. done. }
  unfold bind at 1 in Hh. unfold bind at 1 in Hval.
  destruct (detect_outliers_refines outlier z sb Hvb) as [Hvc Ec].
  rewrite Ec in Hval.
  destruct (Heap.detect_outliers outlier z sb) as [r2 sc].
  unfold deref in Hval. cbn [fst snd] in *.
  destruct r2 as [l2|e2].
  2:{ injection Hh as <- <-. injection Hval as <- <-. done. }
  unfold bind at 1 in Hh. unfold bind at 1 in Hval.
  destruct (cap_outliers_refines outlier z sc Hvc) as [Hvd Ed].
  rewrite Ed in Hval.
  destruct (Heap.cap_outliers outlier z sc) as [r3 sd].
  unfold deref in Hval. cbn [fst snd] in *.
  destruct r3 as [l3|e3].
  2:{ injection Hh as <- <-. injection Hval as <- <-. done. }
  unfold bind at 1 2 3, get, Heap.read, lift in Hh.
  unfold bind at 1 2, get, lift in Hval.
  change (df (view sd)) with (Heap.frames sd !!! Heap.df_ref (Heap.this sd)) in Hval.
  destruct (flag_total (Heap.frames sd !!! Heap.df_ref (Heap.this sd))) as [total|e4].
  2:{ injection Hh as <- <-. injection Hval as <- <-. done. }
  unfold bind, Heap.set_this, get, modify, ret in Hh, Hval.
  cbn in Hh, Hval. injection Hh as <- <-. injection Hval as <- <-.
  split; [by apply valid_set_report|].
  unfold deref, view. cbn.
  by destruct (Heap.df_cleaned_ref (Heap.this sd)).
Qed.

(** The constructor on the store and on values. *)
Lemma init_refines (σ : gmap Heap.loc DataFrame) (l : Heap.loc) :
  valid (Heap.init l σ) ∧ view (Heap.init l σ) = init (σ !!! l).
Proof.
  unfold Heap.init, valid, view, init. simpl. split.
  - split; [apply dom_insert_here | done].
  - by rewrite lookup_total_insert_eq.
Qed.

(** [detect_missing_values] on the store and on values. *)
Lemma detect_missing_values_refines (threshold : R) (s : Heap.state) :
  Heap.detect_missing_values threshold s =
    (Ok (missing_statistics threshold (df (view s))), s) ∧
  detect_missing_values threshold (view s) =
    (Ok (missing_statistics threshold (df (view s))), view s).
Proof. done. Qed.

(** The references of the cleaner stay valid along any sequence of calls. *)
Lemma run_calls_valid (cs : list Heap.call) (s : Heap.state) :
  valid s → valid (Heap.run_calls cs s).
Proof.
  revert s. induction cs as [|c cs IH]; intros s Hv; [done|].
  unfold Heap.run_calls. simpl. apply IH.
  destruct c as [t|cols m|cols z|cols z|ncols ocols m z]; simpl.
  - done.
  - by apply impute_missing_values_refines.
  - by apply detect_outliers_refines.
  - by apply cap_outliers_refines.
  - by apply clean_refines.
Qed.

(** ** Imputation of several columns *)

Lemma fill_value_unknown (method : string) (c : column) :
  ¬ valid_method method → fill_value method c = Raise ValueError.
Proof.
  intros Hm. unfold fill_value.
  destruct (String.eqb_spec method "median") as [->|_].
  { exfalso. apply Hm. by left. }
  destruct (String.eqb_spec method "mean") as [->|_].
  { exfalso. apply Hm. right. by left. }
  destruct (String.eqb_spec method "mode") as [->|_]; [|done].
  exfalso. apply Hm. right. by right.
Qed.

Lemma impute_loop_unknown (method : string) (cols : list string) (d : DataFrame) :
  ¬ valid_method method →
  iterate (impute_column method) cols d =
  if existsb (λ col, has_column col d) cols then Raise ValueError else Ok d.
Proof.
  intros Hm. induction cols as [|col cols IH]; [done|].
  simpl. unfold impute_column, has_column.
  destruct (df_get col d) as [c|]; simpl.
  - by rewrite fill_value_unknown.
  - apply IH.
Qed.

Lemma set_df_same (self : SolarDataCleaner) : set_df (df self) self = self.
Proof. by destruct self. Qed.

(** X1: with a method other than ['median'], ['mean'] and ['mode'],
    [impute_missing_values] raises [ValueError] as soon as one of the columns
    it is to impute is a column of the working table, whatever the dtype of
    that column, and leaves the cleaner as it was.  When none of the named
    columns is in the table, the unknown method goes unnoticed: the call
    returns the working table unchanged. *)
Theorem impute_unknown_method (self : SolarDataCleaner) (cols : option (list string))
    (method : string) :
  ¬ valid_method method →
  let names := match cols with
               | None => numeric_columns (df self)
               | Some cs => cs
               end in
  impute_missing_values cols method self =
  if existsb (λ col, has_column col (df self)) names
  then (Raise ValueError, self)
  else (Ok (df self), self).
Proof.
  intros Hm names. unfold impute_missing_values, bind, get. cbn [fst snd].
  fold names. rewrite for_each_lift, (impute_loop_unknown _ _ _ Hm).
  destruct (existsb _ names); [done|].
  unfold modify, ret. by rewrite set_df_same.
Qed.

Lemma impute_unknown_method_witness :
  impute_missing_values (Some ["DNI"; "GHI"]%string) "average"
    (init (mkDataFrame 1 [("GHI"%string, Floats [None])])) =
  (Raise ValueError, init (mkDataFrame 1 [("GHI"%string, Floats [None])])) ∧
  impute_missing_values (Some ["DNI"]%string) "average"
    (init (mkDataFrame 1 [("GHI"%string, Floats [None])])) =
  (Ok (mkDataFrame 1 [("GHI"%string, Floats [None])]),
   init (mkDataFrame 1 [("GHI"%string, Floats [None])])).
Proof.
  assert (¬ valid_method "average") as Hm.
  { intros [H | [H | H] ]; discriminate H. }
  split.
  - exact (impute_unknown_method
             (init (mkDataFrame 1 [("GHI"%string, Floats [None])]))
             (Some ["DNI"; "GHI"]%string) "average" Hm).
  - exact (impute_unknown_method
             (init (mkDataFrame 1 [("GHI"%string, Floats [None])]))
             (Some ["DNI"]%string) "average" Hm).
Defined.

Lemma fill_of_spec (method : string) (xs : list (option R)) :
  valid_method method → fill_value method (Floats xs) = Ok (fill_of method xs).
Proof. intros [-> | [-> | ->] ]; done. Qed.

Lemma fillna_without_null (v : option R) (xs : list (option R)) :
  count_na xs = 0%nat → fillna v xs = xs.
Proof.
  intros Hn. destruct v as [x|]; [|done]. unfold fillna.
  induction xs as [|o xs IH]; [done|].
  unfold count_na in Hn. destruct o as [y|].
  - rewrite filter_cons_False in Hn by done. rewrite fmap_cons. simpl.
    f_equal. by apply IH.
  - rewrite filter_cons_True in Hn by done. done.
Qed.

Lemma dropna_nil_all_null (xs : list (option R)) :
  dropna xs = [] ↔ xs = replicate (length xs) None.
Proof.
  unfold dropna. induction xs as [|o xs IH]; [done|].
  destruct o as [x|]; simpl.
  - split; intros [=].
  - rewrite IH. split; [intros <-; done | by intros [= ?] ].
Qed.

Lemma median_nil (xs : list (option R)) : dropna xs = [] → median xs = None.
Proof. intros H. unfold median. rewrite H. done. Qed.

Lemma mean_nil (xs : list (option R)) : dropna xs = [] → mean xs = None.
Proof. intros H. unfold mean. by rewrite H. Qed.

Lemma mean_is_Some (xs : list (option R)) :
  dropna xs ≠ [] → ∃ m, mean xs = Some m.
Proof. intros H. unfold mean. destruct (dropna xs); [done|]. by eexists. Qed.

(** The fill value is a number when the column has a non-null value, and
    for the mode in any case. *)
Lemma fill_of_is_Some (method : string) (xs : list (option R)) :
  valid_method method → dropna xs ≠ [] ∨ method = "mode"%string →
  ∃ x, fill_of method xs = Some x.
Proof.
  intros [-> | [-> | ->] ] H; unfold fill_of, fill_value; simpl.
  - destruct H as [H|H]; [|done]. apply (median_is_Some xs H).
  - destruct H as [H|H]; [|done]. apply (mean_is_Some xs H).
  - by eexists.
Qed.

Lemma fill_of_all_null (method : string) (xs : list (option R)) :
  dropna xs = [] →
  fill_of method xs = if String.eqb method "mode" then Some 0 else None.
Proof.
  intros H. unfold fill_of, fill_value.
  destruct (String.eqb_spec method "median") as [->|_].
  { simpl. by apply median_nil. }
  destruct (String.eqb_spec method "mean") as [->|_].
  { simpl. by apply mean_nil. }
  destruct (String.eqb_spec method "mode") as [->|_]; [|done].
  simpl. by rewrite (mode_empty xs H).
Qed.

(** Filling a filled column again changes nothing. *)
Lemma fillna_settled (method : string) (xs : list (option R)) :
  fillna (fill_of method (fillna (fill_of method xs) xs)) (fillna (fill_of method xs) xs)
  = fillna (fill_of method xs) xs.
Proof.
  destruct (fill_of method xs) as [x|] eqn:Hv.
  - apply fillna_without_null, count_na_fillna.
  - simpl. by rewrite Hv.
Qed.

Lemma imputed_column_settled (method : string) (c : column) :
  imputed_column method (imputed_column method c) = imputed_column method c.
Proof. destruct c as [xs| | |]; try done. simpl. by rewrite fillna_settled. Qed.

Lemma impute_column_floats (method col : string) (d : DataFrame) (xs : list (option R)) :
  valid_method method → df_get col d = Some (Floats xs) →
  impute_column method col d = Ok (df_set col (imputed_column method (Floats xs)) d).
Proof.
  intros Hm Hget. unfold impute_column. rewrite Hget.
  by rewrite (fill_of_spec method xs Hm).
Qed.

(** The loop of [impute_missing_values] on float columns: it returns, the
    named columns are filled, each with the fill value of its own content,
    and nothing else changes. *)
Lemma impute_loop_spec (method : string) (cols : list string) (d : DataFrame) :
  valid_method method → all_floats cols d →
  ∃ d1, iterate (impute_column method) cols d = Ok d1 ∧
        nrows d1 = nrows d ∧
        ∀ c, df_get c d1 =
             if decide (c ∈ cols) then imputed_column method <$> df_get c d
             else df_get c d.
Proof.
  intros Hm. revert d. induction cols as [|col cols IH]; intros d Hall.
  - exists d. split; [done|]. split; [done|]. intros c.
    rewrite decide_False; [done | apply not_elem_of_nil].
  - apply Forall_cons in Hall as [Hcol Hall]. simpl.
    destruct (df_get col d) as [c0|] eqn:Hget.
    + destruct (Hcol c0 eq_refl) as [xs ->].
      rewrite (impute_column_floats _ _ _ xs Hm Hget).
      set (d' := df_set col (imputed_column method (Floats xs)) d).
      destruct (IH d') as (d1 & Hrun & Hrows & Hcols).
      { eapply all_floats_mono; [apply floats_or_same_set | done]. }
      exists d1. split; [done|]. split; [done|]. intros c. rewrite Hcols.
      destruct (decide (c = col)) as [->|Hne].
      * unfold d'. rewrite df_get_set_eq, Hget.
        rewrite (decide_True (P := col ∈ col :: cols)) by left.
        destruct (decide (col ∈ cols)); [|done].
        cbn [fmap option_fmap option_map]. by rewrite imputed_column_settled.
      * unfold d'. rewrite df_get_set_ne by done.
        destruct (decide (c ∈ cols)) as [Hin|Hin].
        -- rewrite decide_True; [done | by right].
        -- rewrite decide_False; [done|].
           intros [?|?]%elem_of_cons; contradiction.
    + unfold impute_column. rewrite Hget.
      destruct (IH d Hall) as (d1 & Hrun & Hrows & Hcols).
      exists d1. split; [done|]. split; [done|]. intros c. rewrite Hcols.
      destruct (decide (c = col)) as [->|Hne].
      * rewrite Hget. by repeat case_decide.
      * destruct (decide (c ∈ cols)) as [Hin|Hin].
        -- rewrite decide_True; [done | by right].
        -- rewrite decide_False; [done|].
           intros [?|?]%elem_of_cons; contradiction.
Qed.

Lemma length_fillna (v : option R) (xs : list (option R)) :
  length (fillna v xs) = length xs.
Proof. destruct v; [apply length_fmap | done]. Qed.

Lemma fillna_keeps_values (v : option R) (xs : list (option R)) (i : nat) (x : R) :
  xs !! i = Some (Some x) → fillna v xs !! i = Some (Some x).
Proof.
  intros H. destruct v as [y|]; [|done]. unfold fillna.
  by rewrite list_lookup_fmap, H.
Qed.

Lemma fillna_all_null (x : R) (xs : list (option R)) :
  dropna xs = [] → fillna (Some x) xs = replicate (length xs) (Some x).
Proof.
  intros H. apply dropna_nil_all_null in H. rewrite H at 1. unfold fillna.
  by rewrite fmap_replicate.
Qed.

(** X2: [impute_missing_values] with one of the three methods, on any list
    of float columns: the call returns and stores the returned table as the
    working table; the table keeps its rows and every column that is not
    named; a named column has its nulls replaced by the fill value of the
    method, taken from the non-null values of that column, and keeps its
    non-null cells; no null remains in it when the column has a non-null
    value, and with ['mode'] in any case, where a column without any value is
    filled with 0; with ['median'] and ['mean'] a column without any value is
    left as it is, all null. *)
Theorem impute_fills_named_columns (self : SolarDataCleaner) (cols : list string)
    (method : string) :
  valid_method method → all_floats cols (df self) →
  ∃ T' : DataFrame,
    impute_missing_values (Some cols) method self = (Ok T', set_df T' self) ∧
    nrows T' = nrows (df self) ∧
    (∀ D, D ∉ cols → df_get D T' = df_get D (df self)) ∧
    ∀ C xs, C ∈ cols → df_get C (df self) = Some (Floats xs) →
      ∃ (v : option R) (ys : list (option R)),
        fill_value method (Floats xs) = Ok v ∧
        df_get C T' = Some (Floats ys) ∧
        ys = fillna v xs ∧
        length ys = length xs ∧
        (∀ i x, xs !! i = Some (Some x) → ys !! i = Some (Some x)) ∧
        (dropna xs ≠ [] ∨ method = "mode"%string → count_na ys = 0%nat) ∧
        (dropna xs = [] → method = "mode"%string →
         ys = replicate (length xs) (Some 0)) ∧
        (dropna xs = [] → method ≠ "mode"%string → ys = xs).
Proof.
  intros Hm Hall.
  destruct (impute_loop_spec method cols (df self) Hm Hall) as (T' & Hrun & Hrows & Hcols).
  exists T'. split; [by rewrite impute_missing_values_run, Hrun|].
  split; [done|]. split.
  { intros D HD. rewrite Hcols. by rewrite decide_False. }
  intros C xs HC Hget. exists (fill_of method xs), (fillna (fill_of method xs) xs).
  split; [by apply fill_of_spec|]. split.
  { rewrite Hcols, decide_True, Hget by done. done. }
  split; [done|]. split; [apply length_fillna|].
  split; [intros i x; apply fillna_keeps_values|]. split; [|split].
  - intros H. destruct (fill_of_is_Some method xs Hm H) as [x ->].
    apply count_na_fillna.
  - intros Hnil ->. rewrite (fill_of_all_null _ _ Hnil). simpl.
    by apply fillna_all_null.
  - intros Hnil Hne. rewrite (fill_of_all_null _ _ Hnil).
    destruct (String.eqb_spec method "mode"); done.
Qed.

Lemma impute_fills_named_columns_witness :
  ∃ T' : DataFrame,
    impute_missing_values (Some ["GHI"; "DNI"]%string) "mode"
      (init (mkDataFrame 2 [("GHI"%string, Floats [None; Some 4]);
                              ("DNI"%string, Floats [None; None])])) =
    (Ok T',
     set_df T'
       (init (mkDataFrame 2 [("GHI"%string, Floats [None; Some 4]);
                               ("DNI"%string, Floats [None; None])]))) ∧
    df_get "DNI" T' = Some (Floats [Some 0; Some 0]).
Proof.
  destruct (impute_fills_named_columns
              (init (mkDataFrame 2 [("GHI"%string, Floats [None; Some 4]);
                                      ("DNI"%string, Floats [None; None])]))
              ["GHI"; "DNI"]%string "mode")
    as (T' & Hrun & _ & _ & Hcols).
  - right. right. reflexivity.
  - repeat constructor.
    + intros c [= <-]. eexists. reflexivity.
    + intros c [= <-]. eexists. reflexivity.
  - exists T'. split; [exact Hrun|].
    destruct (Hcols "DNI"%string [None; None])
      as (v & ys & _ & Hget & _ & _ & _ & _ & Hzero & _).
    + apply elem_of_cons. right. apply elem_of_cons. left. reflexivity.
    + reflexivity.
    + rewrite Hget. rewrite (Hzero eq_refl eq_refl). reflexivity.
Defined.

(** A table in which the named columns are settled is what the loop of
    [impute_missing_values] returns for it. *)
Lemma impute_loop_settled (method : string) (cols : list string) (d : DataFrame) :
  valid_method method →
  Forall (λ col, ∀ c, df_get col d = Some c →
                      ∃ xs, c = Floats xs ∧ fillna (fill_of method xs) xs = xs) cols →
  iterate (impute_column method) cols d = Ok d.
Proof.
  intros Hm. induction 1 as [|col cols Hcol _ IH]; [done|].
  simpl. destruct (df_get col d) as [c|] eqn:Hget.
  - destruct (Hcol c eq_refl) as (xs & -> & Hxs).
    rewrite (impute_column_floats _ _ _ xs Hm Hget). simpl. rewrite Hxs.
    by rewrite (df_set_id _ _ _ Hget).
  - unfold impute_column. by rewrite Hget.
Qed.

(** X3: imputation is repeatable.  After [impute_missing_values] has
    returned, the same call on the same cleaner returns the same table and
    leaves the cleaner as it is: a filled column has no null left to fill, and
    a column without any value gets the same fill value again. *)
Theorem impute_missing_values_twice (self : SolarDataCleaner) (cols : list string)
    (method : string) :
  valid_method method → all_floats cols (df self) →
  ∃ T' : DataFrame,
    impute_missing_values (Some cols) method self = (Ok T', set_df T' self) ∧
    impute_missing_values (Some cols) method (set_df T' self) =
    (Ok T', set_df T' self).
Proof.
  intros Hm Hall.
  destruct (impute_loop_spec method cols (df self) Hm Hall) as (T' & Hrun & Hrows & Hcols).
  exists T'. split; [by rewrite impute_missing_values_run, Hrun|].
  rewrite impute_missing_values_run. cbn [df set_df].
  rewrite impute_loop_settled; [done | done |].
  apply Forall_forall. intros col Hin c. rewrite Hcols, decide_True by done.
  destruct (df_get col (df self)) as [c0|] eqn:Hget; [|done].
  destruct (proj1 (Forall_forall _ _) Hall col Hin c0 Hget) as [xs ->].
  intros [= <-]. eexists. split; [done|]. apply fillna_settled.
Qed.

Lemma impute_missing_values_twice_witness :
  ∃ T' : DataFrame,
    impute_missing_values (Some ["GHI"]%string) "mean"
      (init (mkDataFrame 2 [("GHI"%string, Floats [None; Some 4])])) =
    (Ok T', set_df T' (init (mkDataFrame 2 [("GHI"%string, Floats [None; Some 4])]))) ∧
    impute_missing_values (Some ["GHI"]%string) "mean"
      (set_df T' (init (mkDataFrame 2 [("GHI"%string, Floats [None; Some 4])]))) =
    (Ok T', set_df T' (init (mkDataFrame 2 [("GHI"%string, Floats [None; Some 4])]))).
Proof.
  apply (impute_missing_values_twice
           (init (mkDataFrame 2 [("GHI"%string, Floats [None; Some 4])]))
           ["GHI"]%string "mean").
  - right. left. reflexivity.
  - repeat constructor. intros c [= <-]. eexists. reflexivity.
Defined.

(** ** How large a score can be *)














(** ** Repeated detection *)

Lemma record_flags_lookup_other (t : R) (d : DataFrame) (cols : list string)
    (fl : gmap string outlier_stat) (c : string) :
  c ∉ cols → record_flags t d cols fl !! c = fl !! c.
Proof.
  revert fl. induction cols as [|col cols IH]; intros fl Hc; [done|].
  apply not_elem_of_cons in Hc as [Hne Hc].
  rewrite record_flags_cons, IH by done.
  destruct (column_mask t d col); [|done]. by rewrite lookup_insert_ne.
Qed.

(** X5: every call of [detect_outliers] starts from a column [Outlier_Flag]
    that is false in every row: the table a call returns does not depend on
    the calls of [detect_outliers] made before it on the same cleaner, with
    whatever columns and threshold.  The dictionary [outlier_flags] is not
    reset: the entry of a column that the later call does not process is the
    one an earlier call wrote. *)
Theorem detect_outliers_resets_flags (self : SolarDataCleaner)
    (cols cols' : list string) (t t' : R) :
  float_columns cols (df self) → float_columns cols' (df self) →
  ∃ (T1 T2 : DataFrame) (s1 s2 : SolarDataCleaner),
    detect_outliers cols t self = (Ok T1, s1) ∧
    detect_outliers cols' t' s1 = (Ok T2, s2) ∧
    (detect_outliers cols' t' self).1 = Ok T2 ∧
    ∀ c, c ∉ cols' → outlier_flags s2 !! c = outlier_flags s1 !! c.
Proof.
  intros Hcols Hcols'.
  pose proof (detect_outliers_run cols t self Hcols) as Hrun1. simpl in Hrun1.
  pose proof (detect_outliers_run cols' t' self Hcols') as Hrun. simpl in Hrun.
  eexists _, _, _, _. split; [exact Hrun1|].
  rewrite detect_outliers_run by (by apply float_columns_df_set).
  cbn [df outlier_flags df_cleaned cleaning_stats].
  rewrite nrows_df_set, masks_df_set, df_set_set, record_flags_df_set by done.
  split; [done|]. split; [by rewrite Hrun|].
  intros c Hc. cbn [outlier_flags]. by apply record_flags_lookup_other.
Qed.

Lemma detect_outliers_resets_flags_witness :
  ∃ (T1 T2 : DataFrame) (s1 s2 : SolarDataCleaner),
    detect_outliers ["GHI"%string] 1
      (init (mkDataFrame 2 [("GHI"%string, Floats [Some 1; Some 2]);
                              ("DNI"%string, Floats [Some 4; Some 4])])) = (Ok T1, s1) ∧
    detect_outliers ["DNI"%string] 3 s1 = (Ok T2, s2) ∧
    outlier_flags s2 !! "GHI"%string = outlier_flags s1 !! "GHI"%string.
Proof.
  destruct (detect_outliers_resets_flags
              (init (mkDataFrame 2 [("GHI"%string, Floats [Some 1; Some 2]);
                                      ("DNI"%string, Floats [Some 4; Some 4])]))
              ["GHI"%string] ["DNI"%string] 1 3)
    as (T1 & T2 & s1 & s2 & H1 & H2 & _ & Hkeep).
  - repeat constructor; [discriminate|]. intros c [= <-]. eexists. reflexivity.
  - repeat constructor; [discriminate|]. intros c [= <-]. eexists. reflexivity.
  - exists T1, T2, s1, s2. split; [exact H1|]. split; [exact H2|].
    apply Hkeep. intros Hin. apply list_elem_of_singleton in Hin. discriminate Hin.
Defined.

(** ** What capping does to a column *)

Lemma length_clip (lo hi : option R) (xs : list (option R)) :
  length (clip lo hi xs) = length xs.
Proof. apply length_fmap. Qed.


Lemma count_na_clip (lo hi : option R) (xs : list (option R)) :
  count_na (clip lo hi xs) = count_na xs.
Proof.
  unfold count_na, clip. induction xs as [|o xs IH]; [done|].
  rewrite fmap_cons. destruct o as [x|].
  - change (clip_value lo hi <$> Some x) with (Some (clip_value lo hi x)).
    rewrite !filter_cons_False by done. apply IH.
  - change (clip_value lo hi <$> None) with (@None R).
    rewrite !filter_cons_True by done. cbn [length]. by rewrite IH.
Qed.





Lemma cap_loop_nrows (t : R) (cols : list string) (d d' : DataFrame) :
  iterate (cap_column t) cols d = Ok d' → nrows d' = nrows d.
Proof.
  revert d. induction cols as [|col cols IH]; intros d; simpl.
  - by intros [= <-].
  - unfold cap_column. destruct (df_get col d) as [c|]; [|apply IH].
    destruct (as_floats c) as [xs|e]; [|done].
    intros H. apply IH in H. by rewrite H.
Qed.









(** ** The names of the columns *)

Lemma assoc_get_is_Some {V} (name : string) (l : list (string * V)) :
  is_Some (assoc_get name l) ↔ name ∈ l.*1.
Proof.
  split.
  - intros [v Hv]. by apply assoc_get_elem_of in Hv.
  - induction l as [|[k v] l IH]; simpl.
    + intros H. by apply elem_of_nil in H.
    + destruct (String.eqb_spec k name) as [->|Hne]; [by eexists|].
      intros [?|?]%elem_of_cons; [congruence | by apply IH].
Qed.

Lemma has_column_true (name : string) (d : DataFrame) :
  has_column name d = true ↔ name ∈ (columns d).*1.
Proof.
  unfold has_column, df_get. rewrite <- assoc_get_is_Some.
  destruct (assoc_get name (columns d)); split; done.
Qed.

Lemma has_column_false (name : string) (d : DataFrame) :
  has_column name d = false ↔ name ∉ (columns d).*1.
Proof.
  rewrite <- has_column_true. destruct (has_column name d); split; try done.
Qed.

Lemma assoc_set_names_present {V} (k : string) (v : V) (l : list (string * V)) :
  k ∈ l.*1 → (assoc_set k v l).*1 = l.*1.
Proof.
  induction l as [|[k0 v0] l IH]; simpl.
  - intros H. by apply elem_of_nil in H.
  - destruct (String.eqb_spec k0 k) as [->|Hne]; [done|].
    intros [?|?]%elem_of_cons; [congruence|]. simpl. f_equal. by apply IH.
Qed.

Lemma assoc_set_names_absent {V} (k : string) (v : V) (l : list (string * V)) :
  k ∉ l.*1 → (assoc_set k v l).*1 = l.*1 ++ [k].
Proof.
  induction l as [|[k0 v0] l IH]; simpl; [done|].
  intros [Hne Hk]%not_elem_of_cons.
  destruct (String.eqb_spec k0 k) as [->|_]; [done|]. simpl. f_equal. by apply IH.
Qed.

Lemma df_set_names_present (name : string) (c c' : column) (d : DataFrame) :
  df_get name d = Some c' → (columns (df_set name c d)).*1 = (columns d).*1.
Proof.
  intros H. apply assoc_set_names_present. apply assoc_get_is_Some. by eexists.
Qed.

(** The loops of imputation and of capping assign to columns that exist:
    the table keeps its columns and their order. *)
Lemma impute_loop_names (method : string) (cols : list string) (d d' : DataFrame) :
  iterate (impute_column method) cols d = Ok d' → (columns d').*1 = (columns d).*1.
Proof.
  revert d. induction cols as [|col cols IH]; intros d; simpl.
  - by intros [= <-].
  - unfold impute_column. destruct (df_get col d) as [c|] eqn:Hget; [|apply IH].
    destruct (fill_value method c) as [v|e]; [|done].
    intros H. apply IH in H. rewrite H. by eapply df_set_names_present.
Qed.

Lemma cap_loop_names (t : R) (cols : list string) (d d' : DataFrame) :
  iterate (cap_column t) cols d = Ok d' → (columns d').*1 = (columns d).*1.
Proof.
  revert d. induction cols as [|col cols IH]; intros d; simpl.
  - by intros [= <-].
  - unfold cap_column. destruct (df_get col d) as [c|] eqn:Hget; [|apply IH].
    destruct (as_floats c) as [xs|e]; [|done].
    intros H. apply IH in H. rewrite H. by eapply df_set_names_present.
Qed.

(** ** The pipeline on named columns *)

Lemma float_columns_all_floats (cols : list string) (d : DataFrame) :
  float_columns cols d → all_floats cols d.
Proof. intros H. eapply Forall_impl; [exact H|]. by intros col [_ ?]. Qed.

Lemma float_columns_not_flag (cols : list string) (d : DataFrame) :
  float_columns cols d → "Outlier_Flag"%string ∉ cols.
Proof.
  intros H Hin. apply (proj1 (Forall_forall _ _) H) in Hin as [Hne _]. done.
Qed.

(** [clean] on float columns: the imputed table [d1], the table returned,
    and the outcome. *)
Lemma clean_general_run (self : SolarDataCleaner) (ncols ocols : option (list string))
    (method : string) (t : R) :
  let numeric := match ncols with
                 | None => numeric_columns (df self)
                 | Some cs => cs
                 end in
  let outlier := match ocols with None => numeric | Some cs => cs end in
  valid_method method →
  float_columns numeric (df self) → float_columns outlier (df self) → NoDup outlier →
  ∃ d1 capped : DataFrame,
    let flags := foldl or_mask (replicate (nrows d1) false)
                   (omap (column_mask t d1) outlier) in
    let flagged := df_set "Outlier_Flag" (Bools flags) d1 in
    nrows d1 = nrows (df self) ∧
    (columns d1).*1 = (columns (df self)).*1 ∧
    (∀ c, df_get c d1 =
          if decide (c ∈ numeric) then imputed_column method <$> df_get c (df self)
          else df_get c (df self)) ∧
    nrows capped = nrows d1 ∧
    (columns capped).*1 = (columns flagged).*1 ∧
    (∀ c, c ∉ outlier → df_get c capped = df_get c flagged) ∧
    (∀ c xs, c ∈ outlier → df_get c flagged = Some (Floats xs) →
             df_get c capped =
             Some (Floats (clip (lower_bound t xs) (upper_bound t xs) xs))) ∧
    clean ncols ocols method t self =
    (Ok capped,
     mkCleaner flagged (Some capped)
       (record_flags t d1 outlier (outlier_flags self))
       (mkReport (Some (missing_statistics (5 / 100) (df self))) true
          (Some (mask_sum flags)))).
Proof.
  intros numeric outlier Hm Hnum Hout Hnd.
  destruct (impute_loop_spec method numeric (df self) Hm
              (float_columns_all_floats _ _ Hnum)) as (d1 & Hrun1 & Hrows1 & Hcols1).
  assert (float_columns outlier d1) as Hout1.
  { apply Forall_forall. intros col Hin.
    destruct (proj1 (Forall_forall _ _) Hout col Hin) as [Hne Hfl].
    split; [done|]. intros c. rewrite Hcols1.
    destruct (df_get col (df self)) as [c0|] eqn:Hget.
    - destruct (Hfl c0 eq_refl) as [xs ->].
      case_decide; intros [= <-]; by eexists.
    - by case_decide. }
  set (flags := foldl or_mask (replicate (nrows d1) false)
                  (omap (column_mask t d1) outlier)).
  destruct (cap_columns_total t outlier
              (df_set "Outlier_Flag" (Bools flags) d1)
              (float_columns_df_set _ _ _ Hout1) Hnd)
    as (capped & Hcap & Hother & Hin).
  exists d1, capped. cbn zeta. fold flags.
  split; [done|]. split; [by apply impute_loop_names in Hrun1|]. split; [done|].
  split; [by apply cap_loop_nrows in Hcap|].
  split; [by apply cap_loop_names in Hcap|].
  split; [done|]. split; [done|].
  apply (clean_run self ncols ocols method t d1 capped); done.
Qed.

(** X8: the whole of [clean] on float columns, with one of the three
    methods and distinct outlier columns.  The call returns the capped table
    and stores it in [self.df_cleaned]; the table has the rows of the input
    and a boolean column [Outlier_Flag], the one of the working table; the
    report holds the missing-value statistics of the table as it was before
    imputation, the key ['outliers'], and under ['total_outliers'] the number
    of rows whose flag is true.  Every imputed column that had a non-null
    value (with ['mode'], every imputed column) is without null in the
    returned table, and a column that is neither imputed nor capped is as it
    was. *)
Theorem clean_fills_and_caps (self : SolarDataCleaner) (ncols ocols : option (list string))
    (method : string) (t : R) :
  let numeric := match ncols with
                 | None => numeric_columns (df self)
                 | Some cs => cs
                 end in
  let outlier := match ocols with None => numeric | Some cs => cs end in
  valid_method method →
  float_columns numeric (df self) → float_columns outlier (df self) → NoDup outlier →
  ∃ (capped : DataFrame) (self' : SolarDataCleaner) (flags : list bool),
    clean ncols ocols method t self = (Ok capped, self') ∧
    df_cleaned self' = Some capped ∧
    nrows capped = nrows (df self) ∧
    df_get "Outlier_Flag" capped = Some (Bools flags) ∧
    df_get "Outlier_Flag" (df self') = Some (Bools flags) ∧
    length flags = nrows (df self) ∧
    cleaning_stats self' =
      mkReport (Some (missing_statistics (5 / 100) (df self))) true
        (Some (mask_sum flags)) ∧
    (∀ c xs, c ∈ numeric → df_get c (df self) = Some (Floats xs) →
       dropna xs ≠ [] ∨ method = "mode"%string →
       ∃ ys, df_get c capped = Some (Floats ys) ∧
             length ys = length xs ∧ count_na ys = 0%nat) ∧
    (∀ c, c ∉ numeric → c ∉ outlier → c ≠ "Outlier_Flag"%string →
          df_get c capped = df_get c (df self)).
Proof.
  intros numeric outlier Hm Hnum Hout Hnd.
  destruct (clean_general_run self ncols ocols method t Hm Hnum Hout Hnd)
    as (d1 & capped & Hrows1 & _ & Hcols1 & Hrowsc & _ & Hother & Hin & Hrun).
  cbn zeta in Hother, Hin, Hrun. fold numeric outlier in Hcols1, Hother, Hin, Hrun.
  set (flags := foldl or_mask (replicate (nrows d1) false)
                  (omap (column_mask t d1) outlier)) in *.
  eexists capped, _, flags. split; [exact Hrun|].
  pose proof (float_columns_not_flag _ _ Hout) as Hflag.
  split; [done|]. split; [congruence|].
  split; [by rewrite Hother, df_get_set_eq|].
  split; [apply df_get_set_eq|].
  split; [unfold flags; by rewrite length_foldl_or_mask, length_replicate|].
  split; [done|]. split.
  - intros c xs Hc Hget Hval.
    destruct (proj1 (Forall_forall _ _) Hnum c Hc) as [Hne _].
    destruct (fill_of_is_Some method xs Hm Hval) as [x Hx].
    assert (df_get c (df_set "Outlier_Flag" (Bools flags) d1)
            = Some (Floats (fillna (Some x) xs))) as Hfl.
    { rewrite df_get_set_ne by done. rewrite Hcols1, decide_True, Hget by done.
      simpl. by rewrite Hx. }
    destruct (decide (c ∈ outlier)) as [Hco|Hco].
    + eexists. split; [by apply Hin|].
      rewrite length_clip, count_na_clip, length_fillna.
      split; [done | apply count_na_fillna].
    + eexists. split; [by rewrite Hother|].
      rewrite length_fillna. split; [done | apply count_na_fillna].
  - intros c Hcn Hco Hne. rewrite Hother, df_get_set_ne by done.
    rewrite Hcols1. by rewrite decide_False.
Qed.

Lemma clean_fills_and_caps_witness :
  ∃ (capped : DataFrame) (self' : SolarDataCleaner) (flags : list bool),
    clean (Some ["GHI"; "DNI"]%string) (Some ["GHI"]%string) "median" 3
      (init (mkDataFrame 2 [("GHI"%string, Floats [Some 1; None]);
                              ("DNI"%string, Floats [Some 4; Some 5])])) =
    (Ok capped, self') ∧
    df_get "Outlier_Flag" capped = Some (Bools flags) ∧
    length flags = 2%nat.
Proof.
  destruct (clean_fills_and_caps
              (init (mkDataFrame 2 [("GHI"%string, Floats [Some 1; None]);
                                      ("DNI"%string, Floats [Some 4; Some 5])]))
              (Some ["GHI"; "DNI"]%string) (Some ["GHI"]%string) "median" 3)
    as (capped & self' & flags & Hrun & _ & _ & Hflag & _ & Hlen & _).
  - left. reflexivity.
  - repeat constructor; try discriminate.
    + intros c [= <-]. eexists. reflexivity.
    + intros c [= <-]. eexists. reflexivity.
  - repeat constructor; [discriminate|]. intros c [= <-]. eexists. reflexivity.
  - repeat constructor. intros Hin. apply elem_of_nil in Hin. exact Hin.
  - exists capped, self', flags. split; [exact Hrun|]. split; [exact Hflag | exact Hlen].
Defined.

Lemma all_values_without_null (xs : list (option R)) :
  count_na xs = 0%nat → ∃ v, all_values xs = Some v.
Proof.
  unfold count_na, all_values. induction xs as [|o xs IH]; [by eexists|].
  destruct o as [x|].
  - rewrite filter_cons_False by done. intros H. destruct (IH H) as [v Hv].
    exists (x :: v). simpl. by rewrite Hv.
  - by rewrite filter_cons_True.
Qed.

(** X9: inside [clean], detection follows imputation, so the columns it
    looks at have no null left and the mask of the code is the mask of the
    specification.  When the outlier columns are among the imputed float
    columns and each has a non-null value (or the method is ['mode']), the
    flag of a row of the returned table is true exactly when, for one of the
    outlier columns, the absolute population Z-score of the imputed value of
    that row exceeds the threshold. *)
Theorem clean_flags_follow_specification (self : SolarDataCleaner)
    (ncols ocols : option (list string)) (method : string) (t : R) :
  let numeric := match ncols with
                 | None => numeric_columns (df self)
                 | Some cs => cs
                 end in
  let outlier := match ocols with None => numeric | Some cs => cs end in
  valid_method method →
  float_columns numeric (df self) → float_columns outlier (df self) → NoDup outlier →
  (∀ c, c ∈ outlier → c ∈ numeric) →
  (∀ c xs, c ∈ outlier → df_get c (df self) = Some (Floats xs) →
           dropna xs ≠ [] ∨ method = "mode"%string) →
  ∃ (capped : DataFrame) (self' : SolarDataCleaner) (flags : list bool),
    clean ncols ocols method t self = (Ok capped, self') ∧
    df_get "Outlier_Flag" capped = Some (Bools flags) ∧
    ∀ i, flags !! i = Some true ↔
         (i < nrows (df self))%nat ∧
         ∃ c ys, c ∈ outlier ∧ df_get c (df self') = Some (Floats ys) ∧
                 spec_outlier_mask t ys !! i = Some true.
Proof.
  intros numeric outlier Hm Hnum Hout Hnd Hsub Hval.
  destruct (clean_general_run self ncols ocols method t Hm Hnum Hout Hnd)
    as (d1 & capped & Hrows1 & _ & Hcols1 & Hrowsc & _ & Hother & Hin & Hrun).
  cbn zeta in Hother, Hin, Hrun. fold numeric outlier in Hcols1, Hother, Hin, Hrun.
  set (flags := foldl or_mask (replicate (nrows d1) false)
                  (omap (column_mask t d1) outlier)) in *.
  eexists capped, _, flags. split; [exact Hrun|].
  pose proof (float_columns_not_flag _ _ Hout) as Hflag.
  split; [by rewrite Hother, df_get_set_eq|].
  assert (∀ c ys, c ∈ outlier → df_get c d1 = Some (Floats ys) →
                  outlier_mask t ys = spec_outlier_mask t ys) as Hspec.
  { intros c ys Hc. rewrite Hcols1, decide_True by (by apply Hsub).
    destruct (df_get c (df self)) as [c0|] eqn:Hget; [|done].
    destruct (proj1 (Forall_forall _ _) Hout c Hc) as [_ Hfl].
    destruct (Hfl c0 Hget) as [xs ->]. simpl. intros [= <-].
    destruct (fill_of_is_Some method xs Hm (Hval c xs Hc Hget)) as [x ->].
    destruct (all_values_without_null _ (count_na_fillna x xs)) as [v Hv].
    by apply (outlier_mask_no_nulls t _ v). }
  intros i. cbn [df]. unfold flags.
  rewrite foldl_or_mask_lookup, length_replicate, Hrows1. split.
  - intros [H|(Hi & mask & Hmask & Hm')].
    { apply lookup_replicate in H as [? _]. done. }
    split; [done|]. apply elem_of_masks in Hmask as (c & ys & Hc & Hget & ->).
    exists c, ys. split; [done|]. split.
    + rewrite df_get_set_ne; [done|]. intros <-. done.
    + by rewrite <- (Hspec c ys Hc Hget).
  - intros (Hi & c & ys & Hc & Hget & Hm'). right. split; [done|].
    rewrite df_get_set_ne in Hget by (intros <-; done).
    exists (outlier_mask t ys). split.
    + apply elem_of_masks. by exists c, ys.
    + by rewrite (Hspec c ys Hc Hget).
Qed.

Lemma clean_flags_follow_specification_witness :
  ∃ (capped : DataFrame) (self' : SolarDataCleaner) (flags : list bool),
    clean (Some ["GHI"]%string) None "median" 3
      (init (mkDataFrame 2 [("GHI"%string, Floats [Some 1; None])])) =
    (Ok capped, self') ∧
    df_get "Outlier_Flag" capped = Some (Bools flags).
Proof.
  destruct (clean_flags_follow_specification
              (init (mkDataFrame 2 [("GHI"%string, Floats [Some 1; None])]))
              (Some ["GHI"]%string) None "median" 3)
    as (capped & self' & flags & Hrun & Hflag & _).
  - left. reflexivity.
  - repeat constructor; [discriminate|]. intros c [= <-]. eexists. reflexivity.
  - repeat constructor; [discriminate|]. intros c [= <-]. eexists. reflexivity.
  - repeat constructor. intros Hin. apply elem_of_nil in Hin. exact Hin.
  - intros c Hc. exact Hc.
  - intros c xs Hc. apply list_elem_of_singleton in Hc. subst c.
    intros [= <-]. left. discriminate.
  - exists capped, self', flags. split; [exact Hrun | exact Hflag].
Defined.

(** ** Missing values *)

Lemma exceeds_percent (threshold : R) (n total : nat) :
  exceeds (threshold * 100) (percent n total) = true ↔
  total ≠ 0%nat ∧ threshold * INR total < INR n.
Proof.
  unfold percent. case_decide as Htot; simpl.
  - split; [done | by intros [? _] ].
  - rewrite Rgtb_true.
    assert (0 < INR total) as Hpos by (apply lt_0_INR; lia).
    set (q := INR n / INR total).
    assert (INR n = q * INR total) as -> by (unfold q; field; lra).
    split.
    + intros H. split; [done|]. apply Rmult_lt_compat_r; [done | lra].
    + intros [_ H]. apply Rmult_lt_reg_r in H; [lra | done].
Qed.

Lemma sum_zero (l : list nat) :
  foldr Nat.add 0%nat l = 0%nat ↔ ∀ n, n ∈ l → n = 0%nat.
Proof.
  induction l as [|k l IH]; simpl.
  - split; [intros _ n Hn; by apply elem_of_nil in Hn | done].
  - split.
    + intros H n [->|Hn]%elem_of_cons; [lia|]. apply IH; [lia | done].
    + intros H. rewrite (H k) by left. apply IH. intros n Hn. apply H. by right.
Qed.

(** X10: [detect_missing_values] changes nothing in the cleaner.  Its total
    is zero exactly when no column holds a null.  A column is reported under
    ['high_missing_columns'] exactly when the table has a row and the number
    of nulls of the column exceeds [threshold] times the number of rows, and
    it is reported with its percentage of nulls; a table without rows reports
    no column. *)
Theorem detect_missing_values_report (self : SolarDataCleaner) (threshold : R) :
  ∃ st : missing_stats,
    detect_missing_values threshold self = (Ok st, self) ∧
    (total_missing st = 0%nat ↔
     ∀ name c, (name, c) ∈ columns (df self) → col_count_na c = 0%nat) ∧
    (∀ name pct,
       (name, pct) ∈ high_missing_columns st ↔
       ∃ c, (name, c) ∈ columns (df self) ∧
            nrows (df self) ≠ 0%nat ∧
            threshold * INR (nrows (df self)) < INR (col_count_na c) ∧
            pct = Some (INR (col_count_na c) / INR (nrows (df self)) * 100)) ∧
    (nrows (df self) = 0%nat → high_missing_columns st = []).
Proof.
  exists (missing_statistics threshold (df self)). split; [done|].
  unfold missing_statistics. cbn [total_missing high_missing_columns]. split; [|split].
  - rewrite sum_zero. split.
    + intros H name c Hin. apply H.
      apply list_elem_of_fmap. exists (name, col_count_na c). split; [done|].
      apply list_elem_of_fmap. by exists (name, c).
    + intros H n Hn.
      apply list_elem_of_fmap in Hn as ([name k] & -> & Hn).
      apply list_elem_of_fmap in Hn as ([name' c] & Heq & Hn).
      injection Heq as -> ->. by apply (H name').
  - intros name pct. rewrite list_elem_of_filter. split.
    + intros [Hex Hin].
      apply list_elem_of_fmap in Hin as ([name1 k] & Heq & Hin).
      injection Heq as -> ->.
      apply list_elem_of_fmap in Hin as ([name2 c] & Heq & Hin).
      injection Heq as -> ->.
      cbn [fst snd] in *. apply exceeds_percent in Hex as [Hn Hlt].
      exists c. split; [done|]. split; [done|]. split; [done|].
      unfold percent. by rewrite decide_False.
    + intros (c & Hin & Hn & Hlt & ->). split.
      * cbn [snd].
        pose proof (proj2 (exceeds_percent threshold (col_count_na c) (nrows (df self)))
                      (conj Hn Hlt)) as H.
        unfold percent in H. by rewrite decide_False in H.
      * apply list_elem_of_fmap. exists (name, col_count_na c). split.
        { cbn [fst snd]. unfold percent. by rewrite decide_False. }
        apply list_elem_of_fmap. by exists (name, c).
  - intros Hrows. rewrite Hrows.
    induction (columns (df self)) as [|nc l IH]; [done|].
    rewrite !fmap_cons, filter_cons_False; [exact IH|].
    cbn [fst snd]. unfold percent. rewrite decide_True by done. done.
Qed.

(** ** The exporter *)

Lemma assoc_get_without {V} (labels : list string) (name : string)
    (l : list (string * V)) :
  assoc_get name (filter (λ nc : string * V, nc.1 ∉ labels) l) =
  if decide (name ∈ labels) then None else assoc_get name l.
Proof.
  induction l as [|[k v] l IH].
  - by case_decide.
  - destruct (decide (k ∈ labels)) as [Hk|Hk].
    + rewrite filter_cons_False by (cbn [fst]; tauto). rewrite IH. simpl.
      destruct (String.eqb_spec k name) as [->|Hne]; [|done].
      by destruct (decide (name ∈ labels)).
    + rewrite filter_cons_True by done. simpl.
      destruct (String.eqb_spec k name) as [->|Hne]; [|exact IH].
      by destruct (decide (name ∈ labels)).
Qed.

Lemma names_without {V} (labels : list string) (l : list (string * V)) :
  (filter (λ nc : string * V, nc.1 ∉ labels) l).*1 =
  filter (λ name, name ∉ labels) l.*1.
Proof.
  induction l as [|[k v] l IH]; [done|].
  rewrite fmap_cons. cbn [fst]. destruct (decide (k ∈ labels)).
  - rewrite !filter_cons_False by (cbn [fst]; tauto). done.
  - rewrite !filter_cons_True by done. rewrite fmap_cons. by f_equal.
Qed.

Lemma filter_ext_in {A} (P Q : A → Prop) `{∀ x, Decision (P x)} `{∀ x, Decision (Q x)}
    (l : list A) :
  (∀ x, x ∈ l → P x ↔ Q x) → filter P l = filter Q l.
Proof.
  induction l as [|x l IH]; intros Hl; [done|].
  assert (filter P l = filter Q l) as IH'.
  { apply IH. intros y Hy. apply Hl. by right. }
  assert (P x ↔ Q x) as Hx' by (apply Hl; left).
  destruct (decide (P x)) as [Hx|Hx].
  - rewrite (filter_cons_True P) by done.
    rewrite (filter_cons_True Q) by tauto. by f_equal.
  - rewrite (filter_cons_False P) by done.
    by rewrite (filter_cons_False Q) by tauto.
Qed.

Lemma drop_present (labels : list string) (d : DataFrame) :
  (∀ label, label ∈ labels → has_column label d = true) →
  drop labels d =
  Ok (mkDataFrame (nrows d)
        (filter (λ nc : string * column, nc.1 ∉ labels) (columns d))).
Proof.
  intros H. unfold drop.
  assert (forallb (λ label, has_column label d) labels = true) as ->; [|done].
  induction labels as [|label labels IH]; [done|]. simpl.
  rewrite (H label) by left. simpl. apply IH. intros l Hl. apply H. by right.
Qed.

(** The table [remove_temp_columns] leaves: the columns whose name is not in
    the list. *)
Lemma remove_temp_columns_run (temp_columns : option (list string))
    (s : Exporter.state) :
  let temp := match temp_columns with
              | None => Exporter.default_temp_columns
              | Some cs => cs
              end in
  let d := Exporter.df (Exporter.this s) in
  let d' := mkDataFrame (nrows d)
              (filter (λ nc : string * column, nc.1 ∉ temp) (columns d)) in
  Exporter.remove_temp_columns temp_columns s =
  (Ok d', Exporter.mkState (Exporter.mkExporter d') (Exporter.files s)).
Proof.
  intros temp d d'. unfold Exporter.remove_temp_columns, bind, get. cbn [fst snd].
  fold temp d. rewrite drop_present.
  - unfold lift, modify, ret. cbn [Exporter.files].
    assert (filter (λ nc : string * column,
                      nc.1 ∉ filter (λ col, has_column col d = true) temp) (columns d)
            = filter (λ nc : string * column, nc.1 ∉ temp) (columns d)) as ->; [|done].
    apply filter_ext_in. intros [k c] Hin. cbn [fst].
    rewrite list_elem_of_filter.
    assert (has_column k d = true) as Hk.
    { apply has_column_true. apply list_elem_of_fmap. by exists (k, c). }
    split; [intros Hn Ht; by apply Hn | intros Hn [_ Ht]; by apply Hn].
  - intros label Hl. by apply list_elem_of_filter in Hl as [? _].
Qed.

(** X11: [remove_temp_columns] never fails.  Whatever list of names it is
    given, and with the default list (Hour, Month, Day, WD_bin, Outlier_Flag)
    when it is given none, it returns the table of the exporter without the
    columns of a listed name, and makes it the table of the exporter: the rows
    are kept, the other columns are kept in their order, a listed name that is
    no column is skipped.  A second call with the same list changes
    nothing. *)
Theorem remove_temp_columns_never_fails (temp_columns : option (list string))
    (s : Exporter.state) :
  let temp := match temp_columns with
              | None => Exporter.default_temp_columns
              | Some cs => cs
              end in
  let d := Exporter.df (Exporter.this s) in
  ∃ (d' : DataFrame) (s' : Exporter.state),
    Exporter.remove_temp_columns temp_columns s = (Ok d', s') ∧
    Exporter.df (Exporter.this s') = d' ∧
    Exporter.files s' = Exporter.files s ∧
    nrows d' = nrows d ∧
    (columns d').*1 = filter (λ name, name ∉ temp) (columns d).*1 ∧
    (∀ name, name ∈ temp → df_get name d' = None) ∧
    (∀ name, name ∉ temp → df_get name d' = df_get name d) ∧
    Exporter.remove_temp_columns temp_columns s' = (Ok d', s').
Proof.
  intros temp d. eexists _, _. split; [apply remove_temp_columns_run|].
  cbn [Exporter.df Exporter.this Exporter.files nrows columns]. fold temp d.
  split; [done|]. split; [done|]. split; [done|].
  split; [apply names_without|].
  split; [|split].
  - intros name Hin. unfold df_get. cbn [columns].
    rewrite assoc_get_without. by rewrite decide_True.
  - intros name Hin. unfold df_get. cbn [columns].
    rewrite assoc_get_without. by rewrite decide_False.
  - rewrite remove_temp_columns_run.
    cbn [Exporter.df Exporter.this Exporter.files nrows columns]. fold temp.
    by rewrite list_filter_filter_l by tauto.
Qed.

Lemma export_run (output_path : string) (remove_temp : bool)
    (temp_columns : option (list string)) (index : bool) (s : Exporter.state) :
  let temp := match temp_columns with
              | None => Exporter.default_temp_columns
              | Some cs => cs
              end in
  let d := Exporter.df (Exporter.this s) in
  let d' := if remove_temp
            then mkDataFrame (nrows d)
                   (filter (λ nc : string * column, nc.1 ∉ temp) (columns d))
            else d in
  Exporter.export output_path remove_temp temp_columns index s =
  (Ok output_path,
   Exporter.mkState (Exporter.mkExporter d')
     (<[output_path := mkCsv index d']> (Exporter.files s))).
Proof.
  intros temp d d'. unfold Exporter.export. destruct remove_temp.
  - unfold bind at 1 2. rewrite remove_temp_columns_run. by cbn.
  - by destruct s as [ [?] ?].
Qed.

Lemma filter_all {A} (P : A → Prop) `{∀ x, Decision (P x)} (l : list A) :
  (∀ x, x ∈ l → P x) → filter P l = l.
Proof.
  induction l as [|x l IH]; intros Hl; [done|].
  rewrite filter_cons_True by (apply Hl; left). f_equal.
  apply IH. intros y Hy. apply Hl. by right.
Qed.

Lemma df_get_None (name : string) (d : DataFrame) :
  df_get name d = None ↔ name ∉ (columns d).*1.
Proof.
  rewrite <- has_column_false. unfold has_column. by destruct (df_get name d).
Qed.

(** X12: cleaning, then exporting with the defaults.  For a table that has
    none of the temporary columns, [export_cleaned_data] applied to the table
    [clean] returns writes one file, at the path given, and leaves the other
    files as they are; the table written has the rows of the input and
    exactly the columns of the input, in their order; its cells are those of
    the cleaned table, and the flag column [Outlier_Flag] that [clean] added
    is not written. *)
Theorem clean_then_export (self : SolarDataCleaner) (ncols ocols : option (list string))
    (method : string) (t : R) (output_path : string) (index : bool)
    (fs : gmap string csv_file) :
  let numeric := match ncols with
                 | None => numeric_columns (df self)
                 | Some cs => cs
                 end in
  let outlier := match ocols with None => numeric | Some cs => cs end in
  valid_method method →
  float_columns numeric (df self) → float_columns outlier (df self) → NoDup outlier →
  (∀ name, name ∈ Exporter.default_temp_columns → has_column name (df self) = false) →
  ∃ (capped : DataFrame) (self' : SolarDataCleaner) (written : DataFrame),
    clean ncols ocols method t self = (Ok capped, self') ∧
    Exporter.export_cleaned_data capped output_path true None index fs =
    (Ok output_path, <[output_path := mkCsv index written]> fs) ∧
    nrows written = nrows (df self) ∧
    (columns written).*1 = (columns (df self)).*1 ∧
    (∀ name, name ≠ "Outlier_Flag"%string → df_get name written = df_get name capped) ∧
    df_get "Outlier_Flag" written = None.
Proof.
  intros numeric outlier Hm Hnum Hout Hnd Htemp.
  destruct (clean_general_run self ncols ocols method t Hm Hnum Hout Hnd)
    as (d1 & capped & Hrows1 & Hnames1 & _ & Hrowsc & Hnamesc & _ & _ & Hrun).
  cbn zeta in Hnamesc, Hrun. fold numeric outlier in Hnamesc, Hrun.
  set (flags := foldl or_mask (replicate (nrows d1) false)
                  (omap (column_mask t d1) outlier)) in *.
  assert ((columns capped).*1 = (columns (df self)).*1 ++ ["Outlier_Flag"%string])
    as Hnames.
  { rewrite Hnamesc. cbn [df_set columns]. rewrite assoc_set_names_absent.
    - by rewrite Hnames1.
    - rewrite Hnames1. apply has_column_false, Htemp.
      unfold Exporter.default_temp_columns. set_solver. }
  eexists capped, _, _. split; [exact Hrun|].
  unfold Exporter.export_cleaned_data, Exporter.init. rewrite export_run.
  cbn [fst snd Exporter.files Exporter.this Exporter.df].
  split; [done|]. cbn [nrows columns]. split; [congruence|]. split; [|split].
  - rewrite names_without, Hnames, filter_app.
    rewrite filter_all.
    + rewrite filter_cons_False; [by rewrite app_nil_r|].
      intros Hn. apply Hn. unfold Exporter.default_temp_columns. set_solver.
    + intros name Hname Hin. apply Htemp in Hin. by apply has_column_false in Hin.
  - intros name Hne. unfold df_get at 1. cbn [columns]. rewrite assoc_get_without.
    case_decide as Hin; [|done]. symmetry. apply df_get_None. rewrite Hnames.
    intros [Hd|Hf]%elem_of_app.
    + apply Htemp in Hin. by apply has_column_false in Hin.
    + by apply list_elem_of_singleton in Hf.
  - unfold df_get. cbn [columns]. rewrite assoc_get_without.
    rewrite decide_True; [done|]. unfold Exporter.default_temp_columns. set_solver.
Qed.

Lemma clean_then_export_witness :
  ∃ (capped : DataFrame) (self' : SolarDataCleaner) (written : DataFrame),
    clean (Some ["GHI"]%string) None "median" 3
      (init (mkDataFrame 2 [("GHI"%string, Floats [Some 1; None])])) =
    (Ok capped, self') ∧
    Exporter.export_cleaned_data capped "data/benin_clean.csv" true None false ∅ =
    (Ok "data/benin_clean.csv"%string,
     <["data/benin_clean.csv"%string := mkCsv false written]> ∅) ∧
    (columns written).*1 = ["GHI"%string].
Proof.
  destruct (clean_then_export
              (init (mkDataFrame 2 [("GHI"%string, Floats [Some 1; None])]))
              (Some ["GHI"]%string) None "median" 3 "data/benin_clean.csv" false ∅)
    as (capped & self' & written & Hrun & Hexp & _ & Hnames & _).
  - left. reflexivity.
  - repeat constructor; [discriminate|]. intros c [= <-]. eexists. reflexivity.
  - repeat constructor; [discriminate|]. intros c [= <-]. eexists. reflexivity.
  - repeat constructor. intros Hin. apply elem_of_nil in Hin. exact Hin.
  - intros name Hin. unfold Exporter.default_temp_columns in Hin.
    repeat (apply elem_of_cons in Hin as [->|Hin]; [reflexivity|]).
    apply elem_of_nil in Hin. destruct Hin.
  - exists capped, self', written. split; [exact Hrun|]. split; [exact Hexp|].
    exact Hnames.
Defined.

(** ** The loader *)

Lemma assoc_get_without_one {V} (label name : string) (l : list (string * V)) :
  assoc_get name (filter (λ nc : string * V, nc.1 ≠ label) l) =
  if decide (name = label) then None else assoc_get name l.
Proof.
  induction l as [|[k v] l IH].
  - by case_decide.
  - destruct (decide (k = label)) as [Hk|Hk].
    + rewrite filter_cons_False by (cbn [fst]; tauto). rewrite IH. simpl.
      destruct (String.eqb_spec k name) as [<-|Hne]; [|done].
      by destruct (decide (k = label)).
    + rewrite filter_cons_True by done. simpl.
      destruct (String.eqb_spec k name) as [<-|Hne]; [|exact IH].
      by destruct (decide (k = label)).
Qed.

Lemma names_without_one {V} (label : string) (l : list (string * V)) :
  (filter (λ nc : string * V, nc.1 ≠ label) l).*1 =
  filter (λ name, name ≠ label) l.*1.
Proof.
  induction l as [|[k v] l IH]; [done|].
  rewrite fmap_cons. cbn [fst]. destruct (decide (k = label)).
  - rewrite !filter_cons_False by (cbn [fst]; tauto). done.
  - rewrite !filter_cons_True by done. rewrite fmap_cons. by f_equal.
Qed.



(** X14: a successful [load] and the [set_time_index] that follows it.
    [load] returns the table of the file with the timestamp column replaced,
    in its place, by the converted one, and stores it in [self.df]: same
    rows, same columns in the same order, every other column as read.
    [set_time_index] on the same column then returns; the index of the table
    it returns is the converted column, the other columns are those of the
    loaded table in their order, and [self.df] still has the timestamp
    column: the indexed table is stored in [self.df_indexed] only. *)
Theorem load_then_set_time_index (read_csv : string → option DataFrame)
    (to_datetime : column → option column) (timestamp_col : string)
    (self s1 : Loader.SolarDataLoader) (T : DataFrame) :
  Loader.load read_csv to_datetime timestamp_col self = (Ok T, s1) →
  ∃ (d : DataFrame) (c c' : column) (ix : IndexedFrame),
    read_csv (Loader.data_path self) = Some d ∧
    df_get timestamp_col d = Some c ∧ to_datetime c = Some c' ∧
    T = df_set timestamp_col c' d ∧
    s1 = Loader.set_df T self ∧
    nrows T = nrows d ∧
    (columns T).*1 = (columns d).*1 ∧
    (∀ name, name ≠ timestamp_col → df_get name T = df_get name d) ∧
    Loader.set_time_index timestamp_col s1 =
      (Ok ix, Loader.mkLoader (Loader.data_path s1) (Some T) (Some ix)) ∧
    index_name ix = timestamp_col ∧ index ix = c' ∧
    nrows (data ix) = nrows d ∧
    (columns (data ix)).*1 = filter (λ name, name ≠ timestamp_col) (columns d).*1 ∧
    df_get timestamp_col (data ix) = None ∧
    ∀ name, name ≠ timestamp_col → df_get name (data ix) = df_get name d.
Proof.
  unfold Loader.load, bind, get. cbn [fst snd].
  destruct (read_csv (Loader.data_path self)) as [d|] eqn:Hread; [|done].
  unfold modify at 1. cbn [fst snd].
  destruct (df_get timestamp_col d) as [c|] eqn:Hget; [|done].
  destruct (to_datetime c) as [c'|] eqn:Hconv; [|done].
  unfold modify, ret. intros [= <- <-].
  assert ((columns (df_set timestamp_col c' d)).*1 = (columns d).*1) as Hnames.
  { by eapply df_set_names_present. }
  eexists d, c, c', _. split; [done|]. split; [done|]. split; [done|].
  split; [done|]. split; [by destruct self|]. split; [done|]. split; [done|].
  split; [intros name Hne; by apply df_get_set_ne|].
  split.
  { unfold Loader.set_time_index, bind, get.
    cbn [fst snd Loader.df Loader.set_df Loader.data_path Loader.df_indexed].
    unfold lift, set_index. rewrite df_get_set_eq. done. }
  cbn [index_name index data nrows columns].
  split; [done|]. split; [done|]. split; [done|].
  split; [by rewrite names_without_one, Hnames|].
  split.
  - unfold df_get. cbn [columns]. rewrite assoc_get_without_one. by rewrite decide_True.
  - intros name Hne. unfold df_get at 1. cbn [columns].
    rewrite assoc_get_without_one, decide_False by done.
    by apply df_get_set_ne.
Qed.

Lemma load_then_set_time_index_witness :
  ∃ ix : IndexedFrame,
    (Loader.set_time_index "Timestamp"
       (Loader.load
          (λ path, Some (mkDataFrame 1 [("Timestamp"%string, Objects [Some (VStr "2021")]);
                                         ("GHI"%string, Floats [Some 1])]))
          (λ c, Some (Datetimes [Some 0%Z])) "Timestamp" (Loader.init "benin.csv")).2).1
    = Ok ix ∧
    index ix = Datetimes [Some 0%Z].
Proof.
  destruct (load_then_set_time_index
              (λ path, Some (mkDataFrame 1 [("Timestamp"%string, Objects [Some (VStr "2021")]);
                                             ("GHI"%string, Floats [Some 1])]))
              (λ c, Some (Datetimes [Some 0%Z])) "Timestamp" (Loader.init "benin.csv")
              _ _ eq_refl)
    as (d & c & c' & ix & _ & _ & Hconv & _ & _ & _ & _ & _ & Hrun & _ & Hix & _).
  exists ix. split; [exact (f_equal fst Hrun)|].
  rewrite Hix. injection Hconv as <-. reflexivity.
Defined.

(** ** The dashboard's filter *)

Lemma select_fmap {A B} (f : A → B) (mask : list bool) (l : list A) :
  select mask (f <$> l) = f <$> select mask l.
Proof.
  revert l. induction mask as [|m mask IH]; intros [|x l]; try done.
  rewrite fmap_cons. simpl. destruct m; [rewrite fmap_cons; f_equal|]; apply IH.
Qed.

Lemma select_by (f : option value → bool) (l : list (option value)) :
  select (f <$> l) l = filter (λ o, f o = true) l.
Proof.
  induction l as [|x l IH]; [done|].
  rewrite fmap_cons. simpl. destruct (f x) eqn:Hx.
  - rewrite filter_cons_True by done. by f_equal.
  - rewrite filter_cons_False; [done|]. by rewrite Hx.
Qed.

Lemma mask_sum_fmap {A} (f : A → bool) (l : list A) :
  mask_sum (f <$> l) = length (filter (λ x, f x = true) l).
Proof.
  unfold mask_sum. induction l as [|x l IH]; [done|].
  rewrite fmap_cons. destruct (f x) eqn:Hx.
  - rewrite !filter_cons_True by done. simpl. by rewrite IH.
  - rewrite !filter_cons_False; [done | by rewrite Hx | done].
Qed.

Lemma select_nil {A} (mask : list bool) : select mask (@nil A) = [].
Proof. by destruct mask as [|[] ?]. Qed.

Lemma select_selected {A} (mask : list bool) (l : list A) :
  select (select mask mask) (select mask l) = select mask l.
Proof.
  revert l. induction mask as [|m mask IH]; intros [|x l]; try done.
  - rewrite !select_nil. done.
  - simpl. destruct m; simpl; [f_equal|]; apply IH.
Qed.

Lemma select_self (mask : list bool) :
  select mask mask = replicate (mask_sum mask) true.
Proof.
  unfold mask_sum. induction mask as [|m mask IH]; [done|]. simpl. destruct m.
  - rewrite filter_cons_True by done. simpl. by f_equal.
  - by rewrite filter_cons_False.
Qed.

Lemma mask_sum_cons (m : bool) (mask : list bool) :
  mask_sum (m :: mask) = ((if m then 1 else 0) + mask_sum mask)%nat.
Proof.
  unfold mask_sum. destruct m.
  - by rewrite filter_cons_True.
  - by rewrite filter_cons_False.
Qed.

Lemma mask_sum_take_le (n : nat) (mask : list bool) :
  (mask_sum (take n mask) ≤ mask_sum mask)%nat.
Proof.
  revert n. induction mask as [|m mask IH]; intros [|n]; simpl; try done.
  - unfold mask_sum. simpl. lia.
  - rewrite !mask_sum_cons. specialize (IH n). lia.
Qed.

Lemma mask_sum_all_true (k : nat) : mask_sum (replicate k true) = k.
Proof.
  induction k as [|k IH]; [done|]. simpl. rewrite mask_sum_cons, IH. done.
Qed.

Lemma to_object_cells_select (mask : list bool) (c : column) :
  to_object_cells (select_column mask c) = select mask (to_object_cells c).
Proof. destruct c; simpl; try done; by rewrite select_fmap. Qed.

Lemma select_column_selected (mask : list bool) (c : column) :
  select_column (select mask mask) (select_column mask c) = select_column mask c.
Proof. destruct c; simpl; by rewrite select_selected. Qed.

(** X15: [filter_data_by_countries] with a list of site names that is not
    empty, on a table whose column [Country] holds one tag per row: the rows
    kept are those whose tag is one of the names, in their order.  The column
    [Country] of the result holds the tags that are among the names, every
    other column the cells of the same rows, and the table keeps its columns
    and their order. *)
Theorem filter_data_by_countries_rows (d : DataFrame) (selected : list string)
    (tags : list (option value)) :
  selected ≠ [] →
  df_get "Country" d = Some (Objects tags) →
  length tags = nrows d →
  ∃ T : DataFrame,
    filter_data_by_countries d selected = Ok T ∧
    df_get "Country" T =
      Some (Objects (filter (λ o, is_in selected o = true) tags)) ∧
    nrows T = length (filter (λ o, is_in selected o = true) tags) ∧
    (∀ o, o ∈ filter (λ o, is_in selected o = true) tags →
          ∃ s, o = Some (VStr s) ∧ s ∈ selected) ∧
    (columns T).*1 = (columns d).*1 ∧
    ∀ name c, df_get name d = Some c →
      df_get name T = Some (select_column (is_in selected <$> tags) c).
Proof.
  intros Hsel Hget Hlen. unfold filter_data_by_countries. rewrite Hget.
  destruct selected as [|s0 sel]; [done|]. set (selected := s0 :: sel) in *.
  unfold isin. cbn [to_object_cells]. eexists. split; [done|].
  split; [|split; [|split; [|split] ] ].
  - rewrite df_get_select_rows, Hget. simpl. by rewrite select_by.
  - cbn [select_rows nrows]. rewrite take_ge by (by rewrite length_fmap, Hlen).
    apply mask_sum_fmap.
  - intros o Ho. apply list_elem_of_filter in Ho as [Ho _].
    destruct o as [ [ | |s| ] | ]; try done.
    exists s. split; [done|]. by apply bool_decide_eq_true in Ho.
  - cbn [select_rows columns]. rewrite <- list_fmap_compose.
    by apply list_fmap_ext.
  - intros name c Hc. by rewrite df_get_select_rows, Hc.
Qed.

Lemma filter_data_by_countries_rows_witness :
  ∃ T : DataFrame,
    filter_data_by_countries
      (mkDataFrame 3 [("Country"%string,
                       Objects [Some (VStr "Togo"); Some (VStr "Benin"); Some (VStr "Togo")]);
                      ("GHI"%string, Floats [Some 1; Some 2; Some 3])])
      ["Togo"%string] = Ok T ∧
    nrows T = 2%nat ∧
    df_get "GHI" T = Some (Floats [Some 1; Some 3]).
Proof.
  destruct (filter_data_by_countries_rows
              (mkDataFrame 3 [("Country"%string,
                               Objects [Some (VStr "Togo"); Some (VStr "Benin");
                                        Some (VStr "Togo")]);
                              ("GHI"%string, Floats [Some 1; Some 2; Some 3])])
              ["Togo"%string]
              [Some (VStr "Togo"); Some (VStr "Benin"); Some (VStr "Togo")])
    as (T & Hrun & _ & Hrows & _ & _ & Hcols).
  - discriminate.
  - reflexivity.
  - reflexivity.
  - exists T. split; [exact Hrun|]. split.
    + rewrite Hrows. vm_compute. reflexivity.
    + rewrite (Hcols "GHI"%string (Floats [Some 1; Some 2; Some 3]) eq_refl).
      vm_compute. reflexivity.
Defined.

(** X16: filtering is idempotent.  Whatever the table and the list of
    names, the table [filter_data_by_countries] returns is returned unchanged
    when it is filtered again by the same list. *)
Theorem filter_data_by_countries_idempotent (d T : DataFrame)
    (selected : list string) :
  filter_data_by_countries d selected = Ok T →
  filter_data_by_countries T selected = Ok T.
Proof.
  unfold filter_data_by_countries.
  destruct selected as [|s0 sel]; [by intros [= <-]|]. set (selected := s0 :: sel).
  destruct (df_get "Country" d) as [c|] eqn:Hget; [|done].
  intros [= <-]. set (mask := isin selected c).
  rewrite df_get_select_rows, Hget. cbn [fmap option_fmap option_map]. f_equal.
  assert (isin selected (select_column mask c) = select mask mask) as ->.
  { unfold isin. rewrite to_object_cells_select, <- select_fmap. done. }
  unfold select_rows. cbn [nrows columns]. f_equal.
  - rewrite select_self, take_replicate, mask_sum_all_true.
    pose proof (mask_sum_take_le (nrows d) mask). lia.
  - rewrite <- list_fmap_compose. apply list_fmap_ext.
    intros i [k col] _. cbn [compose fst snd]. by rewrite select_column_selected.
Qed.

Lemma filter_data_by_countries_idempotent_witness :
  filter_data_by_countries
    (mkDataFrame 1 [("Country"%string, Objects [Some (VStr "Togo")])])
    ["Togo"%string] =
  Ok (mkDataFrame 1 [("Country"%string, Objects [Some (VStr "Togo")])]).
Proof.
  apply (filter_data_by_countries_idempotent
           (mkDataFrame 2 [("Country"%string,
                            Objects [Some (VStr "Benin"); Some (VStr "Togo")])])).
  vm_compute. reflexivity.
Defined.

(** ** Uploaded files and the data directory *)



Lemma country_tag_country (name : string) (d : DataFrame) :
  df_get "Country" (tag_country name d) =
  Some (Objects (replicate (nrows d) (Some (VStr name)))).
Proof. apply df_get_set_eq. Qed.




(** X18: [load_all_countries_data] fails in one way only.  Whatever the
    directory holds, the call returns a table or raises [FileNotFoundError]:
    when the directory does not exist, when one of the three cleaned files
    does not exist, and also when a file that exists cannot be read or has no
    column [Timestamp], whose error is caught and raised again as
    [FileNotFoundError].  When it returns, the three files were read, the
    table has as many rows as the three together, and its column [Country]
    tags the rows of the first file with Benin, those of the second with
    Sierra Leone and those of the third with Togo. *)
Theorem load_all_countries_data_outcome (parse_dates : column → column)
    (path_exists : string → bool) (joinpath : string → string → string)
    (read_csv : string → option DataFrame) (data_dir : string) :
  (∀ e, load_all_countries_data parse_dates path_exists joinpath read_csv data_dir
        = Raise e → e = FileNotFoundError) ∧
  (path_exists data_dir = false →
   load_all_countries_data parse_dates path_exists joinpath read_csv data_dir
   = Raise FileNotFoundError) ∧
  (∀ file, file ∈ required_files → path_exists (joinpath data_dir file) = false →
     load_all_countries_data parse_dates path_exists joinpath read_csv data_dir
     = Raise FileNotFoundError) ∧
  ∀ T, load_all_countries_data parse_dates path_exists joinpath read_csv data_dir
       = Ok T →
    ∃ benin_df sierra_leone_df togo_df : DataFrame,
      read_clean_csv parse_dates joinpath read_csv data_dir "benin_clean.csv"
        = Ok benin_df ∧
      read_clean_csv parse_dates joinpath read_csv data_dir "sierra_leone_clean.csv"
        = Ok sierra_leone_df ∧
      read_clean_csv parse_dates joinpath read_csv data_dir "togo_clean.csv"
        = Ok togo_df ∧
      nrows T = (nrows benin_df + nrows sierra_leone_df + nrows togo_df)%nat ∧
      df_get "Country" T =
        Some (Objects (replicate (nrows benin_df) (Some (VStr "Benin")) ++
                       replicate (nrows sierra_leone_df) (Some (VStr "Sierra Leone")) ++
                       replicate (nrows togo_df) (Some (VStr "Togo")))).
Proof.
  unfold load_all_countries_data, required_files.
  destruct (path_exists data_dir) eqn:Hdir; cbn [negb].
  2:{ split; [by intros e [= <-]|]. split; [done|]. split; [done|]. done. }
  rewrite !filter_cons, filter_nil.
  destruct (path_exists (joinpath data_dir "benin_clean.csv")) eqn:Hb;
    destruct (path_exists (joinpath data_dir "sierra_leone_clean.csv")) eqn:Hs;
    destruct (path_exists (joinpath data_dir "togo_clean.csv")) eqn:Ht;
    repeat case_decide; try done;
    try (split; [by intros e [= <-]|]; split; [done|]; split; [done|]; done).
  destruct (read_clean_csv _ _ _ data_dir "benin_clean.csv") as [b|eb] eqn:Rb;
    cbn [try_except].
  2:{ split; [by intros e [= <-]|]. split; [done|]. split; [|done].
      intros file Hin. repeat (apply elem_of_cons in Hin as [->|Hin]; [congruence|]).
      by apply elem_of_nil in Hin. }
  destruct (read_clean_csv _ _ _ data_dir "sierra_leone_clean.csv") as [s|es] eqn:Rs;
    cbn [try_except].
  2:{ split; [by intros e [= <-]|]. split; [done|]. split; [|done].
      intros file Hin. repeat (apply elem_of_cons in Hin as [->|Hin]; [congruence|]).
      by apply elem_of_nil in Hin. }
  destruct (read_clean_csv _ _ _ data_dir "togo_clean.csv") as [t|et] eqn:Rt;
    cbn [try_except].
  2:{ split; [by intros e [= <-]|]. split; [done|]. split; [|done].
      intros file Hin. repeat (apply elem_of_cons in Hin as [->|Hin]; [congruence|]).
      by apply elem_of_nil in Hin. }
  set (frames := [tag_country "Benin" b; tag_country "Sierra Leone" s;
                  tag_country "Togo" t]).
  assert (frames ≠ []) as Hne by done.
  destruct (concat_spec frames Hne) as (T & Hcat & Hrows & _).
  rewrite Hcat. split; [done|]. split; [done|]. split.
  { intros file Hin. repeat (apply elem_of_cons in Hin as [->|Hin]; [congruence|]).
    by apply elem_of_nil in Hin. }
  intros T' [= <-]. exists b, s, t. split; [done|]. split; [done|]. split; [done|].
  split.
  - rewrite Hrows. simpl. lia.
  - rewrite (concat_object_column frames "Country" country_cells T Hne); [| |done].
    + unfold frames, country_cells. simpl. rewrite !country_tag_country.
      by rewrite app_nil_r.
    + unfold frames, country_cells. repeat constructor;
        by rewrite country_tag_country.
Qed.

(** ** What an aggregation leaves in the synthesizer *)

Section AggregationState.

Variable read_csv : string → option DataFrame.
Variable to_datetime : column → option column.

Lemma recorded_cons (item : string * string) (rest : list (string * string))
    (data : gmap string DataFrame) :
  recorded read_csv to_datetime (item :: rest) data =
  recorded read_csv to_datetime rest
    match read_csv item.2 with
    | Some d => <[item.1 := loaded_frame to_datetime item.1 d]> data
    | None => data
    end.
Proof. done. Qed.

Lemma load_loop_state (file_mapping : list (string * string))
    (acc : list DataFrame) (s : CrossCountrySynthesizer) :
  Forall (λ item : string * string,
            ∃ d, read_csv item.2 = Some d ∧ loads to_datetime d) file_mapping →
  load_loop read_csv to_datetime file_mapping acc s =
  (Ok (acc ++ loaded_frames read_csv to_datetime file_mapping),
   mkSynthesizer (data_dir s)
     (recorded read_csv to_datetime file_mapping (countries_data s))
     (combined_data s)).
Proof.
  intros Hall. revert acc s.
  induction Hall as [|item rest (d & Hread & Hloads) _ IH]; intros acc s.
  - unfold loaded_frames. simpl. rewrite app_nil_r. by destruct s.
  - rewrite recorded_cons, Hread.
    assert (loaded_frames read_csv to_datetime (item :: rest) =
            loaded_frame to_datetime item.1 d :: loaded_frames read_csv to_datetime rest)
      as -> by (unfold loaded_frames; simpl; by rewrite Hread).
    unfold load_loop. simpl. unfold bind at 1 2.
    rewrite (load_country_data_loads _ _ _ _ d) by done. unfold ret at 1.
    unfold load_loop in IH. rewrite IH. cbn [data_dir countries_data combined_data].
    by rewrite <- app_assoc.
Qed.

Lemma load_loop_stops (pre post : list (string * string)) (item : string * string)
    (acc : list DataFrame) (s : CrossCountrySynthesizer) :
  Forall (λ item : string * string,
            ∃ d, read_csv item.2 = Some d ∧ loads to_datetime d) pre →
  read_csv item.2 = None →
  load_loop read_csv to_datetime (pre ++ item :: post) acc s =
  (Raise FileNotFoundError,
   mkSynthesizer (data_dir s)
     (recorded read_csv to_datetime pre (countries_data s))
     (combined_data s)).
Proof.
  intros Hall Hmiss. revert acc s.
  induction Hall as [|it rest (d & Hread & Hloads) _ IH]; intros acc s.
  - unfold load_loop. simpl. unfold bind at 1 2.
    rewrite load_country_data_missing by done. by destruct s.
  - rewrite recorded_cons, Hread.
    unfold load_loop. simpl. unfold bind at 1 2.
    rewrite (load_country_data_loads _ _ _ _ d) by done. unfold ret at 1.
    unfold load_loop in IH. by rewrite IH.
Qed.

Lemma recorded_other (file_mapping : list (string * string))
    (data : gmap string DataFrame) (name : string) :
  name ∉ file_mapping.*1 →
  recorded read_csv to_datetime file_mapping data !! name = data !! name.
Proof.
  revert data. induction file_mapping as [|item rest IH]; intros data Hn; [done|].
  rewrite fmap_cons in Hn. apply not_elem_of_cons in Hn as [Hne Hn].
  rewrite recorded_cons, IH by done. destruct (read_csv item.2); [|done].
  by rewrite lookup_insert_ne.
Qed.

Lemma recorded_lookup (file_mapping : list (string * string))
    (data : gmap string DataFrame) (item : string * string) (d : DataFrame) :
  NoDup file_mapping.*1 → item ∈ file_mapping → read_csv item.2 = Some d →
  recorded read_csv to_datetime file_mapping data !! item.1 =
  Some (loaded_frame to_datetime item.1 d).
Proof.
  revert data. induction file_mapping as [|it rest IH]; intros data Hnd Hin Hread.
  - by apply elem_of_nil in Hin.
  - rewrite fmap_cons in Hnd. apply NoDup_cons in Hnd as [Hnotin Hnd].
    rewrite recorded_cons.
    apply elem_of_cons in Hin as [->|Hin].
    + rewrite recorded_other by done. rewrite Hread. apply lookup_insert_eq.
    + by apply IH.
Qed.

Lemma loaded_frames_recorded (file_mapping : list (string * string))
    (data : gmap string DataFrame) :
  NoDup file_mapping.*1 →
  Forall (λ item : string * string, is_Some (read_csv item.2)) file_mapping →
  omap (λ item : string * string,
          recorded read_csv to_datetime file_mapping data !! item.1) file_mapping =
  loaded_frames read_csv to_datetime file_mapping.
Proof.
  intros Hnd Hall. unfold loaded_frames.
  assert (∀ l : list (string * string),
            (∀ item, item ∈ l → item ∈ file_mapping) →
            omap (λ item : string * string,
                    recorded read_csv to_datetime file_mapping data !! item.1) l =
            omap (λ item : string * string,
                    loaded_frame to_datetime item.1 <$> read_csv item.2) l) as H.
  { induction l as [|item l IH]; intros Hl; [done|].
    assert (item ∈ file_mapping) as Hin by (apply Hl; left).
    destruct (proj1 (Forall_forall _ _) Hall item Hin) as [d Hd].
    simpl. rewrite (recorded_lookup _ _ item d Hnd Hin Hd), Hd. simpl. f_equal.
    apply IH. intros it Hit. apply Hl. by right. }
  by apply H.
Qed.

End AggregationState.

(** X19: what a successful aggregation records.  For a mapping of distinct
    site names to files that exist (and load), [aggregate_all_countries]
    stores the table of every site in [self.countries_data] under the name of
    the site and keeps the entries of sites that are not in the mapping; the
    table it returns and stores in [self.combined_data] is the concatenation
    of the stored tables of the sites of the mapping, in the order of the
    mapping; and this table does not depend on what the synthesizer held
    before: an aggregation replaces the previous one. *)
Theorem aggregate_records_countries (read_csv : string → option DataFrame)
    (to_datetime : column → option column) (file_mapping : list (string * string))
    (self : CrossCountrySynthesizer) :
  Forall (λ item : string * string,
            ∃ d, read_csv item.2 = Some d ∧ loads to_datetime d) file_mapping →
  file_mapping ≠ [] →
  NoDup file_mapping.*1 →
  ∃ (T : DataFrame) (self' : CrossCountrySynthesizer),
    aggregate_all_countries read_csv to_datetime file_mapping self = (Ok T, self') ∧
    combined_data self' = Some T ∧
    data_dir self' = data_dir self ∧
    (∀ item d, item ∈ file_mapping → read_csv item.2 = Some d →
       countries_data self' !! item.1 = Some (loaded_frame to_datetime item.1 d)) ∧
    (∀ name, name ∉ file_mapping.*1 →
       countries_data self' !! name = countries_data self !! name) ∧
    concat (omap (λ item : string * string, countries_data self' !! item.1)
              file_mapping) = Ok T ∧
    ∀ other : CrossCountrySynthesizer,
      (aggregate_all_countries read_csv to_datetime file_mapping other).1 = Ok T.
Proof.
  intros Hall Hne Hnd.
  assert (Forall (λ item : string * string, is_Some (read_csv item.2)) file_mapping)
    as Hex.
  { eapply Forall_impl; [exact Hall|]. simpl. intros item (d & Hd & _). by eexists. }
  pose proof (loaded_frames_nonempty read_csv to_datetime _ Hex Hne) as Hne'.
  destruct (concat_spec _ Hne') as (T & Hcat & _).
  exists T. eexists. split.
  { rewrite aggregate_all_countries_unfold, load_loop_state by done.
    rewrite app_nil_l, Hcat. done. }
  cbn [combined_data data_dir countries_data].
  split; [done|]. split; [done|]. split; [|split; [|split] ].
  - intros item d Hin Hd. by apply recorded_lookup.
  - intros name Hn. by apply recorded_other.
  - by rewrite loaded_frames_recorded.
  - intros other.
    rewrite aggregate_all_countries_unfold, load_loop_state by done.
    by rewrite app_nil_l, Hcat.
Qed.

Lemma aggregate_records_countries_witness :
  ∃ (T : DataFrame) (self' : CrossCountrySynthesizer),
    aggregate_all_countries
      (λ path, Some (mkDataFrame 1 [("GHI"%string, Floats [Some 1])]))
      (λ c, Some c)
      [("Benin"%string, "benin_clean.csv"%string)]
      (new_synthesizer "data") = (Ok T, self') ∧
    countries_data self' !! "Benin"%string =
      Some (loaded_frame (λ c, Some c) "Benin"
              (mkDataFrame 1 [("GHI"%string, Floats [Some 1])])).
Proof.
  destruct (aggregate_records_countries
              (λ path, Some (mkDataFrame 1 [("GHI"%string, Floats [Some 1])]))
              (λ c, Some c)
              [("Benin"%string, "benin_clean.csv"%string)]
              (new_synthesizer "data"))
    as (T & self' & Hrun & _ & _ & Hrec & _).
  - repeat constructor. eexists. split; [reflexivity|].
    intros c _. eexists. reflexivity.
  - discriminate.
  - repeat constructor. intros Hin. apply elem_of_nil in Hin. exact Hin.
  - exists T, self'. split; [exact Hrun|].
    apply (Hrec ("Benin"%string, "benin_clean.csv"%string)).
    + apply elem_of_cons. left. reflexivity.
    + reflexivity.
Defined.

(** X20: where a failing aggregation stops.  When the files listed before a
    missing one exist (and load), [aggregate_all_countries] raises
    [FileNotFoundError] at the missing file and does not look at the files
    listed after it.  The aggregation is not undone: the tables of the sites
    listed before the missing file have been stored in
    [self.countries_data].  [self.combined_data] is as it was, so on a
    synthesizer that had not aggregated before, [get_summary_statistics]
    still raises [ValueError]. *)
Theorem aggregate_stops_at_missing_file (read_csv : string → option DataFrame)
    (to_datetime : column → option column) (pre post : list (string * string))
    (missing : string * string) (self : CrossCountrySynthesizer) :
  Forall (λ item : string * string,
            ∃ d, read_csv item.2 = Some d ∧ loads to_datetime d) pre →
  read_csv missing.2 = None →
  NoDup pre.*1 →
  ∃ self' : CrossCountrySynthesizer,
    aggregate_all_countries read_csv to_datetime (pre ++ missing :: post) self
      = (Raise FileNotFoundError, self') ∧
    combined_data self' = combined_data self ∧
    (∀ item d, item ∈ pre → read_csv item.2 = Some d →
       countries_data self' !! item.1 = Some (loaded_frame to_datetime item.1 d)) ∧
    (∀ name, name ∉ pre.*1 →
       countries_data self' !! name = countries_data self !! name) ∧
    (combined_data self = None →
     ∀ cols, get_summary_statistics cols self' = (Raise ValueError, self')).
Proof.
  intros Hall Hmiss Hnd. eexists. split.
  { rewrite aggregate_all_countries_unfold.
    by rewrite (load_loop_stops read_csv to_datetime pre post missing [] self). }
  cbn [combined_data countries_data].
  split; [done|]. split; [|split].
  - intros item d Hin Hd. by apply recorded_lookup.
  - intros name Hn. by apply recorded_other.
  - intros Hnone cols. unfold get_summary_statistics, bind, get.
    cbn [fst snd combined_data]. by rewrite Hnone.
Qed.

Lemma aggregate_stops_at_missing_file_witness :
  ∃ self' : CrossCountrySynthesizer,
    aggregate_all_countries
      (λ path, if String.eqb path "benin_clean.csv"
               then Some (mkDataFrame 1 [("GHI"%string, Floats [Some 1])])
               else None)
      (λ c, Some c)
      [("Benin"%string, "benin_clean.csv"%string); ("Togo"%string, "togo_clean.csv"%string)]
      (new_synthesizer "data") = (Raise FileNotFoundError, self') ∧
    countries_data self' !! "Benin"%string =
      Some (loaded_frame (λ c, Some c) "Benin"
              (mkDataFrame 1 [("GHI"%string, Floats [Some 1])])) ∧
    get_summary_statistics ["GHI"%string] self' = (Raise ValueError, self').
Proof.
  destruct (aggregate_stops_at_missing_file
              (λ path, if String.eqb path "benin_clean.csv"
                       then Some (mkDataFrame 1 [("GHI"%string, Floats [Some 1])])
                       else None)
              (λ c, Some c)
              [("Benin"%string, "benin_clean.csv"%string)] []
              ("Togo"%string, "togo_clean.csv"%string)
              (new_synthesizer "data"))
    as (self' & Hrun & _ & Hrec & _ & Hsum).
  - repeat constructor. eexists. split; [reflexivity|].
    intros c _. eexists. reflexivity.
  - reflexivity.
  - repeat constructor. intros Hin. apply elem_of_nil in Hin. exact Hin.
  - exists self'. split; [exact Hrun|]. split.
    + apply (Hrec ("Benin"%string, "benin_clean.csv"%string)).
      * apply elem_of_cons. left. reflexivity.
      * reflexivity.
    + apply Hsum. reflexivity.
Defined.

(** ** The summary of aggregated files *)

Lemma select_app {A} (mask1 mask2 : list bool) (l1 l2 : list A) :
  length mask1 = length l1 →
  select (mask1 ++ mask2) (l1 ++ l2) = select mask1 l1 ++ select mask2 l2.
Proof.
  revert l1. induction mask1 as [|m mask1 IH]; intros [|x l1] Hlen; try done.
  simpl in *. rewrite IH by lia. by destruct m.
Qed.

Lemma select_all_true {A} (l : list A) : select (replicate (length l) true) l = l.
Proof. induction l as [|x l IH]; [done|]. simpl. by rewrite IH. Qed.

Lemma select_all_false {A} (n : nat) (l : list A) : select (replicate n false) l = [].
Proof. revert l. induction n as [|n IH]; intros [|x l]; simpl; try done. Qed.

Lemma eq_scalar_app (v : option value) (l1 l2 : list (option value)) :
  eq_scalar v (l1 ++ l2) = eq_scalar v l1 ++ eq_scalar v l2.
Proof. apply fmap_app. Qed.

Lemma eq_scalar_replicate (k name : string) (n : nat) :
  eq_scalar (Some (VStr k)) (replicate n (Some (VStr name))) =
  replicate n (bool_decide (name = k)).
Proof.
  unfold eq_scalar. rewrite fmap_replicate. f_equal.
  apply bool_decide_ext. split; [by intros [= ->] | by intros ->].
Qed.

Lemma elem_of_site_tags (read_csv : string → option DataFrame)
    (file_mapping : list (string * string)) (o : option value) :
  o ∈ site_tags read_csv file_mapping ↔
  ∃ item, item ∈ file_mapping ∧ o = Some (VStr item.1) ∧
          (0 < file_rows read_csv item.2)%nat.
Proof.
  induction file_mapping as [|item rest IH].
  - split; [intros H; by apply elem_of_nil in H|].
    intros (item & H & _). by apply elem_of_nil in H.
  - rewrite site_tags_cons, elem_of_app, elem_of_replicate, IH. split.
    + intros [ [-> Hn] | (it & Hin & -> & Hn)].
      * exists item. split; [left|]. split; [done | lia].
      * exists it. split; [by right | done].
    + intros (it & [->|Hin]%elem_of_cons & -> & Hn).
      * left. split; [done | lia].
      * right. by exists it.
Qed.

Lemma filter_ne_unique {A} `{EqDecision A} (x : A) (l : list A) :
  x ∉ l → filter (λ y, y ≠ x) (unique l) = unique l.
Proof.
  intros Hx. apply filter_all. intros y Hy Heq. subst y.
  apply (proj1 (elem_of_unique _ _)) in Hy. contradiction.
Qed.

Lemma filter_ne_twice {A} `{EqDecision A} (x : A) (l : list A) :
  filter (λ y, y ≠ x) (filter (λ y, y ≠ x) l) = filter (λ y, y ≠ x) l.
Proof. apply filter_all. intros y Hy. by apply list_elem_of_filter in Hy as [? _]. Qed.

Lemma unique_replicate_app {A} `{EqDecision A} (n : nat) (x : A) (l : list A) :
  unique (replicate n x ++ l) =
  if decide (n = 0)%nat then unique l else x :: filter (λ y, y ≠ x) (unique l).
Proof.
  induction n as [|n IH]; [done|].
  rewrite decide_False by done. simpl. f_equal. rewrite IH.
  case_decide; [done|]. rewrite filter_cons_False by (intros H'; by apply H').
  apply filter_ne_twice.
Qed.

(** With distinct site names, the tags of an aggregation in order of first
    appearance are the names of the sites whose file has a row, in the order
    of the mapping. *)
Lemma unique_site_tags (read_csv : string → option DataFrame)
    (file_mapping : list (string * string)) :
  NoDup file_mapping.*1 →
  unique (site_tags read_csv file_mapping) =
  (λ item : string * string, Some (VStr item.1)) <$>
    filter (λ item : string * string, (0 < file_rows read_csv item.2)%nat) file_mapping.
Proof.
  induction file_mapping as [|item rest IH]; intros Hnd; [done|].
  rewrite fmap_cons in Hnd. apply NoDup_cons in Hnd as [Hnotin Hnd].
  rewrite site_tags_cons, unique_replicate_app.
  assert (Some (VStr item.1) ∉ site_tags read_csv rest) as Hfresh.
  { intros (it & Hin & [= Heq] & _)%elem_of_site_tags. apply Hnotin.
    rewrite Heq. apply list_elem_of_fmap. by exists it. }
  rewrite (filter_ne_unique _ _ Hfresh), (IH Hnd).
  case_decide as Hn.
  - rewrite filter_cons_False by lia. done.
  - rewrite filter_cons_True by lia. done.
Qed.

Section SummaryOfFiles.

Variable read_csv : string → option DataFrame.
Variable to_datetime : column → option column.
Variable col : string.
Hypothesis col_not_country : col ≠ "Country"%string.
Hypothesis col_not_timestamp : col ≠ "Timestamp"%string.

Lemma df_get_loaded_frame (name : string) (d : DataFrame) :
  df_get col (loaded_frame to_datetime name d) = df_get col d.
Proof.
  unfold loaded_frame. destruct (df_get "Timestamp" _) as [c|].
  - destruct (to_datetime c).
    + rewrite !df_get_set_ne by done. done.
    + by rewrite df_get_set_ne.
  - by rewrite df_get_set_ne.
Qed.

Lemma col_piece_loaded_frame (name : string) (d : DataFrame) :
  col_piece col (loaded_frame to_datetime name d) = col_piece col d.
Proof.
  unfold col_piece. by rewrite df_get_loaded_frame, nrows_loaded_frame.
Qed.

Lemma length_col_piece (d : DataFrame) :
  (∀ c, df_get col d = Some c → ∃ xs, c = Floats xs ∧ length xs = nrows d) →
  length (col_piece col d) = nrows d.
Proof.
  intros H. unfold col_piece. destruct (df_get col d) as [c|].
  - by destruct (H c eq_refl) as (xs & -> & ?).
  - apply length_replicate.
Qed.

Lemma loaded_frames_cons (item : string * string) (rest : list (string * string))
    (d : DataFrame) :
  read_csv item.2 = Some d →
  loaded_frames read_csv to_datetime (item :: rest) =
  loaded_frame to_datetime item.1 d :: loaded_frames read_csv to_datetime rest.
Proof. intros H. unfold loaded_frames. simpl. by rewrite H. Qed.

Lemma mapM_cons_Some {A B} (f : A → option B) (x : A) (l : list A) (y : B)
    (ys : list B) :
  f x = Some y → mapM f l = Some ys → mapM f (x :: l) = Some (y :: ys).
Proof. intros H1 H2. simpl. by rewrite H1, H2. Qed.

Lemma floats_pieces (file_mapping : list (string * string)) :
  float_in_files read_csv col file_mapping →
  mapM floats_piece
    ((λ d, (nrows d, df_get col d)) <$> loaded_frames read_csv to_datetime file_mapping) =
  Some (col_piece col <$> loaded_frames read_csv to_datetime file_mapping).
Proof.
  induction 1 as [|item rest (d & Hd & Hc) _ IH]; [done|].
  rewrite (loaded_frames_cons _ _ d Hd), !fmap_cons.
  apply mapM_cons_Some; [|exact IH].
  unfold col_piece. rewrite df_get_loaded_frame, nrows_loaded_frame.
  destruct (df_get col d) as [c|] eqn:Hget; [|done].
  by destruct (Hc c eq_refl) as (xs & -> & _).
Qed.

Lemma select_other_site (file_mapping : list (string * string)) (k : string) :
  float_in_files read_csv col file_mapping → k ∉ file_mapping.*1 →
  select (eq_scalar (Some (VStr k)) (site_tags read_csv file_mapping))
    (mjoin (col_piece col <$> loaded_frames read_csv to_datetime file_mapping)) = [].
Proof.
  induction 1 as [|item rest (d & Hd & Hc) _ IH]; intros Hk; [done|].
  rewrite fmap_cons in Hk. apply not_elem_of_cons in Hk as [Hne Hk].
  rewrite site_tags_cons, eq_scalar_app, eq_scalar_replicate.
  rewrite (loaded_frames_cons _ _ d Hd), fmap_cons.
  change (mjoin (?x :: ?l)) with (x ++ mjoin l).
  rewrite select_app.
  - rewrite bool_decide_eq_false_2 by done. rewrite select_all_false. by apply IH.
  - rewrite length_replicate, col_piece_loaded_frame, (length_col_piece d Hc).
    unfold file_rows. by rewrite Hd.
Qed.

Lemma select_site (file_mapping : list (string * string)) (item : string * string)
    (d : DataFrame) :
  float_in_files read_csv col file_mapping → NoDup file_mapping.*1 →
  item ∈ file_mapping → read_csv item.2 = Some d →
  select (eq_scalar (Some (VStr item.1)) (site_tags read_csv file_mapping))
    (mjoin (col_piece col <$> loaded_frames read_csv to_datetime file_mapping)) =
  col_piece col d.
Proof.
  intros Hall. revert item d.
  induction Hall as [|it rest (d0 & Hd0 & Hc) Hrest IH]; intros item d Hnd Hin Hd.
  { by apply elem_of_nil in Hin. }
  rewrite fmap_cons in Hnd. apply NoDup_cons in Hnd as [Hnotin Hnd].
  rewrite site_tags_cons, eq_scalar_app, eq_scalar_replicate.
  rewrite (loaded_frames_cons _ _ d0 Hd0), fmap_cons.
  change (mjoin (?x :: ?l)) with (x ++ mjoin l).
  assert (length (col_piece col (loaded_frame to_datetime it.1 d0))
          = file_rows read_csv it.2) as Hlen.
  { rewrite col_piece_loaded_frame, (length_col_piece d0 Hc).
    unfold file_rows. by rewrite Hd0. }
  rewrite select_app by (by rewrite length_replicate).
  apply elem_of_cons in Hin as [->|Hin].
  - rewrite bool_decide_eq_true_2 by done.
    rewrite <- Hlen, select_all_true.
    rewrite (select_other_site rest it.1 Hrest Hnotin), app_nil_r.
    rewrite col_piece_loaded_frame. congruence.
  - rewrite bool_decide_eq_false_2.
    + rewrite select_all_false. by apply IH.
    + intros Heq. apply Hnotin. rewrite Heq. apply list_elem_of_fmap. by exists item.
Qed.

End SummaryOfFiles.

Lemma concat_float_column (read_csv : string → option DataFrame)
    (to_datetime : column → option column) (col : string)
    (file_mapping : list (string * string)) (T : DataFrame) (c : column) :
  col ≠ "Country"%string → col ≠ "Timestamp"%string →
  float_in_files read_csv col file_mapping →
  concat (loaded_frames read_csv to_datetime file_mapping) = Ok T →
  df_get col T = Some c →
  c = Floats (mjoin (col_piece col <$> loaded_frames read_csv to_datetime file_mapping)).
Proof.
  intros Hc1 Hc2 Hfl Hcat Hget.
  assert (loaded_frames read_csv to_datetime file_mapping ≠ []) as Hne.
  { intros Hnil. by rewrite Hnil in Hcat. }
  destruct (concat_spec _ Hne) as (T' & Hcat' & _ & Hcols).
  rewrite Hcat in Hcat'. injection Hcat' as <-.
  rewrite Hcols in Hget. case_decide; [|done]. injection Hget as <-.
  unfold concat_column.
  by rewrite (floats_pieces read_csv to_datetime col Hc1 Hc2 file_mapping Hfl).
Qed.

Lemma concat_has_column (dfs : list DataFrame) (d T : DataFrame) (col : string) :
  d ∈ dfs → is_Some (df_get col d) → concat dfs = Ok T → is_Some (df_get col T).
Proof.
  intros Hin [c Hc] Hcat.
  assert (dfs ≠ []) as Hne by (intros ->; by apply elem_of_nil in Hin).
  destruct (concat_spec _ Hne) as (T' & Hcat' & _ & Hcols).
  rewrite Hcat in Hcat'. injection Hcat' as <-.
  rewrite Hcols, decide_True; [by eexists|].
  apply list_elem_of_join. exists (columns d).*1. split.
  - by apply assoc_get_elem_of in Hc.
  - apply list_elem_of_fmap. by exists d.
Qed.

(** X21: the summary of an aggregation gives the statistics of the files.
    For a mapping of distinct site names to files that exist (and load),
    whose requested columns are float columns with one cell per row,
    [aggregate_all_countries] followed by [get_summary_statistics] returns
    one row for each site whose file has a row, in the order of the mapping
    (a site whose file is empty gets no row), and the row of a site holds,
    for every requested column of its file, the mean, median, standard
    deviation, minimum and maximum of that column of that file. *)
Theorem summary_of_aggregated_files (read_csv : string → option DataFrame)
    (to_datetime : column → option column) (file_mapping : list (string * string))
    (cols : list string) (self : CrossCountrySynthesizer) :
  Forall (λ item : string * string,
            ∃ d, read_csv item.2 = Some d ∧ loads to_datetime d) file_mapping →
  file_mapping ≠ [] →
  NoDup file_mapping.*1 →
  (∀ col, col ∈ cols →
     col ≠ "Country"%string ∧ col ≠ "Timestamp"%string ∧
     float_in_files read_csv col file_mapping) →
  ∃ (T : DataFrame) (s1 : CrossCountrySynthesizer) (rows : list summary_row),
    aggregate_all_countries read_csv to_datetime file_mapping self = (Ok T, s1) ∧
    get_summary_statistics cols s1 = (Ok rows, s1) ∧
    Country <$> rows =
      (λ item : string * string, Some (VStr item.1)) <$>
        filter (λ item : string * string, (0 < file_rows read_csv item.2)%nat)
          file_mapping ∧
    ∀ row item d col xs sfx f,
      row ∈ rows → item ∈ file_mapping → Country row = Some (VStr item.1) →
      read_csv item.2 = Some d →
      col ∈ cols → df_get col d = Some (Floats xs) →
      (sfx, f) ∈ summary_statistics →
      assoc_get (col +:+ sfx) (stats row) = Some (f xs).
Proof.
  intros Hall Hne Hnd Hcols.
  assert (Forall (λ item : string * string, is_Some (read_csv item.2)) file_mapping)
    as Hex.
  { eapply Forall_impl; [exact Hall|]. simpl. intros item (d & Hd & _). by eexists. }
  set (frames := loaded_frames read_csv to_datetime file_mapping).
  pose proof (loaded_frames_nonempty read_csv to_datetime _ Hex Hne) as Hne'.
  destruct (concat_spec _ Hne') as (T & Hcat & _ & _). fold frames in Hcat, Hne'.
  assert (df_get "Country" T = Some (Objects (site_tags read_csv file_mapping)))
    as Htags.
  { rewrite (concat_object_column _ "Country" country_cells T Hne'
               (loaded_frames_country _ _ _) Hcat).
    unfold frames. by rewrite loaded_frames_site_tags. }
  assert (all_floats cols T) as Hfloats.
  { apply Forall_forall. intros col Hcol c Hget.
    destruct (Hcols col Hcol) as (Hc1 & Hc2 & Hfl). eexists.
    by apply (concat_float_column read_csv to_datetime col file_mapping T c). }
  exists T. eexists. 
  destruct (get_summary_statistics_run
              (mkSynthesizer (data_dir self)
                 (recorded read_csv to_datetime file_mapping (countries_data self))
                 (Some T))
              cols T (Objects (site_tags read_csv file_mapping)) eq_refl Htags Hfloats)
    as (rows & Hsum & Hcountries & Hstats).
  exists rows. split.
  { rewrite aggregate_all_countries_unfold, load_loop_state by done.
    rewrite app_nil_l. fold frames. rewrite Hcat. done. }
  split; [exact Hsum|]. cbn [to_object_cells] in Hcountries, Hstats.
  split; [by rewrite Hcountries, unique_site_tags|].
  intros row item d col xs sfx f Hrow Hitem Hrowc Hd Hcol Hget Hsfx.
  destruct (Hcols col Hcol) as (Hc1 & Hc2 & Hfl).
  assert (is_Some (df_get col T)) as [c HT].
  { apply (concat_has_column frames (loaded_frame to_datetime item.1 d)); [| |done].
    - unfold frames, loaded_frames. apply list_elem_of_omap. exists item.
      split; [done|]. by rewrite Hd.
    - rewrite (df_get_loaded_frame to_datetime col Hc1 Hc2). by eexists. }
  pose proof (concat_float_column read_csv to_datetime col file_mapping T c
                Hc1 Hc2 Hfl Hcat HT) as ->.
  rewrite (Hstats row Hrow col _ sfx f Hcol HT Hsfx). do 2 f_equal.
  rewrite Hrowc.
  rewrite (select_site read_csv to_datetime col Hc1 Hc2 file_mapping item d Hfl Hnd Hitem Hd).
  unfold col_piece. by rewrite Hget.
Qed.

Lemma summary_of_aggregated_files_witness :
  ∃ (T : DataFrame) (s1 : CrossCountrySynthesizer) (rows : list summary_row),
    aggregate_all_countries
      (λ path, if String.eqb path "benin_clean.csv"
               then Some (mkDataFrame 2 [("GHI"%string, Floats [Some 1; Some 3])])
               else Some (mkDataFrame 0 [("GHI"%string, Floats [])]))
      (λ c, Some c)
      [("Benin"%string, "benin_clean.csv"%string); ("Togo"%string, "togo_clean.csv"%string)]
      (new_synthesizer "data") = (Ok T, s1) ∧
    get_summary_statistics ["GHI"%string] s1 = (Ok rows, s1) ∧
    Country <$> rows = [Some (VStr "Benin")].
Proof.
  destruct (summary_of_aggregated_files
              (λ path, if String.eqb path "benin_clean.csv"
                       then Some (mkDataFrame 2 [("GHI"%string, Floats [Some 1; Some 3])])
                       else Some (mkDataFrame 0 [("GHI"%string, Floats [])]))
              (λ c, Some c)
              [("Benin"%string, "benin_clean.csv"%string);
               ("Togo"%string, "togo_clean.csv"%string)]
              ["GHI"%string] (new_synthesizer "data"))
    as (T & s1 & rows & Hrun & Hsum & Hcountries & _).
  - repeat constructor.
    + eexists. split; [reflexivity|]. intros c _. eexists. reflexivity.
    + eexists. split; [reflexivity|]. intros c _. eexists. reflexivity.
  - discriminate.
  - repeat constructor.
    + intros Hin. apply list_elem_of_singleton in Hin. discriminate Hin.
    + intros Hin. apply elem_of_nil in Hin. exact Hin.
  - intros col Hcol. apply list_elem_of_singleton in Hcol. subst col.
    split; [discriminate|]. split; [discriminate|].
    repeat constructor.
    + eexists. split; [reflexivity|]. intros c [= <-]. eexists. split; reflexivity.
    + eexists. split; [reflexivity|]. intros c [= <-]. eexists. split; reflexivity.
  - exists T, s1, rows. split; [exact Hrun|]. split; [exact Hsum|].
    rewrite Hcountries. vm_compute. reflexivity.
Defined.

(** ** Which attributes a method of the cleaner writes *)








(** X23: [clean] with an unknown imputation method.  When one of the columns
    to impute is a column of the table, [clean] raises [ValueError] at the
    imputation step: no table of the cleaner has changed, nothing has been
    detected or capped, but the report is no longer the one before the call:
    it already holds the missing-value statistics of the table under
    ['missing_values']. *)
Theorem clean_unknown_method (self : SolarDataCleaner)
    (ncols ocols : option (list string)) (method : string) (t : R) :
  let numeric := match ncols with
                 | None => numeric_columns (df self)
                 | Some cs => cs
                 end in
  ¬ valid_method method →
  existsb (λ col, has_column col (df self)) numeric = true →
  clean ncols ocols method t self =
  (Raise ValueError,
   mkCleaner (df self) (df_cleaned self) (outlier_flags self)
     (mkReport (Some (missing_statistics (5 / 100) (df self)))
        (outliers (cleaning_stats self)) (total_outliers (cleaning_stats self)))).
Proof.
  intros numeric Hm Hex. unfold clean.
  unfold bind at 1. unfold detect_missing_values at 1, bind at 1, get at 1, ret at 1.
  unfold bind at 1, modify at 1. unfold bind at 1, get at 1.
  cbn [df set_cleaning_stats]. fold numeric. unfold bind at 1.
  rewrite impute_missing_values_run. unfold set_cleaning_stats. cbn [df].
  by rewrite (impute_loop_unknown _ _ _ Hm), Hex.
Qed.

Lemma clean_unknown_method_witness :
  ∃ self' : SolarDataCleaner,
    clean None None "average" 3
      (init (mkDataFrame 1 [("GHI"%string, Floats [None])])) =
    (Raise ValueError, self') ∧
    df self' = mkDataFrame 1 [("GHI"%string, Floats [None])] ∧
    missing_values (cleaning_stats self') =
      Some (missing_statistics (5 / 100) (mkDataFrame 1 [("GHI"%string, Floats [None])])).
Proof.
  eexists. split.
  - apply (clean_unknown_method
             (init (mkDataFrame 1 [("GHI"%string, Floats [None])]))
             None None "average" 3).
    + intros [H | [H | H] ]; discriminate H.
    + reflexivity.
  - split; reflexivity.
Defined.

(** ** The convenience function of the cleaner and repeated exports *)

(** X24: [clean_solar_data] on float columns, with one of the three methods
    and distinct outlier columns, returns a pair: the cleaned table of a new
    cleaner made for the input, and that cleaner's report.  The table has the
    rows of the input and the boolean column [Outlier_Flag]; the report holds
    the missing-value statistics of the input table, the key ['outliers'],
    and under ['total_outliers'] the number of rows of the returned table
    whose flag is true. *)
Theorem clean_solar_data_report (d : DataFrame) (ncols ocols : option (list string))
    (method : string) (t : R) :
  let numeric := match ncols with
                 | None => numeric_columns d
                 | Some cs => cs
                 end in
  let outlier := match ocols with None => numeric | Some cs => cs end in
  valid_method method →
  float_columns numeric d → float_columns outlier d → NoDup outlier →
  ∃ (capped : DataFrame) (flags : list bool),
    clean_solar_data d ncols ocols method t =
    Ok (capped,
        mkReport (Some (missing_statistics (5 / 100) d)) true (Some (mask_sum flags))) ∧
    nrows capped = nrows d ∧
    df_get "Outlier_Flag" capped = Some (Bools flags) ∧
    length flags = nrows d.
Proof.
  intros numeric outlier Hm Hnum Hout Hnd.
  destruct (clean_general_run (init d) ncols ocols method t Hm Hnum Hout Hnd)
    as (d1 & capped & Hrows1 & _ & _ & Hrowsc & _ & Hother & _ & Hrun).
  cbn zeta in Hother, Hrun. cbn [df init] in Hother, Hrun, Hrows1.
  fold numeric outlier in Hother, Hrun.
  set (flags := foldl or_mask (replicate (nrows d1) false)
                  (omap (column_mask t d1) outlier)) in *.
  exists capped, flags. split.
  { unfold clean_solar_data, bind at 1. rewrite Hrun.
    unfold get_cleaning_report, bind, get, ret. done. }
  split; [congruence|]. split.
  - rewrite Hother, df_get_set_eq; [done|]. by apply (float_columns_not_flag _ d).
  - unfold flags. by rewrite length_foldl_or_mask, length_replicate.
Qed.

Lemma clean_solar_data_report_witness :
  ∃ (capped : DataFrame) (flags : list bool),
    clean_solar_data (mkDataFrame 2 [("GHI"%string, Floats [Some 1; None])])
      (Some ["GHI"]%string) None "median" 3 =
    Ok (capped,
        mkReport
          (Some (missing_statistics (5 / 100)
                   (mkDataFrame 2 [("GHI"%string, Floats [Some 1; None])])))
          true (Some (mask_sum flags))) ∧
    length flags = 2%nat.
Proof.
  destruct (clean_solar_data_report
              (mkDataFrame 2 [("GHI"%string, Floats [Some 1; None])])
              (Some ["GHI"]%string) None "median" 3)
    as (capped & flags & Hrun & _ & _ & Hlen).
  - left. reflexivity.
  - repeat constructor; [discriminate|]. intros c [= <-]. eexists. reflexivity.
  - repeat constructor; [discriminate|]. intros c [= <-]. eexists. reflexivity.
  - repeat constructor. intros Hin. apply elem_of_nil in Hin. exact Hin.
  - exists capped, flags. split; [exact Hrun | exact Hlen].
Defined.

(** X25: [export] with [remove_temp=True] strips the exporter's own table,
    not a copy made for the file.  After such an export, the table of the
    exporter is the table written, without the temporary columns; a second
    export of the same exporter with [remove_temp=False] therefore writes the
    stripped table too, and the temporary columns cannot be exported any
    more.  No export raises, and each writes the file at its path only. *)
Theorem export_strips_for_good (s : Exporter.state) (path1 path2 : string)
    (temp_columns temp_columns' : option (list string)) (index1 index2 : bool) :
  let temp := match temp_columns with
              | None => Exporter.default_temp_columns
              | Some cs => cs
              end in
  ∃ (written : DataFrame) (s1 : Exporter.state),
    Exporter.export path1 true temp_columns index1 s = (Ok path1, s1) ∧
    Exporter.files s1 = <[path1 := mkCsv index1 written]> (Exporter.files s) ∧
    Exporter.df (Exporter.this s1) = written ∧
    (∀ name, name ∈ temp → df_get name written = None) ∧
    (∀ name, name ∉ temp →
       df_get name written = df_get name (Exporter.df (Exporter.this s))) ∧
    Exporter.export path2 false temp_columns' index2 s1 =
    (Ok path2,
     Exporter.mkState (Exporter.mkExporter written)
       (<[path2 := mkCsv index2 written]> (Exporter.files s1))).
Proof.
  intros temp. eexists _, _. split; [apply export_run|].
  cbn [Exporter.files Exporter.this Exporter.df]. fold temp.
  split; [done|]. split; [done|]. split; [|split].
  - intros name Hin. unfold df_get. cbn [columns].
    rewrite assoc_get_without. by rewrite decide_True.
  - intros name Hin. unfold df_get at 1. cbn [columns].
    rewrite assoc_get_without. by rewrite decide_False.
  - by rewrite export_run.
Qed.
